(** * decodeless/mappedfile: the POSIX back-end, embedded and verified

    The development follows [decodeless/detail/mappedfile_linux.hpp]:
    the classes [FileDescriptor], [MemoryMap<Prot>], [MappedFile<Writable>],
    [ResizableMappedFile] and [ResizableMappedMemory] become state-passing
    functions over a model of the kernel objects they drive (files,
    descriptors, the page table of the process and the bytes behind it).

    C++ exceptions are explicit results; a destructor that throws ends the
    process ([Terminated]), because destructors are [noexcept].  Objects that a
    method mutates are threaded through together with the kernel state. *)

From Stdlib Require Import ZArith Lia.
From stdpp Require Import base option list list_numbers gmap strings.

Local Open Scope Z_scope.

(** ** Constants of the system headers (Linux, x86-64 values) *)

Definition PROT_NONE : Z := 0.
Definition PROT_READ : Z := 1.
Definition PROT_WRITE : Z := 2.

Definition MAP_SHARED : Z := 1.
Definition MAP_PRIVATE : Z := 2.
Definition MAP_SHARED_VALIDATE : Z := 3.
Definition MAP_TYPE : Z := 15.
Definition MAP_FIXED : Z := 16.
Definition MAP_ANONYMOUS : Z := 32.
Definition MAP_NORESERVE : Z := 16384.
Definition MAP_FIXED_NOREPLACE : Z := 1048576.

Definition O_RDONLY : Z := 0.
Definition O_WRONLY : Z := 1.
Definition O_RDWR : Z := 2.
Definition O_ACCMODE : Z := 3.
Definition O_CREAT : Z := 64.

Definition MS_INVALIDATE : Z := 2.
Definition MS_SYNC : Z := 4.
Definition MADV_DONTNEED : Z := 4.

(** [size_t] and pointers are 64 bits wide. *)
Definition SIZE_WIDTH : Z := 2 ^ 64.
Definition wrap64 (x : Z) : Z := x mod SIZE_WIDTH.
(** The conversion [size_t -> off_t] (a signed 64-bit integer). *)
Definition to_off_t (x : Z) : Z :=
  if wrap64 x <? 2 ^ 63 then wrap64 x else wrap64 x - SIZE_WIDTH.

Definition nullptr : Z := 0.
(** [MAP_FAILED] is [(void* )-1]. *)
Definition MAP_FAILED : Z := SIZE_WIDTH - 1.

Definition has_flag (flags bit : Z) : bool := negb (Z.land flags bit =? 0).

(** ** The kernel model

    The system calls follow POSIX and the Linux manual pages, as far as the
    library depends on them:
    - [mmap] works on whole pages, fails with [EINVAL] for a length of 0,
      for flags without exactly one mapping type and for an offset or a
      fixed address off the page grid, with [EBADF] and [EACCES] for a
      descriptor that is not open or not open for the access asked for,
      and with [ENOMEM] when the range does not fit the address space;
      with [MAP_FIXED] it maps at the address given and replaces what was
      there, otherwise the kernel chooses the address;
    - a [MAP_SHARED] file mapping is the file: stores change it and loads
      see it; a [MAP_PRIVATE] mapping has copies of its own, and no store
      to it ever reaches the file;
    - [mprotect], [madvise] and [msync] fail with [EINVAL] off the page
      grid and with [ENOMEM] over pages that are not mapped;
      [MADV_DONTNEED] makes anonymous pages read as zero again;
    - [ftruncate] sets the length of the file exactly, extending with
      zeros;
    - a failing call changes nothing.
    Permissions of the file system, signals and other processes are not
    modelled. *)

Inductive errno := EINVAL | ENOMEM | EBADF | EACCES | EEXIST | ENOENT.

(** What stands behind a mapped page.  A shared file page reads and writes
    the file itself; private file pages and anonymous pages have bytes of
    their own ([os_mem]); [off] is the file offset of the first byte of the
    page. *)
Inductive backing :=
| Anon
| FilePrivate (path : string) (off : Z)
| FileShared (path : string) (off : Z).

Record page := Page { pg_prot : Z; pg_back : backing }.

Record os_state := OsState {
  os_pagesize : Z;                      (* sysconf(_SC_PAGESIZE) *)
  os_files : gmap string (list Z);      (* path -> bytes of the file *)
  os_fds : gmap Z (string * Z);         (* open descriptor -> path, open flags *)
  os_next_fd : Z;                       (* the descriptor the next open returns *)
  os_pages : Z -> option page;          (* page number -> mapped page *)
  os_mem : Z -> Z;                      (* address -> byte of a private page *)
  os_hint : Z                           (* where the kernel puts the next
                                           mapping that has no fixed address *)
}.

Definition set_files (f : gmap string (list Z)) (os : os_state) : os_state :=
  OsState (os_pagesize os) f (os_fds os) (os_next_fd os)
          (os_pages os) (os_mem os) (os_hint os).
Definition set_fds (d : gmap Z (string * Z)) (nxt : Z) (os : os_state) : os_state :=
  OsState (os_pagesize os) (os_files os) d nxt
          (os_pages os) (os_mem os) (os_hint os).
Definition set_vm (pg : Z -> option page) (mem : Z -> Z) (hint : Z)
    (os : os_state) : os_state :=
  OsState (os_pagesize os) (os_files os) (os_fds os) (os_next_fd os)
          pg mem hint.

(** Number of pages that [len] bytes touch: mappings are made of whole
    pages, a partial last page included. *)
Definition pages_for (os : os_state) (len : Z) : Z :=
  (len + os_pagesize os - 1) / os_pagesize os.

Definition in_pages (first n p : Z) : bool := (first <=? p) && (p <? first + n).

Definition all_mapped (os : os_state) (first n : Z) : bool :=
  forallb (fun p => match os_pages os p with Some _ => true | None => false end)
          (seqZ first n).

Definition none_mapped (os : os_state) (first n : Z) : bool :=
  forallb (fun p => match os_pages os p with Some _ => false | None => true end)
          (seqZ first n).

(** Byte [fo] of the file at [path]; zero past the end (the tail of the
    last page of a mapping reads as zero). *)
Definition file_byte (os : os_state) (path : string) (fo : Z) : Z :=
  match os_files os !! path with
  | Some data => if fo <? 0 then 0 else default 0 (data !! Z.to_nat fo)
  | None => 0
  end.

Definition file_length (os : os_state) (path : string) : option Z :=
  (fun data => Z.of_nat (length data)) <$> os_files os !! path.

(** *** mmap *)

Definition map_type_ok (flags : Z) : bool :=
  let t := Z.land flags MAP_TYPE in
  (t =? MAP_SHARED) || (t =? MAP_PRIVATE) || (t =? MAP_SHARED_VALIDATE).

Definition map_is_private (flags : Z) : bool :=
  Z.land flags MAP_TYPE =? MAP_PRIVATE.

(** The object a new mapping is backed by, or the error of the call. *)
Definition mmap_backing (prot flags fd off : Z) (os : os_state) : errno + backing :=
  if has_flag flags MAP_ANONYMOUS then inr Anon
  else match os_fds os !! fd with
       | None => inl EBADF
       | Some (path, oflags) =>
           let acc := Z.land oflags O_ACCMODE in
           if acc =? O_WRONLY then inl EACCES
           else if map_is_private flags then inr (FilePrivate path off)
           else if has_flag prot PROT_WRITE && negb (acc =? O_RDWR) then inl EACCES
           else inr (FileShared path off)
       end.

(** Where the mapping goes.  With [MAP_FIXED] exactly at [addr], replacing
    what is there; with [MAP_FIXED_NOREPLACE] exactly at [addr] if the range
    is free; otherwise wherever the kernel decides ([os_hint]; the address
    argument is only a hint and this kernel does not take it). *)
Definition mmap_place (addr n flags : Z) (os : os_state) : errno + Z :=
  let ps := os_pagesize os in
  if has_flag flags MAP_FIXED then
    if negb (addr mod ps =? 0) then inl EINVAL
    else if SIZE_WIDTH <? addr + n * ps then inl ENOMEM
    else inr addr
  else if has_flag flags MAP_FIXED_NOREPLACE then
    if negb (addr mod ps =? 0) then inl EINVAL
    else if SIZE_WIDTH <? addr + n * ps then inl ENOMEM
    else if none_mapped os (addr / ps) n then inr addr
    else inl EEXIST
  else
    if SIZE_WIDTH <? os_hint os + n * ps then inl ENOMEM
    else inr (os_hint os).

Definition page_backing (bk : backing) (ps k : Z) : backing :=
  match bk with
  | Anon => Anon
  | FilePrivate path off => FilePrivate path (off + k * ps)
  | FileShared path off => FileShared path (off + k * ps)
  end.

(** Install [n] pages at [a]: the page-table entries, and the initial bytes
    of private pages (zero for anonymous memory, a copy of the file for a
    private file mapping). *)
Definition mmap_install (a n prot : Z) (bk : backing) (os : os_state) : os_state :=
  let ps := os_pagesize os in
  let first := a / ps in
  let pg' p :=
    if in_pages first n p
    then Some (Page prot (page_backing bk ps (p - first)))
    else os_pages os p in
  let mem' x :=
    if in_pages first n (x / ps) then
      match bk with
      | Anon => 0
      | FilePrivate path off => file_byte os path (off + (x - a))
      | FileShared _ _ => os_mem os x
      end
    else os_mem os x in
  set_vm pg' mem' (Z.max (os_hint os) (a + n * ps)) os.

Definition sys_mmap (addr len prot flags fd off : Z) (os : os_state)
    : (errno + Z) * os_state :=
  let ps := os_pagesize os in
  if len <=? 0 then (inl EINVAL, os)
  else if negb (map_type_ok flags) then (inl EINVAL, os)
  else if negb (off mod ps =? 0) then (inl EINVAL, os)
  else match mmap_backing prot flags fd off os with
       | inl e => (inl e, os)
       | inr bk =>
           match mmap_place addr (pages_for os len) flags os with
           | inl e => (inl e, os)
           | inr a => (inr a, mmap_install a (pages_for os len) prot bk os)
           end
       end.

(** *** munmap, mprotect, madvise, msync *)

Definition sys_munmap (addr len : Z) (os : os_state) : (errno + unit) * os_state :=
  let ps := os_pagesize os in
  if negb (addr mod ps =? 0) || (len <=? 0) then (inl EINVAL, os)
  else
    let pg' p := if in_pages (addr / ps) (pages_for os len) p then None
                 else os_pages os p in
    (inr tt, set_vm pg' (os_mem os) (os_hint os) os).

Definition sys_mprotect (addr len prot : Z) (os : os_state)
    : (errno + unit) * os_state :=
  let ps := os_pagesize os in
  if negb (addr mod ps =? 0) then (inl EINVAL, os)
  else if negb (all_mapped os (addr / ps) (pages_for os len)) then (inl ENOMEM, os)
  else
    let pg' p :=
      if in_pages (addr / ps) (pages_for os len) p
      then (fun pg => Page prot (pg_back pg)) <$> os_pages os p
      else os_pages os p in
    (inr tt, set_vm pg' (os_mem os) (os_hint os) os).

(** [MADV_DONTNEED] drops the private bytes of the range: anonymous pages
    read as zero afterwards, private file pages as the file again; shared
    file pages keep the file's bytes. *)
Definition sys_madvise (addr len advice : Z) (os : os_state)
    : (errno + unit) * os_state :=
  let ps := os_pagesize os in
  if negb (addr mod ps =? 0) then (inl EINVAL, os)
  else if negb (advice =? MADV_DONTNEED) then (inl EINVAL, os)
  else if negb (all_mapped os (addr / ps) (pages_for os len)) then (inl ENOMEM, os)
  else
    let mem' x :=
      if in_pages (addr / ps) (pages_for os len) (x / ps) then
        match pg_back <$> os_pages os (x / ps) with
        | Some (FilePrivate path off) => file_byte os path (off + x mod ps)
        | _ => 0
        end
      else os_mem os x in
    (inr tt, set_vm (os_pages os) mem' (os_hint os) os).

(** Shared file pages are the file's bytes already, so a flush finds
    nothing left to write; the call still checks its range. *)
Definition sys_msync (addr len flags : Z) (os : os_state)
    : (errno + unit) * os_state :=
  let ps := os_pagesize os in
  if negb (addr mod ps =? 0) then (inl EINVAL, os)
  else if negb (all_mapped os (addr / ps) (pages_for os len)) then (inl ENOMEM, os)
  else (inr tt, os).

(** *** open, close, fstat, ftruncate *)

Definition sys_open (path : string) (flags mode : Z) (os : os_state)
    : (errno + Z) * os_state :=
  let fd := os_next_fd os in
  match os_files os !! path with
  | Some _ => (inr fd, set_fds (<[fd := (path, flags)]> (os_fds os)) (fd + 1) os)
  | None =>
      if has_flag flags O_CREAT
      then (inr fd, set_fds (<[fd := (path, flags)]> (os_fds os)) (fd + 1)
                      (set_files (<[path := []]> (os_files os)) os))
      else (inl ENOENT, os)
  end.

Definition sys_close (fd : Z) (os : os_state) : (errno + unit) * os_state :=
  match os_fds os !! fd with
  | Some _ => (inr tt, set_fds (delete fd (os_fds os)) (os_next_fd os) os)
  | None => (inl EBADF, os)
  end.

(** Only [st_size] of the [struct stat] is used by the library. *)
Definition sys_fstat (fd : Z) (os : os_state) : (errno + Z) * os_state :=
  match os_fds os !! fd with
  | Some (path, _) =>
      match os_files os !! path with
      | Some data => (inr (Z.of_nat (length data)), os)
      | None => (inl EBADF, os)
      end
  | None => (inl EBADF, os)
  end.

(** Sets the length of the file to exactly [len]: cut, or extended with
    zero bytes. *)
Definition sys_ftruncate (fd len : Z) (os : os_state) : (errno + unit) * os_state :=
  match os_fds os !! fd with
  | Some (path, oflags) =>
      if (Z.land oflags O_ACCMODE =? O_RDONLY) || (len <? 0) then (inl EINVAL, os)
      else match os_files os !! path with
           | Some data =>
               (inr tt, set_files (<[path := resize (Z.to_nat len) 0 data]> (os_files os)) os)
           | None => (inl EBADF, os)
           end
  | None => (inl EBADF, os)
  end.

(** *** Loads and stores of the program through a pointer

    [None] is a fault (SIGSEGV on a page that is not mapped or not
    accessible, SIGBUS on a shared file page wholly past the end of the
    file). *)

Definition load (os : os_state) (a : Z) : option Z :=
  let ps := os_pagesize os in
  match os_pages os (a / ps) with
  | None => None
  | Some pg =>
      if negb (has_flag (pg_prot pg) PROT_READ) then None
      else match pg_back pg with
           | FileShared path off =>
               match file_length os path with
               | Some flen =>
                   if flen <=? off then None
                   else Some (file_byte os path (off + a mod ps))
               | None => None
               end
           | _ => Some (os_mem os a)
           end
  end.

Definition store (os : os_state) (a b : Z) : option os_state :=
  let ps := os_pagesize os in
  match os_pages os (a / ps) with
  | None => None
  | Some pg =>
      if negb (has_flag (pg_prot pg) PROT_WRITE) then None
      else match pg_back pg with
           | FileShared path off =>
               match os_files os !! path with
               | Some data =>
                   if Z.of_nat (length data) <=? off then None
                   else Some (set_files
                     (<[path := <[Z.to_nat (off + a mod ps) := b mod 256]> data]>
                        (os_files os)) os)
               | None => None
               end
           | _ =>
               Some (set_vm (os_pages os)
                            (fun x => if x =? a then b mod 256 else os_mem os x)
                            (os_hint os) os)
           end
  end.

Fixpoint store_bytes (os : os_state) (a : Z) (bs : list Z) : option os_state :=
  match bs with
  | [] => Some os
  | b :: bs' =>
      match store os a b with
      | Some os' => store_bytes os' (a + 1) bs'
      | None => None
      end
  end.

(** ** Exceptions, results and the state monad of the embedding *)

Inductive exn :=
| bad_alloc                                        (* std::bad_alloc *)
| mapping_error (e : errno)                        (* LastError *)
| mapped_file_error (path : string) (e : errno)    (* LastMappedFileError *)
| bounds_violation.   (* named by the spec only, for [sync] out of range *)

(** A call returns, throws, or ends the process ([std::terminate]). *)
Inductive result (A : Type) :=
| Ok (a : A)
| Throw (e : exn)
| Terminated.
Arguments Ok {A} a.
Arguments Throw {A} e.
Arguments Terminated {A}.

Definition M (S A : Type) : Type := S -> result A * S.

Definition ret {S A} (a : A) : M S A := fun s => (Ok a, s).
Definition throw {S A} (e : exn) : M S A := fun s => (Throw e, s).
Definition bind {S A B} (m : M S A) (k : A -> M S B) : M S B :=
  fun s => match m s with
           | (Ok a, s') => k a s'
           | (Throw e, s') => (Throw e, s')
           | (Terminated, s') => (Terminated, s')
           end.

Notation "'do' x <~ m ; k" := (bind m (fun x => k))
  (at level 10, x name, m at level 100, k at level 200).
Notation "'run' m ; k" := (bind m (fun _ => k))
  (at level 10, m at level 100, k at level 200).

(** A [noexcept] function: an exception that leaves it ends the process. *)
Definition noexcept {S A} (m : M S A) : M S A :=
  fun s => match m s with
           | (Throw _, s') => (Terminated, s')
           | r => r
           end.

(** Stack unwinding: when [m] throws, [cleanup] (the destructors of what was
    already constructed) runs before the exception travels on. *)
Definition unwinding {S A} (cleanup : M S unit) (m : M S A) : M S A :=
  fun s => match m s with
           | (Throw e, s') =>
               match cleanup s' with
               | (Ok _, s'') => (Throw e, s'')
               | (_, s'') => (Terminated, s'')
               end
           | r => r
           end.

(** A system call that reports failure through its return value and
    [errno]; [err] builds the exception the wrapper throws. *)
Definition syscall {A} (err : errno -> exn) (c : os_state -> (errno + A) * os_state)
    : M os_state A :=
  fun os => match c os with
            | (inr a, os') => (Ok a, os')
            | (inl e, os') => (Throw (err e), os')
            end.

(** A system call whose failure the caller does not look at. *)
Definition syscall_ignored {A} (c : os_state -> (errno + A) * os_state)
    : M os_state unit :=
  fun os => (Ok tt, snd (c os)).

(** Inside a method: the object and the kernel state travel together. *)
Definition get_this {O} : M (O * os_state) O := fun s => (Ok (fst s), s).
Definition set_this {O} (o : O) : M (O * os_state) unit :=
  fun s => (Ok tt, (o, snd s)).
Definition on_os {O A} (m : M os_state A) : M (O * os_state) A :=
  fun s => match m (snd s) with (r, os') => (r, (fst s, os')) end.

(** [inline long pageSize()]: the value is read from the kernel once and
    never changes. *)
Definition pageSize : M os_state Z := fun os => (Ok (os_pagesize os), os).

(** ** class FileDescriptor *)

Module FileDescriptor.

Record t := Build { m_fd : Z }.

Definition ctor (path : string) (flags mode : Z) : M os_state t :=
  do fd <~ syscall (mapped_file_error path) (sys_open path flags mode);
  ret (Build fd).

Definition dtor (f : t) : M os_state unit :=
  if m_fd f =? -1 then ret tt else syscall_ignored (sys_close (m_fd f)).

Definition stat (f : t) : M os_state Z :=
  syscall mapping_error (sys_fstat (m_fd f)).

Definition size (f : t) : M os_state Z :=
  do st_size <~ stat f; ret (wrap64 st_size).

Definition truncate (f : t) (size : Z) : M os_state unit :=
  syscall mapping_error (sys_ftruncate (m_fd f) (to_off_t size)).

(** [operator int() const] *)
Definition to_int (f : t) : Z := m_fd f.

(** [FileDescriptor(FileDescriptor&& other) noexcept]: the object built, and
    [other] as the move leaves it. *)
Definition move_ctor (other : t) : t * t := (Build (m_fd other), Build (-1)).

(** [operator=(FileDescriptor&& other) noexcept], between two objects:
    [this] and [other] as the assignment leaves them. *)
Definition move_assign (this other : t) : M os_state (t * t) :=
  run (if m_fd this =? -1 then ret tt else syscall_ignored (sys_close (m_fd this)));
  ret (Build (m_fd other), Build (-1)).

End FileDescriptor.

(** ** template <int MemoryProtection> class MemoryMap

    The template argument is the first argument [prot] of the functions
    that depend on it. *)

Module MemoryMap.

Record t := Build { m_size : Z; m_address : Z; m_fixed : bool }.

Definition Writable (prot : Z) : bool := negb (Z.land prot PROT_WRITE =? 0).

Definition ctor (prot addr length flags fd offset : Z) : M os_state t :=
  do a <~ syscall mapping_error (sys_mmap addr length prot flags fd offset);
  ret (Build length a
         (negb (Z.land flags (Z.lor MAP_FIXED MAP_FIXED_NOREPLACE) =? 0))).

Definition address (m : t) : Z := m_address m.
Definition address_at (m : t) (offset : Z) : Z := m_address m + offset.
Definition size (m : t) : Z := m_size m.

Definition sync (m : t) (flags : Z) : M os_state unit :=
  syscall mapping_error (sys_msync (m_address m) (m_size m) flags).

Definition unmap (prot : Z) (m : t) : M os_state unit :=
  if m_address m =? MAP_FAILED then ret tt
  else
    run (if Writable prot then sync m (Z.lor MS_SYNC MS_INVALIDATE) else ret tt);
    if m_fixed m then
      do _a <~ syscall mapping_error
                 (sys_mmap (m_address m) (m_size m) PROT_NONE
                    (Z.lor MAP_FIXED (Z.lor MAP_PRIVATE MAP_ANONYMOUS)) (-1) 0);
      ret tt
    else syscall mapping_error (sys_munmap (m_address m) (m_size m)).

(** [~MemoryMap() { unmap(); }], implicitly [noexcept]. *)
Definition dtor (prot : Z) (m : t) : M os_state unit := noexcept (unmap prot m).

(** [MemoryMap(MemoryMap&& other) noexcept]: the object built, and [other]
    as the move leaves it. *)
Definition move_ctor (other : t) : t * t :=
  (Build (m_size other) (m_address other) (m_fixed other),
   Build (m_size other) MAP_FAILED (m_fixed other)).

(** [operator=(MemoryMap&& other) noexcept]: "DANGER: throws", and a throw
    out of a [noexcept] function ends the process. *)
Definition move_assign (prot : Z) (this other : t) : M os_state (t * t) :=
  run noexcept (unmap prot this);
  ret (Build (m_size other) (m_address other) (m_fixed other),
       Build (m_size other) MAP_FAILED (m_fixed other)).

End MemoryMap.

Definition PROT_RW : Z := Z.lor PROT_READ PROT_WRITE.

(** ** template <bool Writable> class MappedFile *)

Module MappedFile.

Record t := Build { m_file : FileDescriptor.t; m_mapped : MemoryMap.t }.

Definition MapMemoryProtection (Writable : bool) : Z :=
  if Writable then PROT_RW else PROT_READ.

Definition ctor (Writable : bool) (path : string) (mapFlags : Z) : M os_state t :=
  do file <~ FileDescriptor.ctor path (if Writable then O_RDWR else O_RDONLY) 438;
  unwinding (FileDescriptor.dtor file)
    (do sz <~ FileDescriptor.size file;
     do mapped <~ MemoryMap.ctor (MapMemoryProtection Writable) nullptr sz
                    mapFlags (FileDescriptor.m_fd file) 0;
     ret (Build file mapped)).

(** The constructor as callers use it: [int mapFlags = MAP_PRIVATE]. *)
Definition open (Writable : bool) (path : string) : M os_state t :=
  ctor Writable path MAP_PRIVATE.

Definition data (f : t) : Z := MemoryMap.address (m_mapped f).
Definition size (f : t) : Z := MemoryMap.size (m_mapped f).

(** Members are destroyed in reverse order of declaration. *)
Definition dtor (Writable : bool) (f : t) : M os_state unit :=
  run MemoryMap.dtor (MapMemoryProtection Writable) (m_mapped f);
  FileDescriptor.dtor (m_file f).

(** The move constructor and the move assignment are the implicit ones:
    member by member, in the order of declaration. *)
Definition move_ctor (other : t) : t * t :=
  let f := FileDescriptor.move_ctor (m_file other) in
  let m := MemoryMap.move_ctor (m_mapped other) in
  (Build (fst f) (fst m), Build (snd f) (snd m)).

Definition move_assign (Writable : bool) (this other : t) : M os_state (t * t) :=
  do f <~ FileDescriptor.move_assign (m_file this) (m_file other);
  do m <~ MemoryMap.move_assign (MapMemoryProtection Writable)
            (m_mapped this) (m_mapped other);
  ret (Build (fst f) (fst m), Build (snd f) (snd m)).

End MappedFile.

(** ** class ResizableMappedFile *)

Module ResizableMappedFile.

Record t := Build {
  m_reserved : MemoryMap.t;
  m_file : FileDescriptor.t;
  m_mapped : option MemoryMap.t
}.

Definition data (r : t) : Z :=
  match m_mapped r with Some m => MemoryMap.address m | None => nullptr end.
Definition size (r : t) : Z :=
  match m_mapped r with Some m => MemoryMap.size m | None => 0 end.
Definition capacity (r : t) : Z := MemoryMap.size (m_reserved r).

Definition throwIfAbove {S} (v limit : Z) : M S Z :=
  if limit <? v then throw bad_alloc else ret v.

(** [m_mapped.reset()]: destroys the held mapping, if any. *)
Definition reset_mapped : M (t * os_state) unit :=
  do r <~ get_this;
  match m_mapped r with
  | Some m =>
      run on_os (MemoryMap.dtor PROT_RW m);
      set_this (Build (m_reserved r) (m_file r) None)
  | None => ret tt
  end.

(** [m_mapped.emplace(...)]: the old value goes first; the optional stays
    empty if the constructor of the new one throws. *)
Definition map (size : Z) : M (t * os_state) unit :=
  run reset_mapped;
  do r <~ get_this;
  do m <~ on_os (MemoryMap.ctor PROT_RW (MemoryMap.address (m_reserved r)) size
                   (Z.lor MAP_FIXED MAP_SHARED)
                   (FileDescriptor.m_fd (m_file r)) 0);
  set_this (Build (m_reserved r) (m_file r) (Some m)).

Definition resize (size : Z) : M (t * os_state) unit :=
  do r <~ get_this;
  do size <~ throwIfAbove size (MemoryMap.size (m_reserved r));
  run reset_mapped;
  run on_os (FileDescriptor.truncate (m_file r) size);
  if size =? 0 then ret tt else map size.

(** Modelled from the spec: [sync(offset, length)] of the resizable file.
    The POSIX header of this snapshot has no such member; only the concept
    [resizable_mapped_file] of mappedfile.hpp requires it.  The spec:
    "sync(offset=0, length=size) issues a synchronous page flush over the
    specified sub-range; bounds-check [offset, offset+length] within
    [0, size]", failing with "OS errors; bounds violation".  The flush is
    [msync] with [MS_SYNC] over the pages that cover the sub-range. *)
Definition sync (offset length : Z) : M (t * os_state) unit :=
  do r <~ get_this;
  if size r <? offset + length then throw bounds_violation
  else
    match m_mapped r with
    | None => ret tt
    | Some m =>
        do ps <~ on_os pageSize;
        let start := offset / ps * ps in
        on_os (syscall mapping_error
                 (sys_msync (MemoryMap.address_at m start)
                    (offset + length - start) MS_SYNC))
    end.

Definition dtor (r : t) : M os_state unit :=
  run match m_mapped r with
      | Some m => MemoryMap.dtor PROT_RW m
      | None => ret tt
      end;
  run FileDescriptor.dtor (m_file r);
  MemoryMap.dtor PROT_NONE (m_reserved r).

(** Runs a constructor body on the members built so far; if it throws,
    the members are destroyed as they stand. *)
Definition construct (r0 : t) (body : M (t * os_state) unit) : M os_state t :=
  fun os => match body (r0, os) with
            | (Ok _, (r, os')) => (Ok r, os')
            | (Throw e, (r, os')) =>
                match dtor r os' with
                | (Ok _, os'') => (Throw e, os'')
                | (_, os'') => (Terminated, os'')
                end
            | (Terminated, (_, os')) => (Terminated, os')
            end.

Definition ctor (path : string) (maxSize : Z) : M os_state t :=
  do reserved <~ MemoryMap.ctor PROT_NONE nullptr maxSize
                   (Z.lor MAP_PRIVATE (Z.lor MAP_ANONYMOUS MAP_NORESERVE)) (-1) 0;
  do file <~ unwinding (MemoryMap.dtor PROT_NONE reserved)
               (FileDescriptor.ctor path (Z.lor O_CREAT O_RDWR) 438);
  construct (Build reserved file None)
    (do r <~ get_this;
     do fsize <~ on_os (FileDescriptor.size (m_file r));
     do size <~ throwIfAbove fsize (MemoryMap.size (m_reserved r));
     if size =? 0 then ret tt else map size).

(** [std::optional<MemoryMapRW>]: the move constructor leaves a moved-from
    value in an [other] that had one; the move assignment assigns, destroys
    or constructs according to which side holds a value. *)
Definition optional_move_ctor (other : option MemoryMap.t)
    : option MemoryMap.t * option MemoryMap.t :=
  match other with
  | Some m => (Some (fst (MemoryMap.move_ctor m)), Some (snd (MemoryMap.move_ctor m)))
  | None => (None, None)
  end.

Definition optional_move_assign (this other : option MemoryMap.t)
    : M os_state (option MemoryMap.t * option MemoryMap.t) :=
  match this, other with
  | Some a, Some b =>
      do p <~ MemoryMap.move_assign PROT_RW a b;
      ret (Some (fst p), Some (snd p))
  | Some a, None => run MemoryMap.dtor PROT_RW a; ret (None, None)
  | None, Some b => ret (optional_move_ctor (Some b))
  | None, None => ret (None, None)
  end.

(** [ResizableMappedFile(ResizableMappedFile&& other) noexcept = default] *)
Definition move_ctor (other : t) : t * t :=
  let res := MemoryMap.move_ctor (m_reserved other) in
  let f := FileDescriptor.move_ctor (m_file other) in
  let m := optional_move_ctor (m_mapped other) in
  (Build (fst res) (fst f) (fst m), Build (snd res) (snd f) (snd m)).

(** [operator=(ResizableMappedFile&& other) noexcept]: "Override default
    move assignment so m_reserved outlives m_mapped". *)
Definition move_assign (this other : t) : M os_state (t * t) :=
  noexcept
    (do m <~ optional_move_assign (m_mapped this) (m_mapped other);
     do f <~ FileDescriptor.move_assign (m_file this) (m_file other);
     do res <~ MemoryMap.move_assign PROT_NONE (m_reserved this) (m_reserved other);
     ret (Build (fst res) (fst f) (fst m), Build (snd res) (snd f) (snd m))).

End ResizableMappedFile.

(** ** class ResizableMappedMemory *)

Module ResizableMappedMemory.

Record t := Build {
  m_reserved : MemoryMap.t;
  m_size : Z;
  m_mappedSize : Z
}.

Definition data (r : t) : Z :=
  if m_size r =? 0 then nullptr else MemoryMap.address (m_reserved r).
Definition size (r : t) : Z := m_size r.
Definition capacity (r : t) : Z := MemoryMap.size (m_reserved r).

(** [((size + ps - 1) / ps) * ps] in [size_t] arithmetic. *)
Definition alignUp (size ps : Z) : Z :=
  wrap64 (wrap64 (wrap64 (size + ps) - 1) / ps * ps).

Definition resize (size : Z) : M (t * os_state) unit :=
  do r <~ get_this;
  if capacity r <? size then throw bad_alloc
  else
    do ps <~ on_os pageSize;
    let ps := wrap64 ps in
    let newMappedSize := alignUp size ps in
    run (if m_mappedSize r <? newMappedSize then
           on_os (syscall mapping_error
                    (sys_mprotect (MemoryMap.address_at (m_reserved r) (m_mappedSize r))
                       (newMappedSize - m_mappedSize r) PROT_RW))
         else if newMappedSize <? m_mappedSize r then
           run on_os (syscall mapping_error
                        (sys_mprotect (MemoryMap.address_at (m_reserved r) newMappedSize)
                           (m_mappedSize r - newMappedSize) PROT_NONE));
           on_os (syscall mapping_error
                    (sys_madvise (MemoryMap.address_at (m_reserved r) newMappedSize)
                       (m_mappedSize r - newMappedSize) MADV_DONTNEED))
         else ret tt);
    set_this (Build (m_reserved r) size newMappedSize).

Definition dtor (r : t) : M os_state unit :=
  MemoryMap.dtor PROT_NONE (m_reserved r).

Definition ctor (initialSize maxSize : Z) : M os_state t :=
  do reserved <~ MemoryMap.ctor PROT_NONE nullptr maxSize
                   (Z.lor MAP_PRIVATE (Z.lor MAP_ANONYMOUS MAP_NORESERVE)) (-1) 0;
  fun os => match resize initialSize (Build reserved 0 0, os) with
            | (Ok _, (r, os')) => (Ok r, os')
            | (Throw e, (r, os')) =>
                match dtor r os' with
                | (Ok _, os'') => (Throw e, os'')
                | (_, os'') => (Terminated, os'')
                end
            | (Terminated, (_, os')) => (Terminated, os')
            end.

(** [ResizableMappedMemory(ResizableMappedMemory&& other) noexcept = default]
    and [operator=(ResizableMappedMemory&& other) noexcept = default]. *)
Definition move_ctor (other : t) : t * t :=
  let res := MemoryMap.move_ctor (m_reserved other) in
  (Build (fst res) (m_size other) (m_mappedSize other),
   Build (snd res) (m_size other) (m_mappedSize other)).

Definition move_assign (this other : t) : M os_state (t * t) :=
  noexcept
    (do res <~ MemoryMap.move_assign PROT_NONE (m_reserved this) (m_reserved other);
     ret (Build (fst res) (m_size other) (m_mappedSize other),
          Build (snd res) (m_size other) (m_mappedSize other))).

End ResizableMappedMemory.

(** ** The concept [resizable_mapped_memory] of mappedfile.hpp

    [data], [size], [capacity] and [resize] are what both resizable classes
    offer; the concept is a class, the two C++ classes its instances. *)

Module concept.

Class resizable_mapped_memory (T : Type) := {
  data : T -> Z;
  size : T -> Z;
  capacity : T -> Z;
  resize : Z -> M (T * os_state) unit
}.

(** [resize] called with each size of [ns] in turn, each call returning;
    the result lists what [data()] gives after each call. *)
Fixpoint resize_each `{resizable_mapped_memory T} (ns : list Z) (s : T * os_state)
    : option (list Z * (T * os_state)) :=
  match ns with
  | [] => Some ([], s)
  | n :: ns' =>
      match resize n s with
      | (Ok _, s') =>
          match resize_each ns' s' with
          | Some (obs, s'') => Some (data (fst s') :: obs, s'')
          | None => None
          end
      | _ => None
      end
  end.

End concept.

#[export] Instance resizable_file
    : concept.resizable_mapped_memory ResizableMappedFile.t :=
  {| concept.data := ResizableMappedFile.data;
     concept.size := ResizableMappedFile.size;
     concept.capacity := ResizableMappedFile.capacity;
     concept.resize := ResizableMappedFile.resize |}.

#[export] Instance resizable_memory
    : concept.resizable_mapped_memory ResizableMappedMemory.t :=
  {| concept.data := ResizableMappedMemory.data;
     concept.size := ResizableMappedMemory.size;
     concept.capacity := ResizableMappedMemory.capacity;
     concept.resize := ResizableMappedMemory.resize |}.

(** ** What a client does with a resizable object between two observations *)

Inductive client_op :=
| Resize (n : Z)         (* [r.resize(n)], whatever its outcome short of abort *)
| Write (k b : Z).       (* [static_cast<uint8_t* >(r.data())[k] = b], k < size() *)

Definition is_size_t (n : Z) : bool := (0 <=? n) && (n <? SIZE_WIDTH).

Definition client_step `{concept.resizable_mapped_memory T} (o : client_op)
    (s : T * os_state) : option (T * os_state) :=
  match o with
  | Resize n =>
      if is_size_t n then
        match concept.resize n s with
        | (Terminated, _) => None
        | (_, s') => Some s'
        end
      else None
  | Write k b =>
      if (0 <=? k) && (k <? concept.size (fst s)) then
        (fun os' => (fst s, os')) <$> store (snd s) (concept.data (fst s) + k) b
      else None
  end.

Fixpoint client_run `{concept.resizable_mapped_memory T} (ops : list client_op)
    (s : T * os_state) : option (T * os_state) :=
  match ops with
  | [] => Some s
  | o :: ops' =>
      match client_step o s with
      | Some s' => client_run ops' s'
      | None => None
      end
  end.

(** ** Well-formed kernel states and page arithmetic *)

(** The page size is positive, and the kernel places mappings on page
    boundaries and never at address 0. *)
Definition os_wf (os : os_state) : Prop :=
  0 < os_pagesize os /\ 0 < os_hint os /\ os_hint os mod os_pagesize os = 0.

(** The address space has room for a new mapping of [len] bytes. *)
Definition os_room (os : os_state) (len : Z) : Prop :=
  os_hint os + pages_for os len * os_pagesize os <= SIZE_WIDTH.

(** [ceil(n / ps) * ps], in the integers. *)
Definition round_up (ps n : Z) : Z := (n + ps - 1) / ps * ps.

(** ** Flag words the library passes to the kernel *)

Definition RESERVE_FLAGS : Z := Z.lor MAP_PRIVATE (Z.lor MAP_ANONYMOUS MAP_NORESERVE).
Definition OPEN_FLAGS : Z := Z.lor O_CREAT O_RDWR.
Definition MAP_FLAGS : Z := Z.lor MAP_FIXED MAP_SHARED.

Module RM := ResizableMappedMemory.
Module RMF := ResizableMappedFile.

(** File lengths are [off_t] values. *)
Definition files_off_t (os : os_state) : Prop :=
  map_Forall (fun _ data => Z.of_nat (length data) < 2 ^ 63) (os_files os).

(** ** Representation invariants *)

Definition RM_base (r : RM.t) : Z := MemoryMap.m_address (RM.m_reserved r).

(** A [ResizableMappedMemory] and the address space agree: the reservation
    is one run of anonymous pages, readable and writable below
    [m_mappedSize] and inaccessible above. *)
Record RM_inv (os : os_state) (r : RM.t) : Prop := {
  rmi_ps : 0 < os_pagesize os;
  rmi_base_pos : 0 < RM_base r;
  rmi_base_al : RM_base r mod os_pagesize os = 0;
  rmi_cap : 0 < RM.capacity r;
  rmi_room : RM_base r + pages_for os (RM.capacity r) * os_pagesize os <= SIZE_WIDTH;
  rmi_size : 0 <= RM.m_size r <= RM.capacity r;
  rmi_mapped : RM.m_mappedSize r = round_up (os_pagesize os) (RM.m_size r);
  rmi_pages : forall p,
      RM_base r / os_pagesize os <= p
        < RM_base r / os_pagesize os + pages_for os (RM.capacity r) ->
      os_pages os p =
        Some (Page (if p <? RM_base r / os_pagesize os
                              + RM.m_mappedSize r / os_pagesize os
                    then PROT_RW else PROT_NONE) Anon)
}.

(** What a [resize] of anonymous memory leaves alone. *)
Record RM_frame (os os' : os_state) (r r' : RM.t) : Prop := {
  rmf_ps : os_pagesize os' = os_pagesize os;
  rmf_files : os_files os' = os_files os;
  rmf_fds : os_fds os' = os_fds os;
  rmf_mem : forall a,
      a / os_pagesize os < RM_base r / os_pagesize os
                           + Z.min (RM.m_mappedSize r) (RM.m_mappedSize r') / os_pagesize os ->
      os_mem os' a = os_mem os a;
  rmf_same : RM.m_mappedSize r' = RM.m_mappedSize r -> os' = os
}.

(** What a call on the address space leaves alone. *)
Record vm_only (os os' : os_state) : Prop := {
  vo_ps : os_pagesize os' = os_pagesize os;
  vo_files : os_files os' = os_files os;
  vo_fds : os_fds os' = os_fds os;
  vo_next : os_next_fd os' = os_next_fd os
}.

Definition RMF_base (r : RMF.t) : Z := MemoryMap.m_address (RMF.m_reserved r).

(** The mapping of a [ResizableMappedFile], when it has one: it starts at
    the base of the reservation, is as long as the file, and its pages are
    the file's, shared and writable. *)
Definition RMF_mapped_ok (os : os_state) (r : RMF.t) (path : string) : Prop :=
  match RMF.m_mapped r with
  | None => True
  | Some m =>
      m = MemoryMap.Build (MemoryMap.m_size m) (RMF_base r) true
      /\ 0 < MemoryMap.m_size m <= RMF.capacity r
      /\ file_length os path = Some (MemoryMap.m_size m)
      /\ forall p,
          RMF_base r / os_pagesize os <= p
            < RMF_base r / os_pagesize os + pages_for os (MemoryMap.m_size m) ->
          os_pages os p =
            Some (Page PROT_RW
                    (FileShared path ((p - RMF_base r / os_pagesize os)
                                      * os_pagesize os)))
  end.

Record RMF_inv (os : os_state) (r : RMF.t) : Prop := {
  rfi_ps : 0 < os_pagesize os;
  rfi_base_al : RMF_base r mod os_pagesize os = 0;
  rfi_cap : 0 < RMF.capacity r;
  rfi_room : RMF_base r + pages_for os (RMF.capacity r) * os_pagesize os <= SIZE_WIDTH;
  rfi_resv : forall p,
      RMF_base r / os_pagesize os <= p
        < RMF_base r / os_pagesize os + pages_for os (RMF.capacity r) ->
      is_Some (os_pages os p);
  rfi_file : exists path fl,
      os_fds os !! FileDescriptor.m_fd (RMF.m_file r) = Some (path, fl)
      /\ Z.land fl O_ACCMODE = O_RDWR
      /\ is_Some (os_files os !! path)
      /\ RMF_mapped_ok os r path
}.

(** Every page of [a, a + len) belongs to a private file mapping. *)
Definition private_range (os : os_state) (a len : Z) : Prop :=
  forall x, a <= x < a + len ->
    exists pg path off,
      os_pages os (x / os_pagesize os) = Some pg
      /\ pg_back pg = FilePrivate path off.

(** ** The commitment of a [ResizableMappedMemory] after [resize(n)]

    [size()] is [n]; the committed length is [n] rounded up to pages, lies
    between [n] and the capacity rounded up to pages, and is a multiple of
    the page size; and the bytes of the reservation the program can touch
    are exactly those below the committed length. *)
Definition RM_commitment (os : os_state) (r : RM.t) (n : Z) : Prop :=
  let ps := os_pagesize os in
  RM.size r = n
  /\ RM.m_mappedSize r = round_up ps n
  /\ n <= RM.m_mappedSize r <= round_up ps (RM.capacity r)
  /\ RM.m_mappedSize r mod ps = 0
  /\ (RM.capacity r mod ps = 0 -> RM.m_mappedSize r <= RM.capacity r)
  /\ forall j, 0 <= j < round_up ps (RM.capacity r) ->
       (is_Some (load os (RM_base r + j)) <-> j < RM.m_mappedSize r).

(** ** What every call leaves of the kernel state

    [keeps R m]: whatever [m] does and however it ends, the kernel state
    after it is related by [R] to the one before; [keeps_on] is the same
    for a method, which carries its object along. *)
Definition keeps (R : os_state -> os_state -> Prop) {A} (m : M os_state A) : Prop :=
  forall os res os', m os = (res, os') -> R os os'.
Definition keeps_on (R : os_state -> os_state -> Prop) {O A}
    (m : M (O * os_state) A) : Prop :=
  forall s res s', m s = (res, s') -> R (snd s) (snd s').

(** No call on a mapping or on an open descriptor changes the page size,
    opens or closes a descriptor, or moves the kernel's next address down or
    off the page grid. *)
Record os_after (os os' : os_state) : Prop := {
  oa_ps : os_pagesize os' = os_pagesize os;
  oa_fds : os_fds os' = os_fds os;
  oa_next : os_next_fd os' = os_next_fd os;
  oa_hint : os_hint os <= os_hint os';
  oa_al : os_hint os mod os_pagesize os = 0 -> os_hint os' mod os_pagesize os' = 0
}.

(** A kernel state as a process finds it: besides [os_wf], pages have at
    least two bytes, descriptor numbers are not negative, and every file
    has a length that [off_t] holds. *)
Definition os_sane (os : os_state) : Prop :=
  os_wf os /\ 1 < os_pagesize os /\ 0 <= os_next_fd os /\ files_off_t os.

(** The descriptor of a [ResizableMappedFile] is the file at [path], opened
    as the constructor opens it. *)
Definition RMF_path (os : os_state) (r : RMF.t) (path : string) : Prop :=
  os_fds os !! FileDescriptor.m_fd (RMF.m_file r) = Some (path, OPEN_FLAGS).

(** [size()] is the length of the file, and every file fits [off_t]. *)
Definition RMF_sized (os : os_state) (r : RMF.t) (path : string) : Prop :=
  file_length os path = Some (RMF.size r) /\ files_off_t os.

(** The kernel hands out addresses upwards: a reservation of [cap] bytes at
    [base] lies below the address the next mapping gets. *)
Definition below_hint (os : os_state) (base cap : Z) : Prop :=
  base + pages_for os cap * os_pagesize os <= os_hint os.

(** The state a whole-file mapping of the [len] bytes of [path] leaves:
    the descriptor is open with [oflags], and the pages at the address the
    kernel chose are backed by [bk]. *)
Definition MappedFile_state (os : os_state) (path : string) (oflags prot : Z)
    (bk : backing) (len : Z) : os_state :=
  mmap_install (os_hint os) (pages_for os len) prot bk
    (set_fds (<[os_next_fd os := (path, oflags)]> (os_fds os)) (os_next_fd os + 1) os).

(** The whole reservation of [cap] bytes at [base] is gone from [os'],
    and every other page is as in [os]. *)
Definition released (os os' : os_state) (base cap : Z) : Prop :=
  forall p, os_pages os' p =
            if in_pages (base / os_pagesize os) (pages_for os cap) p
            then None else os_pages os p.

(** Above the committed length the bytes of a [ResizableMappedMemory]'s
    reservation are all zero. *)
Definition RM_tail_zero (os : os_state) (r : RM.t) : Prop :=
  forall j, RM.m_mappedSize r <= j < round_up (os_pagesize os) (RM.capacity r) ->
            os_mem os (RM_base r + j) = 0.

(** ** Assignment from a temporary

    [file = resizable_file(path, maxSize);] and
    [memory = resizable_memory(initialSize, maxSize);] as the tests write
    them: the temporary is constructed while the old object lives, the
    move assignment takes it over, and the moved-from temporary is
    destroyed at the end of the statement.  The result is the object
    assigned to as the statement leaves it. *)
Definition assign_file (this : RMF.t) (path : string) (maxSize : Z)
    : M os_state RMF.t :=
  do tmp <~ RMF.ctor path maxSize;
  do p <~ RMF.move_assign this tmp;
  run RMF.dtor (snd p);
  ret (fst p).

Definition assign_memory (this : RM.t) (initialSize maxSize : Z)
    : M os_state RM.t :=
  do tmp <~ RM.ctor initialSize maxSize;
  do p <~ RM.move_assign this tmp;
  run RM.dtor (snd p);
  ret (fst p).

(** ** Scenarios with literal values *)

Definition os_boot (ps hint : Z) (files : gmap string (list Z)) : os_state :=
  OsState ps files ∅ 3 (fun _ => None) (fun _ => 0) hint.

Definition le32 (v : Z) : list Z :=
  [v mod 256; v / 256 mod 256; v / 65536 mod 256; v / 16777216 mod 256].

Definition decode_le (bs : list Z) : Z := foldr (fun b acc => b + 256 * acc) 0 bs.

(** A machine with 4 KiB pages whose only file holds the little-endian
    integer 42 (the fixture of the test-suite), and one that also has an
    empty file. *)
Definition os_demo : os_state :=
  os_boot 4096 4096000 {[ "test.dat"%string := le32 42 ]}.

Definition os_demo_empty : os_state :=
  os_boot 4096 4096000 {[ "test.dat"%string := le32 42; "empty.dat"%string := [] ]}.

(** Construct a resizable file, resize it through [ns], and report
    [data()] before the first call and after each. *)
Definition observe_file (path : string) (cap : Z) (ns : list Z) (os : os_state)
    : option (Z * list Z) :=
  match RMF.ctor path cap os with
  | (Ok r, os1) =>
      match concept.resize_each ns (r, os1) with
      | Some (obs, _) => Some (RMF.data r, obs)
      | None => None
      end
  | _ => None
  end.

(** Open [path] for writing through the whole-file mapping, store [bs] at
    [data()], drop the mapping, and read the file again. *)
Definition write_through_mapping (os : os_state) (path : string) (bs : list Z)
    : option (list Z) :=
  match MappedFile.open true path os with
  | (Ok f, os1) =>
      match store_bytes os1 (MappedFile.data f) bs with
      | Some os2 =>
          match MappedFile.dtor true f os2 with
          | (Ok _, os3) => os_files os3 !! path
          | _ => None
          end
      | None => None
      end
  | _ => None
  end.

(** The same with the mapping flags given, as the [LinuxCreate] test does
    with [MAP_SHARED]. *)
Definition write_through_mapping_with (flags : Z) (os : os_state) (path : string)
    (bs : list Z) : option (list Z) :=
  match MappedFile.ctor true path flags os with
  | (Ok f, os1) =>
      match store_bytes os1 (MappedFile.data f) bs with
      | Some os2 =>
          match MappedFile.dtor true f os2 with
          | (Ok _, os3) => os_files os3 !! path
          | _ => None
          end
      | None => None
      end
  | _ => None
  end.

(** The end-to-end scenarios of the specification, on the model.  Each
    returns what the scenario observes. *)
Definition hello : list Z :=
  [104; 101; 108; 108; 111; 32; 119; 111; 114; 108; 100; 33; 0].
Definition EOF_bytes : list Z := [69; 79; 70].

Definition write_at (k : Z) (bs : list Z) : list client_op :=
  imap (fun i b => Write (k + Z.of_nat i) b) bs.

Definition read_back `{concept.resizable_mapped_memory T} (s : T * os_state)
    (offsets : list Z) : option (list Z) :=
  mapM (fun i => load (snd s) (concept.data (fst s) + i)) offsets.

(** S1: size and bytes of the read-only mapping of the fixture file. *)
Definition scenario_S1 : option (Z * option (list Z)) :=
  match MappedFile.open false "test.dat" os_demo with
  | (Ok f, os1) =>
      Some (MappedFile.size f, mapM (load os1) (seqZ (MappedFile.data f) 4))
  | _ => None
  end.

(** S3: [data()], [size()] and the first 13 bytes after each of the three
    resizes; the length of the file after the drop; [size()] and the last
    three bytes after reopening with capacity 8192. *)
Definition scenario_S3
    : option (list (Z * Z * option (list Z)) * option Z * (Z * option (list Z))) :=
  match RMF.ctor "t" 4096 os_demo with
  | (Ok r0, os0) =>
      s1 ← client_run (Resize 13 :: write_at 0 hello) (r0, os0);
      s2 ← client_run [Resize 1500] s1;
      s3 ← client_run (Resize 4096 :: write_at 4093 EOF_bytes) s2;
      let obs s := (RMF.data (fst s), RMF.size (fst s), read_back s (seqZ 0 13)) in
      match RMF.dtor (fst s3) (snd s3) with
      | (Ok _, os4) =>
          match RMF.ctor "t" 8192 os4 with
          | (Ok r5, os5) =>
              Some ([obs s1; obs s2; obs s3], file_length os4 "t",
                    (RMF.size r5, read_back (r5, os5) (seqZ 4093 3)))
          | _ => None
          end
      | _ => None
      end
  | _ => None
  end.

(** S4: the outcomes of [resize(1501)] and [resize(1000)] at capacity 1500,
    and of constructing with capacity 1499 on the file grown to 1500. *)
Definition scenario_S4 : option (result unit * result unit * result RMF.t) :=
  match RMF.ctor "t2" 1500 os_demo with
  | (Ok r0, os0) =>
      let a := RMF.resize 1501 (r0, os0) in
      let b := RMF.resize 1000 (snd a) in
      let c := RMF.resize 1500 (snd b) in
      match RMF.dtor (fst (snd c)) (snd (snd c)) with
      | (Ok _, os4) => Some (fst a, fst b, fst (RMF.ctor "t2" 1499 os4))
      | _ => None
      end
  | _ => None
  end.

(** S5, up to 2^14 bytes: grow by doubling, marking the last byte of each
    size; then shrink to 8192 and to 2 bytes, reading the marks back. *)
Fixpoint grow (n : nat) (size b : Z) : list client_op :=
  match n with
  | O => []
  | S n' =>
      Resize (2 * size) :: Write (2 * size - 1) (b + 1) :: grow n' (2 * size) (b + 1)
  end.

Definition scenario_S5
    : option (Z * list Z * option (list Z) * option (list Z) * option (list Z)) :=
  match RM.ctor 1 (2 ^ 32) os_demo with
  | (Ok r0, os0) =>
      s1 ← client_run (Write 0 1 :: grow 14 1 1) (r0, os0);
      s2 ← client_run [Resize 8192] s1;
      s3 ← client_run [Resize 2] s2;
      Some (RM.data r0, [RM.data (fst s1); RM.data (fst s2); RM.data (fst s3)],
            read_back s1 [0; 1; 3; 7; 15; 31; 8191; 16383],
            read_back s2 [0; 1; 3; 7; 15; 31; 8191],
            read_back s3 [0; 1])
  | _ => None
  end.

(** Tests on outcomes, for running the scenarios. *)
Definition is_Ok {A} (x : result A) : bool :=
  match x with Ok _ => true | _ => false end.
Definition is_some {A} (o : option A) : bool :=
  match o with Some _ => true | None => false end.

(** States of the scenarios: a resizable memory of capacity 10000 and a
    resizable file of capacity 1500, each constructed, then resized and
    written to, then resized once more. *)
Definition demo_ops : list client_op :=
  [Resize 13; Write 0 104; Write 12 33; Resize 10001; Resize 5000; Write 4999 7].

Definition demo_mem_r0 : RM.t :=
  RM.Build (MemoryMap.Build 10000 4096000 false) 1 4096.
Abbreviation demo_mem_os1 := (snd (RM.ctor 1 10000 os_demo)).
Abbreviation demo_mem :=
  (default (demo_mem_r0, demo_mem_os1)
           (client_run demo_ops (demo_mem_r0, demo_mem_os1))).
Abbreviation demo_mem_step := (RM.resize 100 (fst demo_mem, snd demo_mem)).

Definition demo_file_ops : list client_op :=
  [Resize 13; Write 0 104; Write 12 33; Resize 1501; Resize 1500; Write 1499 70].

Definition demo_file_r0 : RMF.t :=
  RMF.Build (MemoryMap.Build 1500 4096000 false) (FileDescriptor.Build 3) None.
Abbreviation demo_file_os1 := (snd (RMF.ctor "t2" 1500 os_demo)).
Abbreviation demo_file :=
  (default (demo_file_r0, demo_file_os1)
           (client_run demo_file_ops (demo_file_r0, demo_file_os1))).
Abbreviation demo_file_step := (RMF.resize 13 (fst demo_file, snd demo_file)).

(** The temporaries of the assignments [file = resizable_file("t2", 1500)]
    and [memory = resizable_memory(7, 1500)] made in those states. *)
Definition demo_file_tmp : RMF.t :=
  RMF.Build (MemoryMap.Build 1500 4100096 false) (FileDescriptor.Build 4)
    (Some (MemoryMap.Build 1500 4100096 true)).
Abbreviation demo_file_os2 := (snd (RMF.ctor "t2" 1500 (snd demo_file))).

Definition demo_mem_tmp : RM.t :=
  RM.Build (MemoryMap.Build 1500 4108288 false) 7 4096.
Abbreviation demo_mem_os2 := (snd (RM.ctor 7 1500 (snd demo_mem))).

(** ** Proof steps *)

(** Unfolds the monad so that the calls of a method stand in a row. *)
Ltac msimpl :=
  cbv beta iota zeta delta
    [fst snd bind ret throw get_this set_this on_os syscall syscall_ignored
     noexcept unwinding].

(** Closes the frame lemma of a system call. *)
Ltac syscall_frame :=
  intros; repeat case_match; simplify_eq; constructor; reflexivity.

(** * Lemmas *)

(** ** Arithmetic of sizes and pages *)

Lemma wrap64_small x : 0 <= x < SIZE_WIDTH -> wrap64 x = x.
Proof. intros. unfold wrap64. apply Z.mod_small. lia. Qed.

Lemma SIZE_WIDTH_pos : 0 < SIZE_WIDTH.
Proof. reflexivity. Qed.

Lemma round_up_mul ps n : round_up ps n = ps * ((n + ps - 1) / ps).
Proof. unfold round_up. lia. Qed.

Lemma round_up_bounds ps n : 0 < ps -> n <= round_up ps n < n + ps.
Proof.
  intros Hps. rewrite round_up_mul.
  pose proof (Z.mul_div_le (n + ps - 1) ps Hps).
  pose proof (Z.mul_succ_div_gt (n + ps - 1) ps Hps). lia.
Qed.

Lemma round_up_mod ps n : 0 < ps -> round_up ps n mod ps = 0.
Proof. intros. unfold round_up. apply Z.mod_mul. lia. Qed.

Lemma round_up_div ps n : 0 < ps -> round_up ps n / ps = (n + ps - 1) / ps.
Proof. intros. unfold round_up. apply Z.div_mul. lia. Qed.

Lemma round_up_mono ps n m : 0 < ps -> n <= m -> round_up ps n <= round_up ps m.
Proof.
  intros Hps Hnm. unfold round_up.
  apply Z.mul_le_mono_nonneg_r; [lia|]. apply Z.div_le_mono; lia.
Qed.

Lemma round_up_nonneg ps n : 0 < ps -> 0 <= n -> 0 <= round_up ps n.
Proof. intros. pose proof (round_up_bounds ps n). lia. Qed.

Lemma alignUp_round_up size ps :
  0 < ps -> 0 <= size -> size + ps - 1 < SIZE_WIDTH ->
  RM.alignUp size ps = round_up ps size.
Proof.
  intros Hps Hsz Hlt. unfold RM.alignUp, wrap64.
  rewrite Zminus_mod_idemp_l.
  rewrite (Z.mod_small (size + ps - 1)) by lia.
  fold (round_up ps size).
  pose proof (round_up_bounds ps size Hps).
  apply Z.mod_small.
  split; [apply round_up_nonneg; lia|].
  unfold round_up. pose proof (Z.mul_div_le (size + ps - 1) ps Hps). lia.
Qed.

Lemma pages_for_round_up os len :
  0 < os_pagesize os ->
  pages_for os len * os_pagesize os = round_up (os_pagesize os) len.
Proof. reflexivity. Qed.

Lemma pages_for_exact os k :
  0 < os_pagesize os -> pages_for os (os_pagesize os * k) = k.
Proof.
  intros Hps. unfold pages_for.
  replace (os_pagesize os * k + os_pagesize os - 1)
    with (k * os_pagesize os + (os_pagesize os - 1)) by lia.
  rewrite Z.div_add_l by lia. rewrite Z.div_small by lia. lia.
Qed.

Lemma div_aligned_add ps base x :
  0 < ps -> base mod ps = 0 -> (base + x) / ps = base / ps + x / ps.
Proof.
  intros Hps Hal.
  rewrite (Z.div_mod base ps) at 1 by lia. rewrite Hal, Z.add_0_r.
  rewrite (Z.mul_comm ps). apply Z.div_add_l. lia.
Qed.

Lemma mod_aligned_add ps base x :
  0 < ps -> base mod ps = 0 -> x mod ps = 0 -> (base + x) mod ps = 0.
Proof.
  intros Hps Hb Hx. rewrite Z.add_mod by lia. rewrite Hb, Hx. apply Z.mod_0_l. lia.
Qed.

Lemma all_mapped_intro os first n :
  (forall p, first <= p < first + n -> is_Some (os_pages os p)) ->
  all_mapped os first n = true.
Proof.
  intros H. unfold all_mapped. apply forallb_forall. intros p Hp.
  apply list_elem_of_In, elem_of_seqZ in Hp.
  destruct (H p Hp) as [pg ->]. reflexivity.
Qed.

Lemma all_mapped_elim os first n p :
  all_mapped os first n = true -> first <= p < first + n -> is_Some (os_pages os p).
Proof.
  unfold all_mapped. rewrite forallb_forall. intros H Hp.
  specialize (H p). rewrite <- list_elem_of_In, elem_of_seqZ in H.
  specialize (H Hp). destruct (os_pages os p); [eauto | discriminate].
Qed.

Lemma in_pages_true first n p : in_pages first n p = true <-> first <= p < first + n.
Proof. unfold in_pages. rewrite andb_true_iff, Z.leb_le, Z.ltb_lt. tauto. Qed.

Lemma in_pages_false first n p : in_pages first n p = false <-> ~ (first <= p < first + n).
Proof. rewrite <- in_pages_true. destruct (in_pages first n p); split; congruence. Qed.

Lemma mprotect_run os addr len prot :
  0 < os_pagesize os -> addr mod os_pagesize os = 0 ->
  (forall p, addr / os_pagesize os <= p < addr / os_pagesize os + pages_for os len ->
             is_Some (os_pages os p)) ->
  sys_mprotect addr len prot os =
    (inr tt,
     set_vm (fun p => if in_pages (addr / os_pagesize os) (pages_for os len) p
                      then (fun pg => Page prot (pg_back pg)) <$> os_pages os p
                      else os_pages os p)
            (os_mem os) (os_hint os) os).
Proof.
  intros Hps Hal Hmapped. unfold sys_mprotect.
  rewrite Hal. simpl. rewrite all_mapped_intro by assumption. reflexivity.
Qed.

Lemma madvise_run os addr len :
  0 < os_pagesize os -> addr mod os_pagesize os = 0 ->
  (forall p, addr / os_pagesize os <= p < addr / os_pagesize os + pages_for os len ->
             is_Some (os_pages os p)) ->
  sys_madvise addr len MADV_DONTNEED os =
    (inr tt,
     set_vm (os_pages os)
       (fun x => if in_pages (addr / os_pagesize os) (pages_for os len) (x / os_pagesize os)
                 then match pg_back <$> os_pages os (x / os_pagesize os) with
                      | Some (FilePrivate path off) =>
                          file_byte os path (off + x mod os_pagesize os)
                      | _ => 0
                      end
                 else os_mem os x)
       (os_hint os) os).
Proof.
  intros Hps Hal Hmapped. unfold sys_madvise.
  rewrite Hal. simpl. rewrite all_mapped_intro by assumption. reflexivity.
Qed.

Lemma aligned_pos_ge ps a : 0 < ps -> 0 < a -> a mod ps = 0 -> ps <= a.
Proof.
  intros Hps Ha Hal. apply Z.mod_divide in Hal; [|lia]. destruct Hal as [k Hk].
  subst a. assert (1 <= k) by nia. nia.
Qed.

Lemma RM_inv_ps_small os r : RM_inv os r -> os_pagesize os < SIZE_WIDTH.
Proof.
  intros [Hps Hb Hal Hcap Hroom _ _ _].
  assert (os_pagesize os <= RM_base r) by (apply aligned_pos_ge; assumption).
  rewrite pages_for_round_up in Hroom by lia.
  pose proof (round_up_bounds (os_pagesize os) (RM.capacity r) Hps). lia.
Qed.

Lemma RM_inv_no_wrap os r n :
  RM_inv os r -> n <= RM.capacity r -> n + os_pagesize os - 1 < SIZE_WIDTH.
Proof.
  intros [Hps Hb Hal Hcap Hroom _ _ _] Hn.
  assert (os_pagesize os <= RM_base r) by (apply aligned_pos_ge; assumption).
  rewrite pages_for_round_up in Hroom by lia.
  pose proof (round_up_bounds (os_pagesize os) (RM.capacity r) Hps). lia.
Qed.

Lemma setvm_pagesize pg mem h os : os_pagesize (set_vm pg mem h os) = os_pagesize os.
Proof. reflexivity. Qed.

Lemma RM_inv_resized os os' r n :
  RM_inv os r -> os_pagesize os' = os_pagesize os -> 0 <= n <= RM.capacity r ->
  (forall p,
      RM_base r / os_pagesize os <= p
        < RM_base r / os_pagesize os + pages_for os (RM.capacity r) ->
      os_pages os' p =
        Some (Page (if p <? RM_base r / os_pagesize os
                              + round_up (os_pagesize os) n / os_pagesize os
                    then PROT_RW else PROT_NONE) Anon)) ->
  RM_inv os' (RM.Build (RM.m_reserved r) n (round_up (os_pagesize os) n)).
Proof.
  intros [Hps Hb Hal Hcap Hroom Hsz Hmapped Hpages] Heq Hn Hpg.
  constructor; unfold RM_base, RM.capacity, pages_for in *; simpl; rewrite ?Heq;
    try assumption.
  reflexivity.
Qed.

Lemma RM_resize_run os r n :
  RM_inv os r -> 0 <= n <= RM.capacity r ->
  exists os',
    RM.resize n (r, os)
      = (Ok tt, (RM.Build (RM.m_reserved r) n (round_up (os_pagesize os) n), os'))
    /\ RM_inv os' (RM.Build (RM.m_reserved r) n (round_up (os_pagesize os) n))
    /\ RM_frame os os' r (RM.Build (RM.m_reserved r) n (round_up (os_pagesize os) n)).
Proof.
  intros Hinv Hn.
  pose proof (RM_inv_ps_small _ _ Hinv) as Hsmall.
  pose proof (RM_inv_no_wrap _ _ n Hinv ltac:(lia)) as Hnowrap.
  pose proof (RM_inv_resized os) as Hintro.
  specialize (fun os' => Hintro os' r n Hinv).
  destruct Hinv as [Hps Hb Hal Hcap Hroom Hsz Hmapped Hpages].
  set (ps := os_pagesize os) in *.
  set (mNew := round_up ps n) in *.
  set (mOld := RM.m_mappedSize r) in *.
  set (b := RM_base r / ps) in *.
  set (c := pages_for os (RM.capacity r)) in *.
  assert (HmNew : mNew = ps * (mNew / ps)).
  { apply Z_div_exact_full_2; [lia|]. apply round_up_mod; lia. }
  assert (HmOld : mOld = ps * (mOld / ps)).
  { apply Z_div_exact_full_2; [lia|]. rewrite Hmapped. apply round_up_mod; lia. }
  assert (Hq : 0 <= mNew / ps <= c).
  { unfold mNew. rewrite round_up_div by lia. unfold c, pages_for. fold ps. split.
    - apply Z.div_pos; lia.
    - apply Z.div_le_mono; lia. }
  assert (Ho : 0 <= mOld / ps <= c).
  { rewrite Hmapped. rewrite round_up_div by lia. unfold c, pages_for. fold ps. split.
    - apply Z.div_pos; lia.
    - apply Z.div_le_mono; lia. }
  set (q := mNew / ps) in *. set (o := mOld / ps) in *.
  assert (Hfirst : forall x, x mod ps = 0 -> (RM_base r + x) / ps = b + x / ps).
  { intros. apply div_aligned_add; [lia|assumption]. }
  assert (Halx : forall x, x mod ps = 0 -> (RM_base r + x) mod ps = 0).
  { intros. apply mod_aligned_add; [lia|assumption|assumption]. }
  assert (HmodNew : mNew mod ps = 0) by (apply round_up_mod; lia).
  assert (HmodOld : mOld mod ps = 0) by (rewrite Hmapped; apply round_up_mod; lia).
  unfold RM.resize, pageSize. msimpl.
  destruct (Z.ltb_spec (RM.capacity r) n) as [?|_]; [lia|].
  fold ps. rewrite (wrap64_small ps) by lia.
  rewrite alignUp_round_up by lia. fold mNew mOld.
  unfold MemoryMap.address_at. fold (RM_base r).
  destruct (Z.ltb_spec mOld mNew) as [Hgrow|Hle].
  - (* grow: add just the new range *)
    assert (Hoq : o < q) by nia.
    assert (Hlen : pages_for os (mNew - mOld) = q - o).
    { replace (mNew - mOld) with (os_pagesize os * (q - o)) by (fold ps; lia).
      apply pages_for_exact. assumption. }
    rewrite (mprotect_run os (RM_base r + mOld) (mNew - mOld) PROT_RW); fold ps;
      rewrite ?Hfirst, ?Hlen by assumption; fold o; auto.
    2:{ intros p Hp. rewrite Hpages by lia. eauto. }
    eexists. split; [reflexivity|]. split.
    + apply Hintro; [reflexivity|lia|]. intros p Hp. cbn [os_pages set_vm].
      fold q. rewrite (Hpages p Hp).
      destruct (in_pages (b + o) (q - o) p) eqn:Hin.
      * apply in_pages_true in Hin. cbn.
        destruct (Z.ltb_spec p (b + q)); [reflexivity|lia].
      * apply in_pages_false in Hin.
        destruct (Z.ltb_spec p (b + o)); destruct (Z.ltb_spec p (b + q));
          try reflexivity; lia.
    + constructor; cbn; try reflexivity. fold mNew mOld. lia.
  - destruct (Z.ltb_spec mNew mOld) as [Hshrink|Hge].
    + (* shrink: protect and release the tail *)
      assert (Hqo : q < o) by nia.
      assert (Hlen : pages_for os (mOld - mNew) = o - q).
      { replace (mOld - mNew) with (os_pagesize os * (o - q)) by (fold ps; lia).
        apply pages_for_exact. assumption. }
      rewrite (mprotect_run os (RM_base r + mNew) (mOld - mNew) PROT_NONE); fold ps;
        rewrite ?Hfirst, ?Hlen by assumption; fold q; auto.
      2:{ intros p Hp. rewrite Hpages by lia. eauto. }
      match goal with
      | |- context [sys_madvise _ _ _ ?os1] => set (os1' := os1)
      end.
      assert (Hlen' : pages_for os1' (mOld - mNew) = o - q) by exact Hlen.
      rewrite (madvise_run os1'); cbn [os_pagesize os1' set_vm]; fold ps;
        rewrite ?Hfirst, ?Hlen' by assumption; fold q; auto.
      2:{ intros p Hp. cbn [os_pages os1' set_vm].
          destruct (in_pages (b + q) (o - q) p); rewrite Hpages by lia; cbn; eauto. }
      eexists. split; [reflexivity|]. split.
      * apply Hintro; [reflexivity|lia|]. intros p Hp. cbn [os_pages os1' set_vm].
        fold q. rewrite (Hpages p Hp).
        destruct (in_pages (b + q) (o - q) p) eqn:Hin.
        -- apply in_pages_true in Hin. cbn.
           destruct (Z.ltb_spec p (b + q)); [lia|reflexivity].
        -- apply in_pages_false in Hin.
           destruct (Z.ltb_spec p (b + o)); destruct (Z.ltb_spec p (b + q));
             try reflexivity; lia.
      * constructor; cbn [os_pagesize os_files os_fds os_mem os1' set_vm RM.m_mappedSize];
          try reflexivity.
        -- intros a Ha. fold ps in Ha. fold b mOld mNew in Ha.
           rewrite Z.min_r in Ha by lia. fold q in Ha. fold ps.
           destruct (in_pages (b + q) (o - q) (a / ps)) eqn:Hin; [|reflexivity].
           apply in_pages_true in Hin. lia.
        -- fold mNew mOld. lia.
    + (* same number of pages: only the size changes *)
      eexists. split; [reflexivity|]. split.
      * apply Hintro; [reflexivity|lia|]. intros p Hp.
        rewrite (Hpages p Hp). fold q. replace q with o; [reflexivity|].
        unfold q, o. f_equal. lia.
      * constructor; cbn; reflexivity.
Qed.

Lemma reserve_run os cap :
  sys_mmap nullptr cap PROT_NONE RESERVE_FLAGS (-1) 0 os =
    if cap <=? 0 then (inl EINVAL, os)
    else if SIZE_WIDTH <? os_hint os + pages_for os cap * os_pagesize os
         then (inl ENOMEM, os)
         else (inr (os_hint os),
               mmap_install (os_hint os) (pages_for os cap) PROT_NONE Anon os).
Proof.
  unfold sys_mmap. destruct (cap <=? 0); [reflexivity|].
  change (map_type_ok RESERVE_FLAGS) with true.
  rewrite Zmod_0_l. cbn [negb Z.eqb].
  change (mmap_backing PROT_NONE RESERVE_FLAGS (-1) 0 os) with (@inr errno _ Anon).
  unfold mmap_place.
  change (has_flag RESERVE_FLAGS MAP_FIXED) with false.
  change (has_flag RESERVE_FLAGS MAP_FIXED_NOREPLACE) with false.
  cbv iota.
  destruct (SIZE_WIDTH <? os_hint os + pages_for os cap * os_pagesize os); reflexivity.
Qed.

Lemma RM_resize_throw r os n :
  RM.capacity r < n -> RM.resize n (r, os) = (Throw bad_alloc, (r, os)).
Proof.
  intros H. unfold RM.resize. msimpl.
  destruct (Z.ltb_spec (RM.capacity r) n); [reflexivity|lia].
Qed.

Lemma round_up_0 ps : 0 < ps -> round_up ps 0 = 0.
Proof. intros. unfold round_up. rewrite Z.div_small by lia. reflexivity. Qed.

(** The reservation as the constructor leaves it, before [resize(initialSize)]. *)
Lemma RM_reserved_inv os cap :
  os_wf os -> 0 < cap -> os_room os cap ->
  RM_inv (mmap_install (os_hint os) (pages_for os cap) PROT_NONE Anon os)
         (RM.Build (MemoryMap.Build cap (os_hint os) false) 0 0).
Proof.
  intros (Hps & Hh & Hal) Hcap Hroom.
  constructor; cbn; try assumption; try lia.
  - symmetry. apply round_up_0. assumption.
  - unfold RM_base, RM.capacity, pages_for. cbn. fold (pages_for os cap).
    intros p Hp. destruct (in_pages_false (os_hint os / os_pagesize os) (pages_for os cap) p) as [_ Hf].
    destruct (in_pages (os_hint os / os_pagesize os) (pages_for os cap) p) eqn:Hin.
    + rewrite Z.div_0_l by lia. 
      destruct (Z.ltb_spec p (os_hint os / os_pagesize os + 0)); [lia|reflexivity].
    + apply in_pages_false in Hin. lia.
Qed.

Lemma RM_ctor_ok init cap os r os' :
  os_wf os -> 0 <= init -> RM.ctor init cap os = (Ok r, os') ->
  RM_inv os' r
  /\ RM.m_reserved r = MemoryMap.Build cap (os_hint os) false
  /\ RM.m_size r = init
  /\ 0 < cap /\ os_room os cap /\ init <= cap.
Proof.
  intros Hwf Hinit. unfold RM.ctor, MemoryMap.ctor. msimpl.
  fold RESERVE_FLAGS. rewrite reserve_run.
  destruct (Z.leb_spec cap 0) as [Hc|Hc]; [discriminate|].
  destruct (Z.ltb_spec SIZE_WIDTH (os_hint os + pages_for os cap * os_pagesize os))
    as [Hr|Hr]; [discriminate|].
  change (negb (Z.land RESERVE_FLAGS (Z.lor MAP_FIXED MAP_FIXED_NOREPLACE) =? 0))
    with false.
  pose proof (RM_reserved_inv os cap Hwf Hc Hr) as Hinv.
  set (os1 := mmap_install _ _ _ _ _) in *.
  set (r0 := RM.Build _ 0 0) in *.
  destruct (Z.le_gt_cases init cap) as [Hle|Hgt].
  - destruct (RM_resize_run os1 r0 init Hinv) as (os2 & Hrun & Hinv' & Hfr).
    { unfold r0, RM.capacity; cbn. lia. }
    rewrite Hrun. intros [= <- <-].
    split; [exact Hinv'|]. repeat split; try reflexivity; try assumption.
  - rewrite RM_resize_throw by (unfold r0, RM.capacity; cbn; lia).
    destruct (RM.dtor r0 os1) as [[u| |] os2]; discriminate.
Qed.

Lemma RM_ctor_run init cap os :
  os_wf os -> 0 < cap -> os_room os cap -> 0 <= init <= cap ->
  exists r os', RM.ctor init cap os = (Ok r, os').
Proof.
  intros Hwf Hc Hr Hinit. unfold RM.ctor, MemoryMap.ctor. msimpl.
  fold RESERVE_FLAGS. rewrite reserve_run.
  destruct (Z.leb_spec cap 0); [lia|].
  unfold os_room in Hr.
  destruct (Z.ltb_spec SIZE_WIDTH (os_hint os + pages_for os cap * os_pagesize os));
    [lia|].
  match goal with
  | |- context [RM.resize init (?r0, ?os1)] =>
      destruct (RM_resize_run os1 r0 init) as (os2 & Hrun & _)
  end.
  - apply RM_reserved_inv; assumption.
  - cbn. lia.
  - rewrite Hrun. eauto.
Qed.

(** Stores change bytes, never the page table. *)
Lemma store_vm os a b os' :
  store os a b = Some os' ->
  os_pages os' = os_pages os /\ os_pagesize os' = os_pagesize os.
Proof.
  unfold store. intros H.
  destruct (os_pages os (a / os_pagesize os)) as [pg|]; [|discriminate].
  destruct (negb (has_flag (pg_prot pg) PROT_WRITE)); [discriminate|].
  destruct (pg_back pg).
  - injection H as <-. split; reflexivity.
  - injection H as <-. split; reflexivity.
  - destruct (os_files os !! path); [|discriminate].
    destruct (Z.of_nat (length l) <=? off); [discriminate|].
    injection H as <-. split; reflexivity.
Qed.

Lemma RM_inv_ext os os' r :
  os_pages os' = os_pages os -> os_pagesize os' = os_pagesize os ->
  RM_inv os r -> RM_inv os' r.
Proof.
  intros Hpg Hps [H1 H2 H3 H4 H5 H6 H7 H8].
  constructor; unfold pages_for in *; rewrite ?Hpg, ?Hps; assumption.
Qed.

Lemma is_size_t_spec n : is_size_t n = true <-> 0 <= n < SIZE_WIDTH.
Proof. unfold is_size_t. rewrite andb_true_iff, Z.leb_le, Z.ltb_lt. tauto. Qed.

Lemma RM_step_inv o r os r' os' :
  RM_inv os r -> client_step o (r, os) = Some (r', os') ->
  RM_inv os' r' /\ RM.m_reserved r' = RM.m_reserved r.
Proof.
  intros Hinv. destruct o as [n|k b]; cbn -[RM.resize].
  - destruct (is_size_t n) eqn:Hn; [|discriminate].
    apply is_size_t_spec in Hn.
    destruct (Z.le_gt_cases n (RM.capacity r)) as [Hle|Hgt].
    + destruct (RM_resize_run os r n Hinv ltac:(lia)) as (os2 & -> & Hinv' & _).
      intros [= <- <-]. split; [assumption|reflexivity].
    + rewrite RM_resize_throw by lia. intros [= <- <-]. split; [assumption|reflexivity].
  - destruct ((0 <=? k) && (k <? RM.size r)); [|discriminate].
    destruct (store os (RM.data r + k) b) as [os2|] eqn:Hst; [|discriminate].
    cbn. intros [= <- <-]. apply store_vm in Hst as [Hpg Hps].
    split; [|reflexivity]. eapply RM_inv_ext; eassumption.
Qed.

Lemma RM_run_inv ops : forall r os r' os',
  RM_inv os r -> client_run ops (r, os) = Some (r', os') ->
  RM_inv os' r' /\ RM.m_reserved r' = RM.m_reserved r.
Proof.
  induction ops as [|o ops IH]; intros r os r' os' Hinv; cbn -[client_step].
  - intros [= <- <-]. split; [assumption|reflexivity].
  - destruct (client_step o (r, os)) as [[r1 os1]|] eqn:Hs; [|discriminate].
    intros Hrun. apply RM_step_inv in Hs as [Hinv1 Hres1]; [|assumption].
    destruct (IH _ _ _ _ Hinv1 Hrun) as [Hinv' Hres']. split; [assumption|congruence].
Qed.

Lemma vm_only_refl os : vm_only os os.
Proof. constructor; reflexivity. Qed.

Lemma vm_only_trans os1 os2 os3 : vm_only os1 os2 -> vm_only os2 os3 -> vm_only os1 os3.
Proof. intros [] []. constructor; congruence. Qed.

Lemma sys_mmap_vm addr len prot flags fd off os res os' :
  sys_mmap addr len prot flags fd off os = (res, os') -> vm_only os os'.
Proof. unfold sys_mmap. syscall_frame. Qed.

Lemma sys_munmap_vm addr len os res os' :
  sys_munmap addr len os = (res, os') -> vm_only os os'.
Proof. unfold sys_munmap. syscall_frame. Qed.

Lemma sys_msync_same addr len flags os res os' :
  sys_msync addr len flags os = (res, os') -> os' = os.
Proof. unfold sys_msync. intros; repeat case_match; simplify_eq; reflexivity. Qed.

Lemma sys_mprotect_vm addr len prot os res os' :
  sys_mprotect addr len prot os = (res, os') -> vm_only os os'.
Proof. unfold sys_mprotect. syscall_frame. Qed.

Lemma sys_madvise_vm addr len adv os res os' :
  sys_madvise addr len adv os = (res, os') -> vm_only os os'.
Proof. unfold sys_madvise. syscall_frame. Qed.

Lemma sys_mmap_fixed addr len prot flags fd off os a os' :
  sys_mmap addr len prot flags fd off os = (inr a, os') ->
  has_flag flags MAP_FIXED = true -> a = addr.
Proof.
  unfold sys_mmap, mmap_place. intros H Hf. rewrite Hf in H.
  repeat case_match; simplify_eq. reflexivity.
Qed.

Lemma MemoryMap_unmap_vm prot m os res os' :
  MemoryMap.unmap prot m os = (res, os') -> vm_only os os'.
Proof.
  unfold MemoryMap.unmap, MemoryMap.sync. msimpl. intros H.
  destruct (MemoryMap.m_address m =? MAP_FAILED).
  { simplify_eq. apply vm_only_refl. }
  destruct (MemoryMap.Writable prot).
  - destruct (sys_msync _ _ _ os) as [[e|[]] os1] eqn:Hs;
      apply sys_msync_same in Hs; subst os1.
    { simplify_eq. apply vm_only_refl. }
    destruct (MemoryMap.m_fixed m).
    + destruct (sys_mmap _ _ _ _ _ _ os) as [[e|a] os2] eqn:Hm;
        apply sys_mmap_vm in Hm; simplify_eq; assumption.
    + destruct (sys_munmap _ _ os) as [[e|a] os2] eqn:Hm;
        apply sys_munmap_vm in Hm; simplify_eq; assumption.
  - destruct (MemoryMap.m_fixed m).
    + destruct (sys_mmap _ _ _ _ _ _ os) as [[e|a] os2] eqn:Hm;
        apply sys_mmap_vm in Hm; simplify_eq; assumption.
    + destruct (sys_munmap _ _ os) as [[e|a] os2] eqn:Hm;
        apply sys_munmap_vm in Hm; simplify_eq; assumption.
Qed.

Lemma MemoryMap_dtor_vm prot m os res os' :
  MemoryMap.dtor prot m os = (res, os') -> vm_only os os'.
Proof.
  unfold MemoryMap.dtor, noexcept. intros H.
  destruct (MemoryMap.unmap prot m os) as [r os1] eqn:Hu.
  apply MemoryMap_unmap_vm in Hu. destruct r; simplify_eq; assumption.
Qed.

Lemma MemoryMap_ctor_vm prot addr len flags fd off os res os' :
  MemoryMap.ctor prot addr len flags fd off os = (res, os') -> vm_only os os'.
Proof.
  unfold MemoryMap.ctor. msimpl. intros H.
  destruct (sys_mmap addr len prot flags fd off os) as [[e|a] os1] eqn:Hm;
    apply sys_mmap_vm in Hm; simplify_eq; assumption.
Qed.

Lemma MemoryMap_ctor_ok prot addr len flags fd off os m os' :
  MemoryMap.ctor prot addr len flags fd off os = (Ok m, os') ->
  MemoryMap.m_size m = len
  /\ sys_mmap addr len prot flags fd off os = (inr (MemoryMap.m_address m), os')
  /\ MemoryMap.m_fixed m
      = negb (Z.land flags (Z.lor MAP_FIXED MAP_FIXED_NOREPLACE) =? 0).
Proof.
  unfold MemoryMap.ctor. msimpl. intros H.
  destruct (sys_mmap addr len prot flags fd off os) as [[e|a] os1] eqn:Hm;
    simplify_eq. split_and!; reflexivity.
Qed.

(** [m_mapped.reset()] *)
Lemma RMF_reset_mapped_spec r os res r' os' :
  RMF.reset_mapped (r, os) = (res, (r', os')) ->
  vm_only os os'
  /\ RMF.m_reserved r' = RMF.m_reserved r
  /\ RMF.m_file r' = RMF.m_file r
  /\ (res = Ok tt -> RMF.m_mapped r' = None).
Proof.
  unfold RMF.reset_mapped. msimpl. intros H.
  destruct (RMF.m_mapped r) as [m|] eqn:Hm.
  - destruct (MemoryMap.dtor PROT_RW m os) as [x os1] eqn:Hd.
    apply MemoryMap_dtor_vm in Hd.
    destruct x; simplify_eq; split_and!; auto; intros; discriminate.
  - simplify_eq. split_and!; auto using vm_only_refl.
Qed.

Lemma RMF_map_ok size r os r' os' :
  RMF.map size (r, os) = (Ok tt, (r', os')) ->
  vm_only os os'
  /\ r' = RMF.Build (RMF.m_reserved r) (RMF.m_file r)
            (Some (MemoryMap.Build size (MemoryMap.address (RMF.m_reserved r)) true)).
Proof.
  unfold RMF.map. unfold bind at 1. intros H.
  destruct (RMF.reset_mapped (r, os)) as [x [r1 os1]] eqn:Hr.
  apply RMF_reset_mapped_spec in Hr as (Hvm1 & Hres & Hfile & _).
  destruct x as [[]| |]; [|discriminate..].
  revert H. msimpl. unfold MemoryMap.ctor. msimpl. rewrite Hres, Hfile.
  destruct (sys_mmap _ _ _ _ _ _ os1) as [[e|a] os2] eqn:Hm; [discriminate|].
  intros [= <- <-].
  pose proof (sys_mmap_fixed _ _ _ _ _ _ _ _ _ Hm eq_refl) as ->.
  apply sys_mmap_vm in Hm. split; [eapply vm_only_trans; eassumption|reflexivity].
Qed.


(** [ftruncate] that returns has set the length. *)
Lemma sys_ftruncate_ok fd len os os' :
  sys_ftruncate fd len os = (inr tt, os') ->
  0 <= len
  /\ os_fds os' = os_fds os /\ os_pagesize os' = os_pagesize os
  /\ os_pages os' = os_pages os
  /\ exists path fl, os_fds os !! fd = Some (path, fl)
                     /\ file_length os' path = Some len.
Proof.
  unfold sys_ftruncate. intros H.
  destruct (os_fds os !! fd) as [[path fl]|] eqn:Hfd; [|discriminate].
  destruct (Z.ltb_spec len 0); [rewrite orb_true_r in H; discriminate|].
  destruct (Z.land fl O_ACCMODE =? O_RDONLY); [discriminate|]. cbn in H.
  destruct (os_files os !! path) as [data|] eqn:Hf; [|discriminate].
  injection H as <-. split_and!; try reflexivity; [lia|].
  exists path, fl. split; [reflexivity|].
  unfold file_length. cbn. rewrite lookup_insert_eq. cbn.
  rewrite length_resize. f_equal. lia.
Qed.

(** One successful [resize]: the reservation stays, the mapping sits at its
    base, and the file has the length that was asked for. *)
Lemma RMF_resize_ok n r os r' os' :
  RMF.resize n (r, os) = (Ok tt, (r', os')) ->
  n <= RMF.capacity r
  /\ RMF.m_reserved r' = RMF.m_reserved r
  /\ RMF.m_file r' = RMF.m_file r
  /\ RMF.m_mapped r' =
       (if n =? 0 then None
        else Some (MemoryMap.Build n (MemoryMap.address (RMF.m_reserved r)) true))
  /\ os_pagesize os' = os_pagesize os
  /\ os_fds os' = os_fds os
  /\ 0 <= to_off_t n
  /\ exists path fl, os_fds os !! FileDescriptor.m_fd (RMF.m_file r) = Some (path, fl)
                     /\ file_length os' path = Some (to_off_t n).
Proof.
  unfold RMF.resize, RMF.throwIfAbove.
  unfold bind at 1. unfold get_this at 1. cbn [fst snd].
  unfold bind at 1. fold (RMF.capacity r).
  destruct (Z.ltb_spec (RMF.capacity r) n) as [|Hcap]; [discriminate|].
  unfold ret at 1. unfold bind at 1.
  destruct (RMF.reset_mapped (r, os)) as [x [r1 os1]] eqn:Hr.
  apply RMF_reset_mapped_spec in Hr as (Hvm1 & Hres & Hfile & Hnone).
  destruct x as [[]| |]; [|discriminate..]. specialize (Hnone eq_refl).
  unfold bind at 1, on_os, FileDescriptor.truncate, syscall. cbn [fst snd].
  destruct (sys_ftruncate _ _ os1) as [[e|[]] os2] eqn:Ht; [discriminate|].
  apply sys_ftruncate_ok in Ht as (Hoff & Hfds & Hps & Hpg & path & fl & Hfd & Hlen).
  destruct Hvm1 as [Hps1 Hfiles1 Hfds1 _].
  destruct (Z.eqb_spec n 0) as [->|Hnz].
  - unfold ret. intros [= <- <-].
    split_and!; try assumption; try congruence.
    exists path, fl. split; [congruence|assumption].
  - intros Hmap. apply RMF_map_ok in Hmap as ([Hps3 Hfiles3 Hfds3 _] & ->).
    cbn. split_and!; try congruence; try assumption.
    exists path, fl. split; [congruence|].
    unfold file_length in *. rewrite Hfiles3. assumption.
Qed.

Lemma RMF_resize_throw r os n :
  RMF.capacity r < n -> RMF.resize n (r, os) = (Throw bad_alloc, (r, os)).
Proof.
  intros H. unfold RMF.resize, RMF.throwIfAbove. msimpl. fold (RMF.capacity r).
  destruct (Z.ltb_spec (RMF.capacity r) n); [reflexivity|lia].
Qed.

Lemma FD_ctor_existing path flags mode os data :
  os_files os !! path = Some data ->
  FileDescriptor.ctor path flags mode os =
    (Ok (FileDescriptor.Build (os_next_fd os)),
     set_fds (<[os_next_fd os := (path, flags)]> (os_fds os)) (os_next_fd os + 1) os).
Proof.
  intros H. unfold FileDescriptor.ctor, sys_open. msimpl. rewrite H. reflexivity.
Qed.

Lemma FD_size_run f os path fl data :
  os_fds os !! FileDescriptor.m_fd f = Some (path, fl) ->
  os_files os !! path = Some data ->
  FileDescriptor.size f os = (Ok (wrap64 (Z.of_nat (length data))), os).
Proof.
  intros Hfd Hf. unfold FileDescriptor.size, FileDescriptor.stat, sys_fstat. msimpl.
  rewrite Hfd, Hf. reflexivity.
Qed.

Lemma FD_dtor_files f os res os' :
  FileDescriptor.dtor f os = (res, os') ->
  res = Ok tt /\ os_files os' = os_files os /\ os_pages os' = os_pages os
  /\ os_pagesize os' = os_pagesize os.
Proof.
  unfold FileDescriptor.dtor, sys_close. msimpl. intros H.
  repeat case_match; simplify_eq; split_and!; reflexivity.
Qed.

Lemma RMF_dtor_files r os res os' :
  RMF.dtor r os = (res, os') -> os_files os' = os_files os.
Proof.
  unfold RMF.dtor. unfold bind at 1. intros H.
  assert (exists x os1,
    match RMF.m_mapped r with
    | Some m => MemoryMap.dtor PROT_RW m
    | None => ret tt
    end os = (x, os1) /\ os_files os1 = os_files os) as (x & os1 & H1 & E1).
  { destruct (RMF.m_mapped r) as [m|].
    - destruct (MemoryMap.dtor PROT_RW m os) as [x os1] eqn:Hd.
      exists x, os1. split; [reflexivity|].
      apply MemoryMap_dtor_vm in Hd. apply Hd.
    - exists (Ok tt), os. split; reflexivity. }
  rewrite H1 in H.
  destruct x; [|simplify_eq; assumption..].
  revert H. unfold bind at 1.
  destruct (FileDescriptor.dtor (RMF.m_file r) os1) as [y os2] eqn:H2.
  apply FD_dtor_files in H2 as (-> & E2 & _).
  intros H3. apply MemoryMap_dtor_vm in H3. destruct H3. congruence.
Qed.

(** An existing file larger than the capacity: the constructor never
    returns an object and leaves every file as it was. *)
Lemma RMF_ctor_oversized path cap os data res os' :
  os_files os !! path = Some data ->
  cap < Z.of_nat (length data) < 2 ^ 63 ->
  RMF.ctor path cap os = (res, os') ->
  (forall r, res <> Ok r) /\ os_files os' = os_files os
  /\ (os_wf os -> 0 < cap -> os_room os cap -> res = Throw bad_alloc).
Proof.
  intros Hfile Hlen. unfold RMF.ctor. unfold bind at 1.
  destruct (MemoryMap.ctor _ _ _ _ _ _ os) as [x os1] eqn:Hres.
  pose proof (MemoryMap_ctor_vm _ _ _ _ _ _ _ _ _ Hres) as Hvm1.
  destruct x as [reserved| |]; cycle 1.
  { intros [= <- <-]. split_and!; [discriminate|apply Hvm1|].
    intros Hwf Hc Hr. exfalso. revert Hres. unfold MemoryMap.ctor. msimpl.
    fold RESERVE_FLAGS. rewrite reserve_run.
    destruct (Z.leb_spec cap 0); [lia|]. unfold os_room in Hr.
    destruct (Z.ltb_spec SIZE_WIDTH (os_hint os + pages_for os cap * os_pagesize os));
      [lia|discriminate]. }
  { intros [= <- <-]. split_and!; [discriminate|apply Hvm1|].
    intros _ _ _. exfalso. revert Hres. unfold MemoryMap.ctor. msimpl.
    repeat case_match; discriminate. }
  assert (Hf1 : os_files os1 !! path = Some data).
  { destruct Hvm1 as [_ -> _ _]. assumption. }
  unfold bind at 1, unwinding.
  rewrite (FD_ctor_existing _ _ _ _ _ Hf1).
  set (os2 := set_fds _ _ os1).
  set (file := FileDescriptor.Build (os_next_fd os1)).
  unfold RMF.construct, RMF.throwIfAbove. msimpl. cbn [RMF.m_file RMF.m_reserved].
  rewrite (FD_size_run file os2 path (Z.lor O_CREAT O_RDWR) data);
    [| apply lookup_insert_eq | exact Hf1].
  rewrite wrap64_small by (unfold SIZE_WIDTH; lia).
  apply MemoryMap_ctor_ok in Hres as (Hsz & Hmm & Hfx).
  change (negb _) with false in Hfx. unfold MemoryMap.size. rewrite Hsz.
  destruct (Z.ltb_spec cap (Z.of_nat (length data))); [|lia].
  destruct (RMF.dtor (RMF.Build reserved file None) os2) as [y os3] eqn:Hd.
  pose proof (RMF_dtor_files _ _ _ _ Hd) as Hfiles3.
  assert (Hfiles : os_files os3 = os_files os).
  { rewrite Hfiles3. cbn. apply Hvm1. }
  intros Hfin.
  assert (res <> Terminated -> res = Throw bad_alloc) as Hres'.
  { destruct y; simplify_eq; auto; intros; congruence. }
  split_and!.
  - intros r. destruct y; simplify_eq; discriminate.
  - destruct y; simplify_eq; assumption.
  - intros Hwf Hc Hr. apply Hres'.
    (* the destructors of the members all return *)
    clear Hres'. revert Hd. unfold RMF.dtor. msimpl. cbn [RMF.m_mapped RMF.m_file RMF.m_reserved].
    destruct (FileDescriptor.dtor file os2) as [z os4] eqn:Hfd.
    apply FD_dtor_files in Hfd as (-> & _ & Hpg4 & Hps4).
    revert Hmm. fold RESERVE_FLAGS. rewrite reserve_run.
    destruct (Z.leb_spec cap 0); [lia|]. unfold os_room in Hr.
    destruct (Z.ltb_spec SIZE_WIDTH (os_hint os + pages_for os cap * os_pagesize os));
      [lia|].
    intros [= Haddr Hos1].
    unfold MemoryMap.dtor, MemoryMap.unmap, noexcept, sys_munmap. msimpl.
    destruct (MemoryMap.m_address reserved =? MAP_FAILED).
    { intros [= <- <-] ->. inversion Hfin. }
    change (MemoryMap.Writable PROT_NONE) with false. cbv iota.
    rewrite Hfx. cbv beta iota.
    rewrite <- Haddr, Hsz, Hps4. cbn [os_pagesize os2 set_fds].
    rewrite <- Hos1. cbn [os_pagesize mmap_install set_vm].
    destruct Hwf as (Hps & Hh & Hal). rewrite Hal.
    destruct (Z.leb_spec cap 0); [lia|]. cbn.
    intros [= <- <-] ->. inversion Hfin.
Qed.

Lemma pages_for_mono os a b :
  0 < os_pagesize os -> a <= b -> pages_for os a <= pages_for os b.
Proof. intros. unfold pages_for. apply Z.div_le_mono; lia. Qed.

Lemma pages_for_pos os a : 0 < os_pagesize os -> 0 < a -> 0 < pages_for os a.
Proof.
  intros Hps Ha. unfold pages_for. apply Z.div_str_pos. lia.
Qed.

(** A fixed mapping inside a reservation that is wholly mapped. *)
Lemma mmap_fixed_run os addr len prot flags fd off bk :
  0 < os_pagesize os -> addr mod os_pagesize os = 0 -> 0 < len ->
  addr + pages_for os len * os_pagesize os <= SIZE_WIDTH ->
  map_type_ok flags = true -> has_flag flags MAP_FIXED = true ->
  off mod os_pagesize os = 0 ->
  mmap_backing prot flags fd off os = inr bk ->
  sys_mmap addr len prot flags fd off os =
    (inr addr, mmap_install addr (pages_for os len) prot bk os).
Proof.
  intros Hps Hal Hlen Hroom Hty Hfx Hoff Hbk. unfold sys_mmap, mmap_place.
  destruct (Z.leb_spec len 0); [lia|].
  rewrite Hty, Hoff, Hbk, Hfx, Hal. cbn.
  destruct (Z.ltb_spec SIZE_WIDTH (addr + pages_for os len * os_pagesize os)); [lia|].
  reflexivity.
Qed.

Lemma msync_run os addr len flags :
  0 < os_pagesize os -> addr mod os_pagesize os = 0 ->
  (forall p, addr / os_pagesize os <= p < addr / os_pagesize os + pages_for os len ->
             is_Some (os_pages os p)) ->
  sys_msync addr len flags os = (inr tt, os).
Proof.
  intros Hps Hal Hm. unfold sys_msync. rewrite Hal. cbn.
  rewrite all_mapped_intro by assumption. reflexivity.
Qed.

Lemma RMF_inv_unmapped os r :
  RMF_inv os r ->
  RMF_inv os (RMF.Build (RMF.m_reserved r) (RMF.m_file r) None).
Proof.
  intros [H1 H2 H3 H4 H5 (path & fl & Hfd & Hacc & Hf & _)].
  constructor; try assumption.
  exists path, fl. split_and!; try assumption. exact I.
Qed.

(** [m_mapped.reset()] on a well-formed object returns, and the range goes
    back to the reservation. *)
Lemma RMF_reset_run os r :
  RMF_inv os r ->
  exists os1,
    RMF.reset_mapped (r, os)
      = (Ok tt, (RMF.Build (RMF.m_reserved r) (RMF.m_file r) None, os1))
    /\ RMF_inv os1 (RMF.Build (RMF.m_reserved r) (RMF.m_file r) None)
    /\ os_files os1 = os_files os.
Proof.
  intros Hinv. pose proof (RMF_inv_unmapped _ _ Hinv) as Hinv0.
  destruct Hinv as [Hps Hal Hcap Hroom Hresv (path & fl & Hfd & Hacc & Hf & Hm)].
  unfold RMF.reset_mapped. msimpl. unfold RMF_mapped_ok in Hm.
  destruct (RMF.m_mapped r) as [m|] eqn:Hmm.
  2:{ exists os. destruct r; cbn in *; subst. split_and!; auto. }
  destruct Hm as (Hmeq & Hsz & Hlen & Hpg).
  unfold MemoryMap.dtor, MemoryMap.unmap, MemoryMap.sync, noexcept. msimpl.
  rewrite Hmeq. cbn [MemoryMap.m_address MemoryMap.m_size MemoryMap.m_fixed].
  destruct (RMF_base r =? MAP_FAILED).
  { exists os. split_and!; auto. }
  change (MemoryMap.Writable PROT_RW) with true. cbv beta iota.
  assert (Hsub : forall p,
    RMF_base r / os_pagesize os <= p
      < RMF_base r / os_pagesize os + pages_for os (MemoryMap.m_size m) ->
    RMF_base r / os_pagesize os <= p
      < RMF_base r / os_pagesize os + pages_for os (RMF.capacity r)).
  { intros p Hp. pose proof (pages_for_mono os (MemoryMap.m_size m) (RMF.capacity r)).
    lia. }
  rewrite msync_run; [|assumption|assumption|]; cycle 1.
  { intros p Hp. apply Hresv, Hsub, Hp. }
  cbv beta iota.
  rewrite (mmap_fixed_run os (RMF_base r) (MemoryMap.m_size m) PROT_NONE _ _ _ Anon);
    [ | assumption | assumption | lia | | reflexivity | reflexivity
      | apply Zmod_0_l | reflexivity ].
  2:{ pose proof (pages_for_mono os (MemoryMap.m_size m) (RMF.capacity r)). nia. }
  cbv beta iota. eexists. split; [reflexivity|]. split; [|reflexivity].
  destruct Hinv0 as [_ _ _ _ _ Hfile0].
  constructor; cbn; try assumption.
  intros p Hp. unfold pages_for in *. cbn in *.
  destruct (in_pages _ _ p); [eauto|]. apply Hresv. assumption.
Qed.

Lemma file_length_is_Some os path :
  is_Some (file_length os path) <-> is_Some (os_files os !! path).
Proof. unfold file_length. rewrite fmap_is_Some. tauto. Qed.

(** [map(size)] on an object without a mapping, over a file already of
    that length. *)
Lemma RMF_map_run os resv file size path fl :
  let r0 := RMF.Build resv file None in
  RMF_inv os r0 -> 0 < size <= RMF.capacity r0 ->
  os_fds os !! FileDescriptor.m_fd file = Some (path, fl) ->
  file_length os path = Some size ->
  exists os1,
    RMF.map size (r0, os)
      = (Ok tt, (RMF.Build resv file
                   (Some (MemoryMap.Build size (MemoryMap.m_address resv) true)), os1))
    /\ RMF_inv os1 (RMF.Build resv file
                      (Some (MemoryMap.Build size (MemoryMap.m_address resv) true)))
    /\ os_files os1 = os_files os.
Proof.
  intros r0 [Hps Hal Hcap Hroom Hresv (path' & fl' & Hfd' & Hacc & Hf & _)] Hsz Hfd Hlen.
  cbn [RMF.m_file r0] in Hfd'. rewrite Hfd in Hfd'. injection Hfd' as <- <-.
  unfold RMF.map, RMF.reset_mapped, MemoryMap.ctor. msimpl.
  cbn [RMF.m_mapped RMF.m_reserved RMF.m_file r0]. msimpl.
  unfold MemoryMap.address. fold MAP_FLAGS.
  unfold RMF_base, RMF.capacity, MemoryMap.size in *. cbn [RMF.m_reserved r0] in *.
  assert (Hbk : mmap_backing PROT_RW MAP_FLAGS (FileDescriptor.m_fd file) 0 os
                = inr (FileShared path 0)).
  { unfold mmap_backing. change (has_flag MAP_FLAGS MAP_ANONYMOUS) with false.
    cbv iota. rewrite Hfd, Hacc. reflexivity. }
  rewrite (mmap_fixed_run os _ size PROT_RW MAP_FLAGS _ 0 (FileShared path 0));
    [ | assumption | assumption | lia | | reflexivity | reflexivity
      | apply Zmod_0_l | exact Hbk ].
  2:{ pose proof (pages_for_mono os size (MemoryMap.m_size resv)). nia. }
  change (negb (Z.land MAP_FLAGS (Z.lor MAP_FIXED MAP_FIXED_NOREPLACE) =? 0)) with true.
  eexists. split; [reflexivity|]. split; [|reflexivity].
  constructor; unfold RMF_base, RMF.capacity, MemoryMap.size, pages_for;
    cbn [RMF.m_reserved RMF.m_file RMF.m_mapped os_pagesize os_pages os_fds os_files
         mmap_install set_vm]; try assumption.
  - intros p Hp. destruct (in_pages _ _ p); [eauto|]. apply Hresv. assumption.
  - exists path, fl. split_and!; try assumption.
    unfold RMF_mapped_ok, RMF_base, RMF.capacity, MemoryMap.size, pages_for.
    cbn [RMF.m_reserved RMF.m_file RMF.m_mapped os_pagesize os_pages os_fds os_files
         mmap_install set_vm MemoryMap.m_size].
    split_and!; [reflexivity|lia|lia|exact Hlen|].
    intros p Hp. fold (pages_for os size).
    destruct (in_pages_false (MemoryMap.m_address resv / os_pagesize os)
                (pages_for os size) p) as [Hf' _].
    destruct (in_pages _ _ p).
    + cbn. do 3 f_equal.
    + exfalso. apply Hf'; [reflexivity|]. exact Hp.
Qed.

Lemma to_off_t_cases n :
  0 <= n < SIZE_WIDTH -> to_off_t n < 0 \/ to_off_t n = n.
Proof.
  intros Hn. unfold to_off_t. rewrite wrap64_small by assumption.
  destruct (Z.ltb_spec n (2 ^ 63)); [right; reflexivity|left].
  unfold SIZE_WIDTH in *. lia.
Qed.

(** Every outcome of [resize] on a well-formed object. *)
Lemma RMF_resize_inv os r n res r' os' :
  RMF_inv os r -> is_size_t n = true ->
  RMF.resize n (r, os) = (res, (r', os')) ->
  RMF_inv os' r' /\ RMF.m_reserved r' = RMF.m_reserved r
  /\ (res = Ok tt \/ res = Throw bad_alloc /\ r' = r /\ os' = os
      \/ res = Throw (mapping_error EINVAL) /\ RMF.m_mapped r' = None).
Proof.
  intros Hinv Hn%is_size_t_spec.
  destruct (Z.lt_ge_cases (RMF.capacity r) n) as [Hgt|Hle].
  { rewrite RMF_resize_throw by assumption. intros [= <- <- <-]. auto 10. }
  unfold RMF.resize, RMF.throwIfAbove.
  unfold bind at 1. unfold get_this at 1. cbn [fst snd].
  unfold bind at 1. fold (RMF.capacity r).
  destruct (Z.ltb_spec (RMF.capacity r) n); [lia|].
  unfold ret at 1. unfold bind at 1.
  destruct (RMF_reset_run os r Hinv) as (os1 & -> & Hinv1 & Hfiles1).
  set (r1 := RMF.Build (RMF.m_reserved r) (RMF.m_file r) None) in *.
  unfold bind at 1, on_os, FileDescriptor.truncate, syscall. cbn [fst snd].
  pose proof Hinv1 as [Hps Hal Hcap Hroom Hresv (path & fl & Hfd & Hacc & Hf & _)].
  cbn [RMF.m_file r1] in Hfd.
  unfold sys_ftruncate. rewrite Hfd, Hacc.
  change (O_RDWR =? O_RDONLY) with false. cbn [orb].
  destruct (to_off_t_cases n Hn) as [Hneg|Hoff].
  { destruct (Z.ltb_spec (to_off_t n) 0); [|lia].
    intros [= <- <- <-]. split_and!; [assumption|reflexivity|]. right. right. auto. }
  rewrite Hoff. destruct (Z.ltb_spec n 0); [lia|].
  destruct Hf as [data Hf]. rewrite Hf.
  set (os2 := set_files _ os1).
  assert (Hinv2 : RMF_inv os2 r1).
  { constructor; try assumption.
    exists path, fl. split_and!; try assumption; [|exact I].
    unfold os2. cbn. rewrite lookup_insert_eq. eauto. }
  assert (Hlen2 : file_length os2 path = Some n).
  { unfold file_length, os2. cbn. rewrite lookup_insert_eq. cbn.
    rewrite length_resize. f_equal. lia. }
  destruct (Z.eqb_spec n 0) as [->|Hnz].
  - unfold ret. intros [= <- <- <-]. split_and!; [assumption|reflexivity|auto].
  - destruct (RMF_map_run os2 (RMF.m_reserved r) (RMF.m_file r) n path fl)
      as (os3 & Hrun & Hinv3 & _); try assumption.
    { unfold RMF.capacity in *. cbn. lia. }
    fold r1 in Hrun. rewrite Hrun. intros [= <- <- <-].
    split_and!; [assumption|reflexivity|auto].
Qed.

(** Stores keep every file's length, and the descriptors. *)
Lemma store_files os a b os' :
  store os a b = Some os' ->
  os_fds os' = os_fds os
  /\ forall path, file_length os' path = file_length os path.
Proof.
  unfold store. intros H.
  destruct (os_pages os (a / os_pagesize os)) as [pg|]; [|discriminate].
  destruct (negb (has_flag (pg_prot pg) PROT_WRITE)); [discriminate|].
  destruct (pg_back pg) as [|p0 off|p0 off].
  - injection H as <-. split; reflexivity.
  - injection H as <-. split; reflexivity.
  - destruct (os_files os !! p0) as [data|] eqn:Hf; [|discriminate].
    destruct (Z.of_nat (length data) <=? off); [discriminate|].
    injection H as <-. split; [reflexivity|].
    intros path. unfold file_length. cbn.
    destruct (decide (p0 = path)) as [->|Hne].
    + rewrite lookup_insert_eq, Hf. cbn. rewrite length_insert. reflexivity.
    + rewrite lookup_insert_ne by assumption. reflexivity.
Qed.

Lemma RMF_inv_store os os' r a b :
  store os a b = Some os' -> RMF_inv os r -> RMF_inv os' r.
Proof.
  intros Hst [Hps Hal Hcap Hroom Hresv (path & fl & Hfd & Hacc & Hf & Hm)].
  destruct (store_vm _ _ _ _ Hst) as [Hpg Hpsz].
  destruct (store_files _ _ _ _ Hst) as [Hfds Hlen].
  constructor; unfold pages_for in *; rewrite ?Hpg, ?Hpsz; try assumption.
  exists path, fl. rewrite Hfds. split_and!; try assumption.
  - apply file_length_is_Some. rewrite Hlen. apply file_length_is_Some. assumption.
  - unfold RMF_mapped_ok, pages_for in *. destruct (RMF.m_mapped r); [|exact I].
    rewrite Hpg, Hpsz, Hlen. assumption.
Qed.

Lemma RMF_step_inv o r os r' os' :
  RMF_inv os r -> client_step o (r, os) = Some (r', os') ->
  RMF_inv os' r' /\ RMF.m_reserved r' = RMF.m_reserved r.
Proof.
  intros Hinv. destruct o as [n|k b]; cbn -[RMF.resize].
  - destruct (is_size_t n) eqn:Hn; [|discriminate].
    destruct (RMF.resize n (r, os)) as [res [r1 os1]] eqn:Hr.
    apply RMF_resize_inv in Hr as (Hinv1 & Hres & Hcases); [|assumption..].
    destruct res; intros H; try discriminate; injection H as <- <-; auto.
  - destruct ((0 <=? k) && (k <? RMF.size r)); [|discriminate].
    destruct (store os (RMF.data r + k) b) as [os2|] eqn:Hst; [|discriminate].
    cbn. intros [= <- <-]. split; [|reflexivity]. eapply RMF_inv_store; eassumption.
Qed.

Lemma RMF_run_inv ops : forall r os r' os',
  RMF_inv os r -> client_run ops (r, os) = Some (r', os') ->
  RMF_inv os' r' /\ RMF.m_reserved r' = RMF.m_reserved r.
Proof.
  induction ops as [|o ops IH]; intros r os r' os' Hinv; cbn -[client_step].
  - intros [= <- <-]. split; [assumption|reflexivity].
  - destruct (client_step o (r, os)) as [[r1 os1]|] eqn:Hs; [|discriminate].
    intros Hrun. apply RMF_step_inv in Hs as [Hinv1 Hres1]; [|assumption].
    destruct (IH _ _ _ _ Hinv1 Hrun) as [Hinv' Hres']. split; [assumption|congruence].
Qed.

Lemma FD_ctor_create path os :
  exists os',
    FileDescriptor.ctor path OPEN_FLAGS 438 os
      = (Ok (FileDescriptor.Build (os_next_fd os)), os')
    /\ os_fds os' !! os_next_fd os = Some (path, OPEN_FLAGS)
    /\ os_pagesize os' = os_pagesize os /\ os_pages os' = os_pages os
    /\ os_files os' !! path = Some (default [] (os_files os !! path))
    /\ (forall p, p <> path -> os_files os' !! p = os_files os !! p).
Proof.
  unfold FileDescriptor.ctor, sys_open. msimpl.
  destruct (os_files os !! path) as [data|] eqn:Hf.
  - eexists. split; [reflexivity|]. cbn. rewrite lookup_insert_eq.
    split_and!; auto.
  - change (has_flag OPEN_FLAGS O_CREAT) with true. cbv iota.
    eexists. split; [reflexivity|]. cbn. rewrite !lookup_insert_eq.
    split_and!; auto. intros p Hp. rewrite lookup_insert_ne by congruence. reflexivity.
Qed.

(** The constructor: what it returns is well formed, sits at the address the
    kernel chose, and has the file mapped when the file is not empty. *)
Lemma RMF_ctor_ok path cap os r os' :
  os_wf os -> files_off_t os ->
  RMF.ctor path cap os = (Ok r, os') ->
  RMF_inv os' r
  /\ RMF.m_reserved r = MemoryMap.Build cap (os_hint os) false
  /\ RMF.size r = Z.of_nat (length (default [] (os_files os !! path)))
  /\ RMF.data r = (if RMF.size r =? 0 then nullptr else os_hint os)
  /\ (forall p, os_files os' !! p
                = if decide (p = path) then Some (default [] (os_files os !! path))
                  else os_files os !! p).
Proof.
  intros Hwf Hoff. unfold RMF.ctor, MemoryMap.ctor. msimpl.
  fold RESERVE_FLAGS OPEN_FLAGS. rewrite reserve_run.
  destruct (Z.leb_spec cap 0) as [Hc|Hc]; [discriminate|].
  destruct (Z.ltb_spec SIZE_WIDTH (os_hint os + pages_for os cap * os_pagesize os))
    as [Hr|Hr]; [discriminate|].
  change (negb (Z.land RESERVE_FLAGS (Z.lor MAP_FIXED MAP_FIXED_NOREPLACE) =? 0))
    with false.
  set (os1 := mmap_install _ _ _ _ _).
  set (resv := MemoryMap.Build cap (os_hint os) false).
  destruct (FD_ctor_create path os1) as (os2 & -> & Hfd & Hps2 & Hpg2 & Hf2 & Hother).
  set (file := FileDescriptor.Build (os_next_fd os1)) in *.
  cbn [os_files os1 mmap_install set_vm] in Hf2, Hother.
  set (data := default [] (os_files os !! path)) in *.
  assert (Hdata : Z.of_nat (length data) < 2 ^ 63).
  { unfold data. destruct (os_files os !! path) as [d|] eqn:Hd; cbn; [|lia].
    apply (Hoff path d Hd). }
  unfold RMF.construct, RMF.throwIfAbove. msimpl. cbn [RMF.m_file RMF.m_reserved].
  rewrite (FD_size_run file os2 path OPEN_FLAGS data Hfd Hf2).
  rewrite wrap64_small by (unfold SIZE_WIDTH; lia).
  unfold MemoryMap.size. cbn [MemoryMap.m_size resv].
  destruct Hwf as (Hps & Hh & Hal).
  assert (Hinv0 : RMF_inv os2 (RMF.Build resv file None)).
  { constructor; unfold RMF_base, RMF.capacity, MemoryMap.size, pages_for;
      cbn [RMF.m_reserved RMF.m_file MemoryMap.m_address MemoryMap.m_size resv];
      rewrite ?Hps2, ?Hpg2; cbn [os_pagesize os_pages os1 mmap_install set_vm];
      try assumption.
    - intros p Hp. fold (pages_for os cap).
      destruct (in_pages_false (os_hint os / os_pagesize os) (pages_for os cap) p)
        as [Hf' _].
      destruct (in_pages _ _ p); [eauto|]. exfalso. apply Hf'; [reflexivity|exact Hp].
    - exists path, OPEN_FLAGS. split_and!; [assumption|reflexivity|eauto|exact I]. }
  assert (Hfiles : forall p, os_files os2 !! p
                = if decide (p = path) then Some data else os_files os !! p).
  { intros p. destruct (decide (p = path)) as [->|Hne]; [assumption|].
    apply Hother. assumption. }
  destruct (Z.ltb_spec cap (Z.of_nat (length data))) as [Hbig|Hfit].
  { destruct (RMF.dtor _ os2) as [[[]| |] ?]; discriminate. }
  destruct (Z.eqb_spec (Z.of_nat (length data)) 0) as [Hz|Hnz].
  - unfold ret. intros [= <- <-]. split_and!; try assumption; try reflexivity.
    + cbn. lia.
  - destruct (RMF_map_run os2 resv file (Z.of_nat (length data)) path OPEN_FLAGS)
      as (os3 & Hrun & Hinv3 & Hf3); try assumption.
    { unfold RMF.capacity. cbn. lia. }
    { unfold file_length. rewrite Hf2. reflexivity. }
    rewrite Hrun. intros [= <- <-]. split_and!; try assumption; try reflexivity.
    + cbn. unfold MemoryMap.address. cbn.
      destruct (Z.eqb_spec (Z.of_nat (length data)) 0); [lia|reflexivity].
    + rewrite Hf3. assumption.
Qed.




(** Inside the mapping, memory and file are one: what the program reads
    at [data() + k] is byte [k] of the file. *)
Lemma RMF_load_file r os k :
  RMF_inv os r -> 0 <= k < RMF.size r ->
  exists path fl,
    os_fds os !! FileDescriptor.m_fd (RMF.m_file r) = Some (path, fl)
    /\ load os (RMF.data r + k) = Some (file_byte os path k).
Proof.
  intros [Hps Hal Hcap Hroom Hresv (path & fl & Hfd & Hacc & Hf & Hm)] Hk.
  exists path, fl. split; [assumption|].
  unfold RMF_mapped_ok, RMF.size, RMF.data in *.
  destruct (RMF.m_mapped r) as [m|]; [|lia].
  destruct Hm as (Hmeq & Hsz & Hlen & Hpg).
  unfold MemoryMap.address, MemoryMap.size in *. rewrite Hmeq.
  cbn [MemoryMap.m_address]. set (ps := os_pagesize os) in *.
  unfold load. fold ps. rewrite div_aligned_add by (try apply Hal; lia).
  rewrite Hpg; cycle 1.
  { unfold pages_for. fold ps. split; [pose proof (Z.div_pos k ps); lia|].
    apply Z.add_lt_mono_l. apply Z.div_lt_upper_bound; [lia|].
    pose proof (Z.mul_succ_div_gt (MemoryMap.m_size m + ps - 1) ps Hps). lia. }
  cbn [pg_prot pg_back]. change (has_flag PROT_RW PROT_READ) with true. cbn [negb].
  rewrite Hlen.
  replace (RMF_base r / ps + k / ps - RMF_base r / ps) with (k / ps) by lia.
  pose proof (Z.mul_div_le k ps Hps).
  destruct (Z.leb_spec (MemoryMap.m_size m) (k / ps * ps)); [lia|].
  do 2 f_equal. rewrite Z.add_mod by lia. rewrite Hal, Z.add_0_l, Z.mod_mod by lia.
  pose proof (Z.div_mod k ps). lia.
Qed.

(** Whole-file mapping of an empty file. *)
Lemma MappedFile_ctor_empty W path flags os :
  os_files os !! path = Some [] ->
  exists os',
    MappedFile.ctor W path flags os = (Throw (mapping_error EINVAL), os')
    /\ os_files os' = os_files os /\ os_pages os' = os_pages os.
Proof.
  intros Hf. unfold MappedFile.ctor. unfold bind at 1.
  rewrite (FD_ctor_existing _ _ _ _ _ Hf).
  set (os1 := set_fds _ _ os). set (file := FileDescriptor.Build _).
  unfold unwinding, bind.
  rewrite (FD_size_run file os1 path (if W then O_RDWR else O_RDONLY) []);
    [|apply lookup_insert_eq|exact Hf].
  unfold MemoryMap.ctor, bind, syscall, sys_mmap.
  change (wrap64 (Z.of_nat (length [])) <=? 0) with true. cbv iota.
  destruct (FileDescriptor.dtor file os1) as [x os2] eqn:Hd.
  apply FD_dtor_files in Hd as (-> & Hfiles & Hpg & _).
  eexists. split; [reflexivity|]. split; assumption.
Qed.

(** A private file mapping: stores stay in the process. *)

Lemma store_private os a b os' len base :
  private_range os base len -> base <= a < base + len ->
  store os a b = Some os' ->
  os_files os' = os_files os /\ os_fds os' = os_fds os
  /\ os_next_fd os' = os_next_fd os
  /\ os_pages os' = os_pages os /\ os_pagesize os' = os_pagesize os.
Proof.
  intros Hpr Ha. destruct (Hpr a Ha) as (pg & path & off & Hpg & Hbk).
  unfold store. rewrite Hpg, Hbk.
  destruct (negb (has_flag (pg_prot pg) PROT_WRITE)); [discriminate|].
  intros [= <-]. split_and!; reflexivity.
Qed.

Lemma store_bytes_private bs : forall os a os' len base,
  private_range os base len -> base <= a -> a + Z.of_nat (length bs) <= base + len ->
  store_bytes os a bs = Some os' ->
  os_files os' = os_files os /\ os_fds os' = os_fds os
  /\ os_next_fd os' = os_next_fd os
  /\ os_pages os' = os_pages os /\ os_pagesize os' = os_pagesize os.
Proof.
  induction bs as [|b bs IH]; intros os a os' len base Hpr Ha Hend; cbn [store_bytes].
  - intros [= <-]. split_and!; reflexivity.
  - cbn [length] in Hend.
    destruct (store os a b) as [os1|] eqn:Hst; [|discriminate].
    apply (store_private os a b os1 len base Hpr) in Hst as (H1 & H2 & H3 & H4 & H5);
      [|lia].
    intros Hrest. apply (IH os1 (a + 1) os' len base) in Hrest; [| |lia|lia].
    + destruct Hrest as (G1 & G2 & G3 & G4 & G5). split_and!; congruence.
    + intros x Hx. unfold private_range in Hpr. rewrite H4, H5. apply Hpr. assumption.
Qed.

Lemma MappedFile_dtor_files W f os res os' :
  MappedFile.dtor W f os = (res, os') -> os_files os' = os_files os.
Proof.
  unfold MappedFile.dtor. unfold bind at 1.
  destruct (MemoryMap.dtor _ _ os) as [x os1] eqn:Hd.
  apply MemoryMap_dtor_vm in Hd. destruct Hd as [_ Hf _ _].
  destruct x; try (intros [= <- <-]; assumption).
  intros H. apply FD_dtor_files in H as (_ & Hf2 & _). congruence.
Qed.

(** The writable whole-file mapping as [open] builds it is a private one. *)
Lemma MappedFile_open_private path os f os1 :
  os_wf os ->
  MappedFile.open true path os = (Ok f, os1) ->
  os_files os1 = os_files os
  /\ private_range os1 (MappedFile.data f) (MappedFile.size f).
Proof.
  intros (Hps & Hh & Hal). unfold MappedFile.open, MappedFile.ctor.
  unfold bind at 1.
  destruct (FileDescriptor.ctor path O_RDWR 438 os) as [x os2] eqn:Hc.
  destruct x as [file| |]; [|discriminate..].
  assert (Hc' : os_files os2 = os_files os /\ os_pagesize os2 = os_pagesize os
                /\ os_hint os2 = os_hint os
                /\ exists data, os_fds os2 !! FileDescriptor.m_fd file = Some (path, O_RDWR)
                                /\ os_files os2 !! path = Some data).
  { revert Hc. unfold FileDescriptor.ctor, sys_open. msimpl.
    destruct (os_files os !! path) as [data|] eqn:Hf.
    - intros [= <- <-]. cbn. rewrite lookup_insert_eq. eauto 10.
    - change (has_flag O_RDWR O_CREAT) with false. discriminate. }
  destruct Hc' as (Hf2 & Hps2 & Hh2 & data & Hfd & Hfile).
  unfold unwinding, bind. rewrite (FD_size_run file os2 path O_RDWR data Hfd Hfile).
  unfold MemoryMap.ctor, bind, syscall.
  set (len := wrap64 (Z.of_nat (length data))).
  destruct (sys_mmap _ _ _ _ _ _ os2) as [[e|a] os3] eqn:Hm.
  { destruct (FileDescriptor.dtor file os3) as [[[]| |] ?]; discriminate. }
  unfold ret. intros [= <- <-].
  pose proof (sys_mmap_vm _ _ _ _ _ _ _ _ _ Hm) as [_ Hf3 _ _].
  split; [congruence|].
  revert Hm. unfold sys_mmap.
  destruct (Z.leb_spec len 0); [discriminate|].
  change (map_type_ok MAP_PRIVATE) with true. rewrite Zmod_0_l. cbn [negb Z.eqb].
  unfold mmap_backing. change (has_flag MAP_PRIVATE MAP_ANONYMOUS) with false.
  cbv iota. rewrite Hfd. change (Z.land O_RDWR O_ACCMODE =? O_WRONLY) with false.
  change (map_is_private MAP_PRIVATE) with true. cbv iota.
  unfold mmap_place. change (has_flag MAP_PRIVATE MAP_FIXED) with false.
  change (has_flag MAP_PRIVATE MAP_FIXED_NOREPLACE) with false. cbv iota.
  destruct (SIZE_WIDTH <? _); [discriminate|].
  intros [= <- <-].
  unfold MappedFile.data, MappedFile.size, MemoryMap.address, MemoryMap.size.
  cbn [MappedFile.m_mapped MemoryMap.m_address MemoryMap.m_size].
  intros x Hx. cbn [os_pages os_pagesize mmap_install set_vm].
  rewrite Hps2, Hh2 in *.
  set (ps := os_pagesize os) in *.
  assert (Hin : in_pages (os_hint os / ps) (pages_for os2 len) (x / ps) = true).
  { apply in_pages_true. unfold pages_for. rewrite Hps2. fold ps. split.
    - apply Z.div_le_mono; lia.
    - replace x with (os_hint os + (x - os_hint os)) by lia.
      rewrite div_aligned_add by (try apply Hal; lia).
      apply Z.add_lt_mono_l. apply Z.div_lt_upper_bound; [lia|].
      pose proof (Z.mul_succ_div_gt (len + ps - 1) ps Hps). lia. }
  rewrite Hin. eauto.
Qed.

(** ** Facts used by the theorems about sequences of calls *)

Lemma RM_resize_fields n r os r' os' :
  RM.resize n (r, os) = (Ok tt, (r', os')) ->
  RM.m_reserved r' = RM.m_reserved r /\ RM.m_size r' = n.
Proof.
  unfold RM.resize, pageSize. msimpl.
  destruct (RM.capacity r <? n); [discriminate|].
  repeat case_match; intros; simplify_eq; split; reflexivity.
Qed.

Lemma RM_ctor_fields init cap os r os1 :
  RM.ctor init cap os = (Ok r, os1) ->
  RM.m_reserved r = MemoryMap.Build cap (os_hint os) false /\ RM.m_size r = init.
Proof.
  unfold RM.ctor, MemoryMap.ctor. msimpl. fold RESERVE_FLAGS. rewrite reserve_run.
  destruct (cap <=? 0); [discriminate|].
  destruct (SIZE_WIDTH <? _); [discriminate|].
  change (negb (Z.land RESERVE_FLAGS (Z.lor MAP_FIXED MAP_FIXED_NOREPLACE) =? 0))
    with false.
  match goal with
  | |- context [RM.resize init ?s] => destruct (RM.resize init s) as [x [r1 os2]] eqn:Hr
  end.
  destruct x as [[]| |].
  - apply RM_resize_fields in Hr as [Hres Hsz]. intros [= <- <-].
    split; assumption.
  - destruct (RM.dtor r1 os2) as [[[]| |] ?]; discriminate.
  - discriminate.
Qed.

Lemma RMF_ctor_fields path cap os r os1 :
  RMF.ctor path cap os = (Ok r, os1) ->
  RMF.m_reserved r = MemoryMap.Build cap (os_hint os) false
  /\ RMF.data r = (if RMF.size r =? 0 then nullptr else os_hint os).
Proof.
  unfold RMF.ctor, MemoryMap.ctor. unfold bind at 1 2. unfold syscall.
  fold RESERVE_FLAGS. rewrite reserve_run.
  destruct (cap <=? 0); [discriminate|].
  destruct (SIZE_WIDTH <? _); [discriminate|].
  unfold ret at 1.
  change (negb (Z.land RESERVE_FLAGS (Z.lor MAP_FIXED MAP_FIXED_NOREPLACE) =? 0))
    with false.
  set (os1' := mmap_install _ _ _ _ _).
  set (resv := MemoryMap.Build cap (os_hint os) false).
  unfold bind at 1, unwinding.
  destruct (FileDescriptor.ctor path _ 438 os1') as [[file| |] os2].
  2:{ destruct (MemoryMap.dtor PROT_NONE resv os2) as [[[]| |] ?]; discriminate. }
  2:{ discriminate. }
  unfold RMF.construct, RMF.throwIfAbove.
  unfold bind at 1. unfold get_this at 1. cbn [fst snd].
  unfold bind at 1, on_os. cbn [fst snd RMF.m_file RMF.m_reserved].
  destruct (FileDescriptor.size file os2) as [[fsize| |] os3].
  2:{ destruct (RMF.dtor _ os3) as [[[]| |] ?]; discriminate. }
  2:{ discriminate. }
  unfold bind at 1.
  destruct (MemoryMap.size resv <? fsize).
  { unfold throw. destruct (RMF.dtor _ os3) as [[[]| |] ?]; discriminate. }
  unfold ret at 1.
  destruct (Z.eqb_spec fsize 0) as [->|Hnz].
  - unfold ret. intros [= <- <-]. split; reflexivity.
  - destruct (RMF.map fsize (RMF.Build resv file None, os3)) as [x [r1 os4]] eqn:Hm.
    destruct x as [[]| |].
    + apply RMF_map_ok in Hm as [_ ->]. intros [= <- <-].
      split; [reflexivity|]. cbn. unfold MemoryMap.size, MemoryMap.address. cbn.
      destruct (Z.eqb_spec fsize 0); [contradiction|reflexivity].
    + destruct (RMF.dtor r1 os4) as [[[]| |] ?]; discriminate.
    + discriminate.
Qed.

(** The law both resizable classes obey, and what it gives for a sequence
    of calls: after [resize(n)] the pointer is the base of the reservation,
    or null when [n] is 0. *)
Lemma resize_each_data {T} {C : concept.resizable_mapped_memory T} (base : T -> Z) :
  (forall n s s',
      concept.resize n s = (Ok tt, s') ->
      base (fst s') = base (fst s)
      /\ concept.data (fst s') = if n =? 0 then nullptr else base (fst s)) ->
  forall ns s obs s',
    concept.resize_each ns s = Some (obs, s') ->
    obs = map (fun n => if n =? 0 then nullptr else base (fst s)) ns
    /\ base (fst s') = base (fst s).
Proof.
  intros Hlaw. induction ns as [|n ns IH]; intros s obs s'; cbn [concept.resize_each].
  - intros [= <- <-]. split; reflexivity.
  - destruct (concept.resize n s) as [[[]| |] s1] eqn:Hr; try discriminate.
    destruct (concept.resize_each ns s1) as [[obs1 s2]|] eqn:Hrest; [|discriminate].
    intros [= <- <-]. destruct (Hlaw _ _ _ Hr) as [Hb Hd].
    destruct (IH _ _ _ Hrest) as [-> Hb']. rewrite Hb in *.
    split; [|assumption]. cbn [map]. rewrite Hd. reflexivity.
Qed.

Lemma RMF_resize_law n s s' :
  RMF.resize n s = (Ok tt, s') ->
  RMF_base (fst s') = RMF_base (fst s)
  /\ RMF.data (fst s') = if n =? 0 then nullptr else RMF_base (fst s).
Proof.
  destruct s as [r os], s' as [r' os']. intros Hr.
  apply RMF_resize_ok in Hr as (_ & Hres & _ & Hm & _).
  cbn [fst]. unfold RMF_base, RMF.data. rewrite Hres, Hm. split; [reflexivity|].
  destruct (n =? 0); reflexivity.
Qed.

Lemma RM_resize_law n s s' :
  RM.resize n s = (Ok tt, s') ->
  RM_base (fst s') = RM_base (fst s)
  /\ RM.data (fst s') = if n =? 0 then nullptr else RM_base (fst s).
Proof.
  destruct s as [r os], s' as [r' os']. intros Hr.
  apply RM_resize_fields in Hr as [Hres Hsz].
  cbn [fst]. unfold RM_base, RM.data, MemoryMap.address. rewrite Hres, Hsz.
  split; reflexivity.
Qed.

(** What the program can touch of a well-formed resizable memory. *)
Lemma RM_load os r j :
  RM_inv os r -> 0 <= j < round_up (os_pagesize os) (RM.capacity r) ->
  load os (RM_base r + j)
    = if j <? RM.m_mappedSize r then Some (os_mem os (RM_base r + j)) else None.
Proof.
  intros [Hps Hb Hal Hcap Hroom Hsz Hmapped Hpages] Hj.
  assert (Hjp : 0 <= j / os_pagesize os < pages_for os (RM.capacity r)).
  { split; [apply Z.div_pos; lia|].
    apply Z.div_lt_upper_bound; [lia|].
    rewrite Z.mul_comm. rewrite pages_for_round_up by assumption. lia. }
  set (ps := os_pagesize os) in *.
  unfold load. fold ps. rewrite div_aligned_add by (try apply Hal; lia).
  rewrite Hpages by lia. cbn [pg_prot pg_back].
  assert (Hm : RM.m_mappedSize r = ps * (RM.m_mappedSize r / ps)).
  { apply Z_div_exact_full_2; [lia|]. rewrite Hmapped. apply round_up_mod; lia. }
  destruct (Z.ltb_spec j (RM.m_mappedSize r)) as [Hlt|Hge].
  - assert (j / ps < RM.m_mappedSize r / ps).
    { apply Z.div_lt_upper_bound; lia. }
    destruct (Z.ltb_spec (RM_base r / ps + j / ps)
                         (RM_base r / ps + RM.m_mappedSize r / ps)); [|lia].
    reflexivity.
  - assert (RM.m_mappedSize r / ps <= j / ps).
    { apply Z.div_le_lower_bound; lia. }
    destruct (Z.ltb_spec (RM_base r / ps + j / ps)
                         (RM_base r / ps + RM.m_mappedSize r / ps)); [lia|].
    reflexivity.
Qed.

Lemma RM_inv_commitment os r :
  RM_inv os r -> RM_commitment os r (RM.size r).
Proof.
  intros Hinv. pose proof Hinv as [Hps Hb Hal Hcap Hroom Hsz Hmapped Hpages].
  unfold RM_commitment, RM.size. rewrite Hmapped.
  pose proof (round_up_bounds (os_pagesize os) (RM.m_size r) Hps).
  split_and!; try reflexivity; try lia.
  - apply round_up_mono; lia.
  - apply round_up_mod; assumption.
  - intros Hc. transitivity (round_up (os_pagesize os) (RM.capacity r)).
    + apply round_up_mono; lia.
    + unfold round_up.
      replace (RM.capacity r + os_pagesize os - 1)
        with (RM.capacity r + (os_pagesize os - 1)) by lia.
      apply Z.mod_divide in Hc; [|lia]. destruct Hc as [k ->].
      rewrite Z.div_add_l by lia. rewrite Z.div_small by lia. lia.
  - intros j Hj. rewrite (RM_load os r j Hinv Hj). rewrite Hmapped.
    destruct (Z.ltb_spec j (round_up (os_pagesize os) (RM.m_size r))).
    + split; [intros _; assumption|eauto].
    + split; [intros [x Hx]; discriminate|lia].
Qed.

Lemma files_off_t_boot ps hint files :
  map_Forall (fun _ data => Z.of_nat (length data) < 2 ^ 63) files ->
  files_off_t (os_boot ps hint files).
Proof. intros H. exact H. Qed.

(** ** Running a scenario: an outcome that was computed names its state *)

Lemma run_result {A S} (x : result A * S) (a : A) :
  fst x = Ok a -> x = (Ok a, snd x).
Proof. destruct x as [y s]. cbn. intros ->. reflexivity. Qed.

Lemma run_result_pair {A S1 S2} (x : result A * (S1 * S2)) (a : A) :
  fst x = Ok a -> x = (Ok a, (fst (snd x), snd (snd x))).
Proof. destruct x as [y [s1 s2]]. cbn. intros ->. reflexivity. Qed.

Lemma run_throw_pair {A S1 S2} (x : result A * (S1 * S2)) (e : exn) :
  fst x = Throw e -> x = (Throw e, (fst (snd x), snd (snd x))).
Proof. destruct x as [y [s1 s2]]. cbn. intros ->. reflexivity. Qed.

Lemma run_option {A B} (d : A * B) (o : option (A * B)) :
  is_some o = true -> o = Some (fst (default d o), snd (default d o)).
Proof. destruct o as [[a b]|]; [reflexivity|discriminate]. Qed.

Lemma run_observed {A B} (d : A * B) (o : option (A * B)) (a : A) :
  fst <$> o = Some a -> o = Some (a, snd (default d o)).
Proof. destruct o as [[a' b]|]; cbn; [intros [= ->]; reflexivity|discriminate]. Qed.

(** * The scenarios of the specification, run on the model *)

Example scenario_S1_observed : scenario_S1 = Some (4, Some (le32 42)).
Proof. vm_compute. reflexivity. Qed.

Example scenario_S3_observed :
  scenario_S3
    = Some ([(4096000, 13, Some hello); (4096000, 1500, Some hello);
             (4096000, 4096, Some hello)],
            Some 4096, (4096, Some EOF_bytes)).
Proof. vm_compute. reflexivity. Qed.

Example scenario_S4_observed :
  scenario_S4 = Some (Throw bad_alloc, Ok tt, Throw bad_alloc).
Proof. vm_compute. reflexivity. Qed.

Example scenario_S5_observed :
  scenario_S5
    = Some (4096000, [4096000; 4096000; 4096000],
            Some [1; 2; 3; 4; 5; 6; 14; 15],
            Some [1; 2; 3; 4; 5; 6; 14],
            Some [1; 2]).
Proof. vm_compute. reflexivity. Qed.

(** * The claims *)

(** C1 (amended).  Address stability.  Let [base] be the address of the
    reservation of a [ResizableMappedFile] or [ResizableMappedMemory].
    Before the first [resize], [data()] is [base] if [size()] is not 0 and
    null if it is 0; after every successful [resize(n)] of a sequence,
    [data()] is [base] if [n] is not 0 and null if [n] is 0.  So all
    observations made at a size other than 0 give one pointer, [base], and
    every observation at size 0 gives null: after [resize(0)], and also
    after construction on an empty file or with initial size 0. *)
Theorem resize_data_is_base_or_null :
  (forall path cap os r os1 ns obs s',
      RMF.ctor path cap os = (Ok r, os1) ->
      concept.resize_each ns (r, os1) = Some (obs, s') ->
      MemoryMap.address (RMF.m_reserved r) = os_hint os
      /\ RMF.data r = (if RMF.size r =? 0 then nullptr else os_hint os)
      /\ obs = map (fun n => if n =? 0 then nullptr else os_hint os) ns)
  /\
  (forall init cap os r os1 ns obs s',
      RM.ctor init cap os = (Ok r, os1) ->
      concept.resize_each ns (r, os1) = Some (obs, s') ->
      MemoryMap.address (RM.m_reserved r) = os_hint os
      /\ RM.data r = (if RM.size r =? 0 then nullptr else os_hint os)
      /\ obs = map (fun n => if n =? 0 then nullptr else os_hint os) ns).
Proof.
  split.
  - intros path cap os r os1 ns obs s' Hc Hrun.
    apply RMF_ctor_fields in Hc as [Hres Hdata].
    destruct (resize_each_data (C := resizable_file) RMF_base RMF_resize_law ns _ _ _ Hrun) as [-> _].
    cbn [fst]. unfold RMF_base, MemoryMap.address. rewrite Hres. cbn.
    split_and!; [reflexivity|exact Hdata|reflexivity].
  - intros init cap os r os1 ns obs s' Hc Hrun.
    apply RM_ctor_fields in Hc as [Hres Hsz].
    destruct (resize_each_data (C := resizable_memory) RM_base RM_resize_law ns _ _ _ Hrun) as [-> _].
    cbn [fst]. unfold RM_base, RM.data, RM.size, MemoryMap.address. rewrite Hres. cbn.
    split_and!; reflexivity.
Qed.

Lemma resize_data_is_base_or_null_witness :
  observe_file "t2" 1500 [13; 1500; 0; 7] os_demo
    = Some (0, [4096000; 4096000; 0; 4096000])
  /\ (RM.data demo_mem_r0 = 4096000
      /\ fst <$> concept.resize_each [0; 13; 10000] (demo_mem_r0, demo_mem_os1)
         = Some [0; 4096000; 4096000]).
Proof.
  destruct resize_data_is_base_or_null as [Hfile Hmem]. split.
  - assert (Hc : RMF.ctor "t2" 1500 os_demo = (Ok demo_file_r0, demo_file_os1)).
    { apply run_result. vm_compute. reflexivity. }
    assert (Hs : is_some (concept.resize_each [13; 1500; 0; 7]
                            (demo_file_r0, demo_file_os1)) = true).
    { vm_compute. reflexivity. }
    apply (run_option ([], (demo_file_r0, demo_file_os1))) in Hs.
    destruct (Hfile _ _ _ _ _ _ _ _ Hc Hs) as (_ & Hd & Hobs).
    unfold observe_file. rewrite Hc, Hs, Hobs. reflexivity.
  - assert (Hc : RM.ctor 1 10000 os_demo = (Ok demo_mem_r0, demo_mem_os1)).
    { apply run_result. vm_compute. reflexivity. }
    assert (Hs : is_some (concept.resize_each [0; 13; 10000]
                            (demo_mem_r0, demo_mem_os1)) = true).
    { vm_compute. reflexivity. }
    apply (run_option ([], (demo_mem_r0, demo_mem_os1))) in Hs.
    destruct (Hmem _ _ _ _ _ _ _ _ Hc Hs) as (_ & Hd & Hobs).
    split; [exact Hd|]. rewrite Hs. cbn [fmap option_fmap option_map fst].
    rewrite Hobs. reflexivity.
Defined.

(** C1 as stated fails: a resizable file of capacity 1500 on a new path
    gives [data() = null]; [resize(13)], with 13 <= 1500 and no
    [resize(0)] anywhere, returns, and then [data()] is the base of the
    reservation, another value.  (The test-suite expects just this:
    [EXPECT_EQ(file.data(), nullptr)] before the first [resize].) *)
Lemma data_differs_across_first_resize :
  exists before after,
    observe_file "t2" 1500 [13] os_demo = Some (before, [after])
    /\ 13 <= 1500 /\ 13 <> 0 /\ before <> after.
Proof.
  exists 0, 4096000. split; [vm_compute; reflexivity|]. split_and!; discriminate.
Qed.



(** C3.  Capacity enforcement, atomically: [resize(n)] with [n] above the
    capacity throws [std::bad_alloc] and leaves the object and the kernel
    state (so [data()], [size()], [capacity()] and every file) exactly as
    they were; for the file and for the memory class. *)
Theorem resize_above_capacity_throws :
  (forall r os n,
      RMF.capacity r < n ->
      RMF.resize n (r, os) = (Throw bad_alloc, (r, os)))
  /\ (forall r os n,
      RM.capacity r < n ->
      RM.resize n (r, os) = (Throw bad_alloc, (r, os))).
Proof.
  split; intros r os n H; [apply RMF_resize_throw|apply RM_resize_throw]; exact H.
Qed.

Lemma resize_above_capacity_throws_witness :
  RMF.resize 1501 (fst demo_file, snd demo_file)
    = (Throw bad_alloc, (fst demo_file, snd demo_file))
  /\ RM.resize 10001 (fst demo_mem, snd demo_mem)
    = (Throw bad_alloc, (fst demo_mem, snd demo_mem)).
Proof.
  assert (Hf : RMF.capacity (fst demo_file) < 1501) by (vm_compute; reflexivity).
  assert (Hm : RM.capacity (fst demo_mem) < 10001) by (vm_compute; reflexivity).
  exact (conj (proj1 resize_above_capacity_throws _ (snd demo_file) _ Hf)
              (proj2 resize_above_capacity_throws _ (snd demo_mem) _ Hm)).
Defined.

(** C4.  A successful [resize(size_new)] of a [ResizableMappedMemory]
    keeps the retained prefix: every byte at an offset below
    [min(size_old, size_new)] reads after the call what it read before.
    The object is any that its constructor built and a client then
    resized and wrote to. *)
Theorem resize_memory_keeps_prefix :
  forall os0 init cap r0 os1 ops r os n r' os' k,
    os_wf os0 -> is_size_t init = true ->
    RM.ctor init cap os0 = (Ok r0, os1) ->
    client_run ops (r0, os1) = Some (r, os) ->
    is_size_t n = true ->
    RM.resize n (r, os) = (Ok tt, (r', os')) ->
    0 <= k < Z.min (RM.size r) n ->
    exists b,
      load os (RM.data r + k) = Some b /\ load os' (RM.data r' + k) = Some b.
Proof.
  intros os0 init cap r0 os1 ops r os n r' os' k Hwf Hinit%is_size_t_spec
         Hc Hrun Hn%is_size_t_spec Hr Hk.
  apply RM_ctor_ok in Hc as (Hinv0 & _); [|assumption|lia].
  apply RM_run_inv in Hrun as [Hinv _]; [|assumption].
  destruct (Z.lt_ge_cases (RM.capacity r) n) as [Hgt|Hle].
  { rewrite RM_resize_throw in Hr by assumption. discriminate. }
  destruct (RM_resize_run os r n Hinv ltac:(lia)) as (os2 & Hrun2 & Hinv' & Hfr).
  rewrite Hrun2 in Hr. injection Hr as <- <-.
  unfold RM.size in Hk.
  pose proof Hinv as [Hps Hb Hal Hcap Hroom Hsz Hmapped Hpages].
  pose proof (round_up_bounds (os_pagesize os) (RM.m_size r) Hps) as Hb1.
  pose proof (round_up_bounds (os_pagesize os) n Hps) as Hb2.
  pose proof (round_up_mono (os_pagesize os) n (RM.capacity r) Hps Hle) as Hm2.
  assert (Hps' : os_pagesize os2 = os_pagesize os) by apply Hfr.
  unfold RM.data, MemoryMap.address. cbn [RM.m_size RM.m_reserved].
  destruct (Z.eqb_spec (RM.m_size r) 0); [lia|].
  destruct (Z.eqb_spec n 0); [lia|].
  fold (RM_base r).
  exists (os_mem os (RM_base r + k)). split.
  - rewrite (RM_load os r k Hinv) by lia. rewrite Hmapped.
    destruct (Z.ltb_spec k (round_up (os_pagesize os) (RM.m_size r))); [reflexivity|lia].
  - pose proof (RM_load os2 _ k Hinv') as Hl. cbn [RM.m_mappedSize] in Hl.
    unfold RM_base, RM.capacity in Hl. cbn [RM.m_reserved] in Hl.
    fold (RM_base r) (RM.capacity r) in Hl. rewrite Hps' in Hl.
    rewrite Hl by lia.
    destruct (Z.ltb_spec k (round_up (os_pagesize os) n)); [|lia].
    f_equal. apply (rmf_mem _ _ _ _ Hfr). cbn [RM.m_mappedSize].
    rewrite div_aligned_add by (try apply Hal; lia).
    apply Z.add_lt_mono_l. apply Z.div_lt_upper_bound; [lia|].
    rewrite Hmapped.
    assert (Hmin : Z.min (round_up (os_pagesize os) (RM.m_size r))
                         (round_up (os_pagesize os) n) mod os_pagesize os = 0).
    { destruct (Z.min_spec (round_up (os_pagesize os) (RM.m_size r))
                           (round_up (os_pagesize os) n)) as [[_ ->]|[_ ->]];
        apply round_up_mod; assumption. }
    apply Z_div_exact_full_2 in Hmin; [|lia]. rewrite <- Hmin. lia.
Qed.

Lemma resize_memory_keeps_prefix_witness :
  exists b,
    load (snd demo_mem) (RM.data (fst demo_mem) + 12) = Some b
    /\ load (snd (snd demo_mem_step)) (RM.data (fst (snd demo_mem_step)) + 12)
       = Some b.
Proof.
  assert (Hwf : os_wf os_demo) by (vm_compute; repeat split).
  assert (Hc : fst (RM.ctor 1 10000 os_demo) = Ok demo_mem_r0)
    by (vm_compute; reflexivity).
  assert (Hrun : is_some (client_run demo_ops (demo_mem_r0, demo_mem_os1)) = true)
    by (vm_compute; reflexivity).
  assert (Hr : fst demo_mem_step = Ok tt) by (vm_compute; reflexivity).
  assert (Hk : 0 <= 12 < Z.min (RM.size (fst demo_mem)) 100)
    by (vm_compute; split; [discriminate|reflexivity]).
  exact (resize_memory_keeps_prefix os_demo 1 10000 demo_mem_r0 demo_mem_os1
           demo_ops (fst demo_mem) (snd demo_mem) 100 _ _ 12
           Hwf eq_refl (run_result _ _ Hc)
           (run_option (demo_mem_r0, demo_mem_os1) _ Hrun)
           eq_refl (run_result_pair demo_mem_step tt Hr) Hk).
Defined.

(** C5 (amended).  Construction on an existing file longer than the
    capacity never yields an object and modifies no file.  It fails with
    [std::bad_alloc] whenever the capacity is not 0 and the address space
    has room for the reservation; with capacity 0 the reservation itself is
    refused first, and the failure is a mapping error. *)
Theorem oversized_file_ctor_fails :
  forall path cap os data res os',
    os_files os !! path = Some data ->
    cap < Z.of_nat (length data) < 2 ^ 63 ->
    RMF.ctor path cap os = (res, os') ->
    (forall r, res <> Ok r)
    /\ os_files os' = os_files os
    /\ (os_wf os -> 0 < cap -> os_room os cap -> res = Throw bad_alloc)
    /\ (cap = 0 -> res = Throw (mapping_error EINVAL)).
Proof.
  intros path cap os data res os' Hf Hlen Hc.
  destruct (RMF_ctor_oversized path cap os data res os' Hf Hlen Hc) as (H1 & H2 & H3).
  split_and!; try assumption.
  intros ->. revert Hc. unfold RMF.ctor, MemoryMap.ctor. msimpl.
  change (sys_mmap nullptr 0 PROT_NONE
            (Z.lor MAP_PRIVATE (Z.lor MAP_ANONYMOUS MAP_NORESERVE)) (-1) 0 os)
    with (@inl errno Z EINVAL, os).
  intros [= <- <-]. reflexivity.
Qed.

Lemma oversized_file_ctor_fails_witness :
  fst (RMF.ctor "test.dat" 3 os_demo) = Throw bad_alloc
  /\ os_files (snd (RMF.ctor "test.dat" 3 os_demo)) = os_files os_demo.
Proof.
  assert (Hf : os_files os_demo !! "test.dat"%string = Some (le32 42))
    by (vm_compute; reflexivity).
  assert (Hlen : 3 < Z.of_nat (length (le32 42)) < 2 ^ 63)
    by (vm_compute; split; reflexivity).
  assert (Hwf : os_wf os_demo) by (vm_compute; repeat split).
  assert (Hroom : os_room os_demo 3) by (vm_compute; discriminate).
  destruct (oversized_file_ctor_fails "test.dat" 3 os_demo (le32 42)
              (fst (RMF.ctor "test.dat" 3 os_demo))
              (snd (RMF.ctor "test.dat" 3 os_demo)) Hf Hlen
              (surjective_pairing _)) as (_ & Hfiles & Hbad & _).
  split; [apply Hbad; [exact Hwf|reflexivity|exact Hroom]|exact Hfiles].
Defined.

(** C5 as stated fails at capacity 0: the file has 4 bytes, 0 < 4, and
    the constructor throws the mapping error of the refused zero-length
    reservation, not [std::bad_alloc]. *)
Lemma oversized_file_zero_capacity :
  file_length os_demo "test.dat" = Some 4
  /\ 0 < 4
  /\ fst (RMF.ctor "test.dat" 0 os_demo) = Throw (mapping_error EINVAL)
  /\ fst (RMF.ctor "test.dat" 0 os_demo) <> Throw bad_alloc.
Proof.
  split_and!; [vm_compute; reflexivity|reflexivity|vm_compute; reflexivity|].
  vm_compute. discriminate.
Qed.

(** Whatever is stored inside a
    writable whole-file mapping made with the default flags, no file has
    changed when the mapping is dropped. *)
Lemma writable_file_never_reaches_file :
  forall os path f os1 k bs os2 res os3,
    os_wf os ->
    MappedFile.open true path os = (Ok f, os1) ->
    0 <= k -> k + Z.of_nat (length bs) <= MappedFile.size f ->
    store_bytes os1 (MappedFile.data f + k) bs = Some os2 ->
    MappedFile.dtor true f os2 = (res, os3) ->
    os_files os3 = os_files os.
Proof.
  intros os path f os1 k bs os2 res os3 Hwf Hopen Hk Hend Hst Hd.
  apply MappedFile_open_private in Hopen as [Hf1 Hpriv]; [|assumption].
  apply (store_bytes_private bs os1 _ os2 (MappedFile.size f) (MappedFile.data f) Hpriv)
    in Hst as (Hf2 & _); [|lia|lia].
  apply MappedFile_dtor_files in Hd. congruence.
Qed.

(** C6 (the code at the failing input).  The fixture file holds the
    little-endian 42.  Opened through [MappedFile<true>(path)], overwritten
    at [data()] with the little-endian 123, and dropped, the file still
    decodes to 42: the constructor's default [mapFlags] is [MAP_PRIVATE],
    and the stores went to private copies of the pages. *)
Theorem writable_file_write_not_persisted :
  (decode_le <$> write_through_mapping os_demo "test.dat" (le32 123)) = Some 42
  /\ (decode_le <$> write_through_mapping_with MAP_SHARED os_demo "test.dat" (le32 123))
     = Some 123.
Proof. split; vm_compute; reflexivity. Qed.

(** C7 (amended).  The commitment of a [ResizableMappedMemory].  After
    construction with [initialSize], and after every successful
    [resize(n)], [size()] is that size; the committed length
    [m_mappedSize] is the size rounded up to whole pages, a multiple of the
    page size, at least the size and at most the capacity rounded up to
    whole pages (so at most the capacity when that is a multiple of the
    page size); the accessible bytes of the reservation are exactly those
    below the committed length; and when the rounded size equals the
    previous committed length the call changes nothing but [m_size]. *)
Theorem memory_commitment :
  (forall os0 init cap r0 os1,
      os_wf os0 -> is_size_t init = true ->
      RM.ctor init cap os0 = (Ok r0, os1) ->
      RM_commitment os1 r0 init)
  /\
  (forall os0 init cap r0 os1 ops r os n r' os',
      os_wf os0 -> is_size_t init = true ->
      RM.ctor init cap os0 = (Ok r0, os1) ->
      client_run ops (r0, os1) = Some (r, os) ->
      is_size_t n = true ->
      RM.resize n (r, os) = (Ok tt, (r', os')) ->
      RM_commitment os' r' n
      /\ RM.capacity r' = cap
      /\ (round_up (os_pagesize os) n = RM.m_mappedSize r ->
          os' = os /\ r' = RM.Build (RM.m_reserved r) n (RM.m_mappedSize r))).
Proof.
  split.
  - intros os0 init cap r0 os1 Hwf Hinit%is_size_t_spec Hc.
    apply RM_ctor_ok in Hc as (Hinv & _ & Hsz & _); [|assumption|lia].
    rewrite <- Hsz. apply RM_inv_commitment. assumption.
  - intros os0 init cap r0 os1 ops r os n r' os' Hwf Hinit%is_size_t_spec
           Hc Hrun Hn%is_size_t_spec Hr.
    apply RM_ctor_ok in Hc as (Hinv0 & Hres0 & _); [|assumption|lia].
    apply RM_run_inv in Hrun as [Hinv Hres]; [|assumption].
    destruct (Z.lt_ge_cases (RM.capacity r) n) as [Hgt|Hle].
    { rewrite RM_resize_throw in Hr by assumption. discriminate. }
    destruct (RM_resize_run os r n Hinv ltac:(lia)) as (os2 & Hrun2 & Hinv' & Hfr).
    rewrite Hrun2 in Hr. injection Hr as <- <-.
    split_and!.
    + apply (RM_inv_commitment os2 _ Hinv').
    + unfold RM.capacity, MemoryMap.size. cbn [RM.m_reserved].
      rewrite Hres, Hres0. reflexivity.
    + intros Heq. split.
      * apply (rmf_same _ _ _ _ Hfr). cbn [RM.m_mappedSize]. exact Heq.
      * rewrite Heq. reflexivity.
Qed.

Lemma memory_commitment_witness :
  RM_commitment demo_mem_os1 demo_mem_r0 1
  /\ RM_commitment (snd (snd demo_mem_step)) (fst (snd demo_mem_step)) 100.
Proof.
  assert (Hwf : os_wf os_demo) by (vm_compute; repeat split).
  assert (Hc : fst (RM.ctor 1 10000 os_demo) = Ok demo_mem_r0)
    by (vm_compute; reflexivity).
  assert (Hrun : is_some (client_run demo_ops (demo_mem_r0, demo_mem_os1)) = true)
    by (vm_compute; reflexivity).
  assert (Hr : fst demo_mem_step = Ok tt) by (vm_compute; reflexivity).
  exact (conj
           (proj1 memory_commitment os_demo 1 10000 demo_mem_r0 demo_mem_os1
              Hwf eq_refl (run_result _ _ Hc))
           (proj1 (proj2 memory_commitment os_demo 1 10000 demo_mem_r0 demo_mem_os1
                     demo_ops (fst demo_mem) (snd demo_mem) 100 _ _
                     Hwf eq_refl (run_result _ _ Hc)
                     (run_option (demo_mem_r0, demo_mem_os1) _ Hrun)
                     eq_refl (run_result_pair demo_mem_step tt Hr)))).
Defined.

(** C7 as stated fails where it bounds the committed length by the
    capacity: with 4096-byte pages and capacity 10000 (the values of the
    [ResizeMemory] test), [resize(10000)] returns and commits 12288 bytes,
    more than the capacity. *)
Lemma mapped_size_exceeds_capacity :
  let s := RM.resize 10000 (demo_mem_r0, demo_mem_os1) in
  fst (RM.ctor 1 10000 os_demo) = Ok demo_mem_r0
  /\ fst s = Ok tt
  /\ RM.capacity (fst (snd s)) = 10000
  /\ RM.m_mappedSize (fst (snd s)) = 12288
  /\ ~ (RM.m_mappedSize (fst (snd s)) <= RM.capacity (fst (snd s))).
Proof.
  cbv zeta. split_and!; try (vm_compute; reflexivity).
  vm_compute. intros H. apply H. reflexivity.
Qed.



(** C9 (amended).  A whole-file mapping of an existing empty file, read-only
    or writable and with any mapping flags, is not constructed: the
    constructor throws the mapping error of the refused zero-length
    [mmap], and leaves the files and the address space as they were. *)
Theorem mapped_file_empty_fails :
  forall Writable path flags os,
    os_files os !! path = Some [] ->
    exists os',
      MappedFile.ctor Writable path flags os = (Throw (mapping_error EINVAL), os')
      /\ os_files os' = os_files os /\ os_pages os' = os_pages os.
Proof. intros. apply MappedFile_ctor_empty. assumption. Qed.

Lemma mapped_file_empty_fails_witness :
  exists os',
    MappedFile.ctor true "empty.dat" MAP_PRIVATE os_demo_empty
      = (Throw (mapping_error EINVAL), os')
    /\ os_files os' = os_files os_demo_empty
    /\ os_pages os' = os_pages os_demo_empty.
Proof.
  apply (mapped_file_empty_fails true "empty.dat" MAP_PRIVATE os_demo_empty).
  vm_compute. reflexivity.
Defined.

(** C9 as stated fails: on the empty file neither the read-only nor the
    writable mapping is constructed with size 0; both constructors throw. *)
Lemma empty_file_mapping_throws :
  file_length os_demo_empty "empty.dat" = Some 0
  /\ fst (MappedFile.open false "empty.dat" os_demo_empty)
     = Throw (mapping_error EINVAL)
  /\ fst (MappedFile.open true "empty.dat" os_demo_empty)
     = Throw (mapping_error EINVAL).
Proof. split_and!; vm_compute; reflexivity. Qed.

(** C10.  For a [ResizableMappedMemory] that its constructor built and a
    client then resized and wrote to: [data()] is null exactly when
    [size()] is 0, and is the base of the reservation whenever [size()]
    is positive; the base is where the kernel put the reservation and is
    not null.  Constructed with initial size 0, the object has
    [data() = null] and [size() = 0] although every page of the
    reservation is mapped. *)
Theorem memory_data_null_iff_empty :
  (forall os0 init cap r0 os1 ops r os,
      os_wf os0 -> is_size_t init = true ->
      RM.ctor init cap os0 = (Ok r0, os1) ->
      client_run ops (r0, os1) = Some (r, os) ->
      (RM.data r = nullptr <-> RM.size r = 0)
      /\ (0 < RM.size r -> RM.data r = MemoryMap.address (RM.m_reserved r))
      /\ MemoryMap.address (RM.m_reserved r) = os_hint os0
      /\ MemoryMap.address (RM.m_reserved r) <> nullptr)
  /\
  (forall os0 cap r0 os1,
      os_wf os0 ->
      RM.ctor 0 cap os0 = (Ok r0, os1) ->
      RM.data r0 = nullptr /\ RM.size r0 = 0
      /\ all_mapped os1 (os_hint os0 / os_pagesize os1) (pages_for os1 cap) = true).
Proof.
  split.
  - intros os0 init cap r0 os1 ops r os Hwf Hinit%is_size_t_spec Hc Hrun.
    pose proof Hwf as (_ & Hh & _).
    apply RM_ctor_ok in Hc as (Hinv0 & Hres0 & _); [|assumption|lia].
    apply RM_run_inv in Hrun as [Hinv Hres]; [|assumption].
    unfold RM.data, RM.size, MemoryMap.address, nullptr. rewrite Hres, Hres0. cbn.
    destruct (Z.eqb_spec (RM.m_size r) 0) as [Hz|Hnz].
    + split_and!; [tauto|lia|reflexivity|lia].
    + split_and!; [split; intros; lia|reflexivity|reflexivity|lia].
  - intros os0 cap r0 os1 Hwf Hc.
    apply RM_ctor_ok in Hc as (Hinv & Hres & Hsz & _); [|assumption|lia].
    unfold RM.data, RM.size. rewrite Hsz. split_and!; try reflexivity.
    destruct Hinv as [_ _ _ _ _ _ _ Hpages].
    unfold RM_base, RM.capacity, MemoryMap.size in Hpages. rewrite Hres in Hpages.
    cbn in Hpages. apply all_mapped_intro. intros p Hp.
    rewrite Hpages by exact Hp. eauto.
Qed.

Lemma memory_data_null_iff_empty_witness :
  ((RM.data (fst demo_mem) = nullptr <-> RM.size (fst demo_mem) = 0)
   /\ (0 < RM.size (fst demo_mem)
       -> RM.data (fst demo_mem) = MemoryMap.address (RM.m_reserved (fst demo_mem)))
   /\ MemoryMap.address (RM.m_reserved (fst demo_mem)) = os_hint os_demo
   /\ MemoryMap.address (RM.m_reserved (fst demo_mem)) <> nullptr)
  /\ fst (RM.ctor 0 10000 os_demo)
     = Ok (RM.Build (MemoryMap.Build 10000 4096000 false) 0 0).
Proof.
  assert (Hwf : os_wf os_demo) by (vm_compute; repeat split).
  assert (Hc : fst (RM.ctor 1 10000 os_demo) = Ok demo_mem_r0)
    by (vm_compute; reflexivity).
  assert (Hrun : is_some (client_run demo_ops (demo_mem_r0, demo_mem_os1)) = true)
    by (vm_compute; reflexivity).
  split.
  - exact (proj1 memory_data_null_iff_empty os_demo 1 10000 demo_mem_r0 demo_mem_os1
             demo_ops (fst demo_mem) (snd demo_mem)
             Hwf eq_refl (run_result _ _ Hc)
             (run_option (demo_mem_r0, demo_mem_os1) _ Hrun)).
  - vm_compute. reflexivity.
Defined.

(** * Beyond the claims: more of the code *)

(** ** [ResizableMappedFile::resize] runs *)

(** [resize(n)] within the capacity, on a well-formed object: it returns,
    and the file is cut or zero-extended to [n] bytes. *)
Lemma RMF_resize_run os r n path fl data :
  RMF_inv os r -> 0 <= n <= RMF.capacity r -> n < 2 ^ 63 ->
  os_fds os !! FileDescriptor.m_fd (RMF.m_file r) = Some (path, fl) ->
  os_files os !! path = Some data ->
  exists os',
    RMF.resize n (r, os)
      = (Ok tt, (RMF.Build (RMF.m_reserved r) (RMF.m_file r)
                   (if n =? 0 then None
                    else Some (MemoryMap.Build n (RMF_base r) true)), os'))
    /\ RMF_inv os' (RMF.Build (RMF.m_reserved r) (RMF.m_file r)
                      (if n =? 0 then None
                       else Some (MemoryMap.Build n (RMF_base r) true)))
    /\ os_files os' = <[path := resize (Z.to_nat n) 0 data]> (os_files os)
    /\ os_fds os' = os_fds os.
Proof.
  intros Hinv Hn H63 Hfd0 Hdata.
  unfold RMF.resize, RMF.throwIfAbove.
  unfold bind at 1. unfold get_this at 1. cbn [fst snd].
  unfold bind at 1. fold (RMF.capacity r).
  destruct (Z.ltb_spec (RMF.capacity r) n); [lia|].
  unfold ret at 1. unfold bind at 1.
  destruct (RMF_reset_run os r Hinv) as (os1 & Hreset & Hinv1 & Hfiles1).
  pose proof (RMF_reset_mapped_spec _ _ _ _ _ Hreset) as ([_ _ Hfds1 _] & _).
  rewrite Hreset.
  set (r1 := RMF.Build (RMF.m_reserved r) (RMF.m_file r) None) in *.
  unfold bind at 1, on_os, FileDescriptor.truncate, syscall. cbn [fst snd].
  pose proof Hinv1 as [Hps Hal Hcap Hroom Hresv (path' & fl' & Hfd & Hacc & Hf & _)].
  cbn [RMF.m_file r1] in Hfd. rewrite Hfds1, Hfd0 in Hfd. injection Hfd as <- <-.
  unfold sys_ftruncate. rewrite Hfds1, Hfd0, Hacc.
  change (O_RDWR =? O_RDONLY) with false. cbn [orb].
  assert (Hoff : to_off_t n = n).
  { unfold to_off_t. rewrite wrap64_small by (unfold SIZE_WIDTH; lia).
    destruct (Z.ltb_spec n (2 ^ 63)); [reflexivity|lia]. }
  rewrite Hoff. destruct (Z.ltb_spec n 0); [lia|].
  rewrite Hfiles1, Hdata.
  set (os2 := set_files _ os1).
  assert (Hinv2 : RMF_inv os2 r1).
  { constructor; try assumption.
    exists path, fl. split_and!.
    - cbn. rewrite Hfds1. assumption.
    - assumption.
    - unfold os2. cbn. rewrite lookup_insert_eq. eauto.
    - exact I. }
  assert (Hlen2 : file_length os2 path = Some n).
  { unfold file_length, os2. cbn. rewrite lookup_insert_eq. cbn.
    rewrite length_resize. f_equal. lia. }
  destruct (Z.eqb_spec n 0) as [->|Hnz].
  - unfold ret. exists os2. split_and!; [reflexivity|assumption| |].
    + reflexivity.
    + cbn. assumption.
  - destruct (RMF_map_run os2 (RMF.m_reserved r) (RMF.m_file r) n path fl)
      as (os3 & Hrun & Hinv3 & Hfiles3); try assumption.
    { unfold RMF.capacity in *. cbn. lia. }
    { cbn. rewrite Hfds1. assumption. }
    fold r1 in Hrun. rewrite Hrun. exists os3.
    split_and!; [reflexivity|assumption| |].
    + rewrite Hfiles3. reflexivity.
    + pose proof (RMF_map_ok _ _ _ _ _ Hrun) as ([_ _ Hfds3 _] & _).
      rewrite Hfds3. cbn. assumption.
Qed.

(** ** What no call of the library changes *)

(** ** Relations between kernel states that every call of a method keeps *)

Section Keeps.

Variable R : os_state -> os_state -> Prop.
Hypothesis R_refl : forall os, R os os.
Hypothesis R_trans : forall a b c, R a b -> R b c -> R a c.

Lemma keeps_ret {A} (a : A) : keeps R (ret a).
Proof. intros os res os' [= <- <-]. apply R_refl. Qed.

Lemma keeps_throw {A} e : keeps R (@throw os_state A e).
Proof. intros os res os' [= <- <-]. apply R_refl. Qed.

Lemma keeps_bind {A B} (m : M os_state A) (k : A -> M os_state B) :
  keeps R m -> (forall a, keeps R (k a)) -> keeps R (bind m k).
Proof.
  intros Hm Hk os res os'. unfold bind.
  destruct (m os) as [[a| |] os1] eqn:E; specialize (Hm _ _ _ E).
  - intros H. eapply R_trans; [exact Hm|]. eapply Hk. exact H.
  - intros [= <- <-]. exact Hm.
  - intros [= <- <-]. exact Hm.
Qed.

Lemma keeps_noexcept {A} (m : M os_state A) : keeps R m -> keeps R (noexcept m).
Proof.
  intros Hm os res os'. unfold noexcept.
  destruct (m os) as [[a| |] os1] eqn:E; specialize (Hm _ _ _ E);
    intros [= <- <-]; exact Hm.
Qed.

Lemma keeps_unwinding {A} (c : M os_state unit) (m : M os_state A) :
  keeps R c -> keeps R m -> keeps R (unwinding c m).
Proof.
  intros Hc Hm os res os'. unfold unwinding.
  destruct (m os) as [[a| |] os1] eqn:E; specialize (Hm _ _ _ E).
  - intros [= <- <-]. exact Hm.
  - destruct (c os1) as [[u| |] os2] eqn:E2; specialize (Hc _ _ _ E2);
      intros [= <- <-]; eapply R_trans; eassumption.
  - intros [= <- <-]. exact Hm.
Qed.

Lemma keeps_syscall {A} err (c : os_state -> (errno + A) * os_state) :
  (forall os res os', c os = (res, os') -> R os os') -> keeps R (syscall err c).
Proof.
  intros Hc os res os'. unfold syscall.
  destruct (c os) as [[e|a] os1] eqn:E; specialize (Hc _ _ _ E);
    intros [= <- <-]; exact Hc.
Qed.

Lemma keeps_syscall_ignored {A} (c : os_state -> (errno + A) * os_state) :
  (forall os res os', c os = (res, os') -> R os os') -> keeps R (syscall_ignored c).
Proof.
  intros Hc os res os'. unfold syscall_ignored.
  destruct (c os) as [x os1] eqn:E; specialize (Hc _ _ _ E).
  intros [= <- <-]. exact Hc.
Qed.

Lemma keeps_on_ret {O A} (a : A) : keeps_on R (@ret (O * os_state) A a).
Proof. intros s res s' [= <- <-]. apply R_refl. Qed.

Lemma keeps_on_throw {O A} e : keeps_on R (@throw (O * os_state) A e).
Proof. intros s res s' [= <- <-]. apply R_refl. Qed.

Lemma keeps_on_bind {O A B} (m : M (O * os_state) A) (k : A -> M (O * os_state) B) :
  keeps_on R m -> (forall a, keeps_on R (k a)) -> keeps_on R (bind m k).
Proof.
  intros Hm Hk s res s'. unfold bind.
  destruct (m s) as [[a| |] s1] eqn:E; specialize (Hm _ _ _ E).
  - intros H. eapply R_trans; [exact Hm|]. eapply Hk. exact H.
  - intros [= <- <-]. exact Hm.
  - intros [= <- <-]. exact Hm.
Qed.

Lemma keeps_on_get_this {O} : keeps_on R (@get_this O).
Proof. intros s res s' [= <- <-]. apply R_refl. Qed.

Lemma keeps_on_set_this {O} (o : O) : keeps_on R (set_this o).
Proof. intros s res s' [= <- <-]. apply R_refl. Qed.

Lemma keeps_on_os {O A} (m : M os_state A) : keeps R m -> keeps_on R (@on_os O A m).
Proof.
  intros Hm s res s'. unfold on_os.
  destruct (m (snd s)) as [x os1] eqn:E; specialize (Hm _ _ _ E).
  intros [= <- <-]. exact Hm.
Qed.

End Keeps.

(** ** [os_after]: what the calls between construction and destruction keep *)

Lemma os_after_refl os : os_after os os.
Proof. constructor; auto; reflexivity || lia. Qed.

Lemma os_after_trans a b c : os_after a b -> os_after b c -> os_after a c.
Proof. intros [] []. constructor; try congruence; auto. lia. Qed.

Ltac os_after_call :=
  intros; repeat case_match; simplify_eq; constructor; cbn; auto;
  reflexivity || lia.

Lemma mod_add_pages a n ps : (a + n * ps) mod ps = a mod ps.
Proof.
  destruct (Z.eq_dec ps 0) as [->|Hps].
  - rewrite Z.mul_0_r, Z.add_0_r. reflexivity.
  - apply Z.mod_add. assumption.
Qed.

Lemma sys_mmap_after addr len prot flags fd off os res os' :
  sys_mmap addr len prot flags fd off os = (res, os') -> os_after os os'.
Proof.
  unfold sys_mmap. intros H.
  destruct (len <=? 0); [simplify_eq; apply os_after_refl|].
  destruct (negb (map_type_ok flags)); [simplify_eq; apply os_after_refl|].
  destruct (negb (off mod os_pagesize os =? 0)); [simplify_eq; apply os_after_refl|].
  destruct (mmap_backing prot flags fd off os) as [e|bk];
    [simplify_eq; apply os_after_refl|].
  destruct (mmap_place addr (pages_for os len) flags os) as [e|a] eqn:Hp;
    [simplify_eq; apply os_after_refl|].
  injection H as <- <-. constructor; cbn; try reflexivity; try lia.
  intros Hal.
  assert (Ha : a mod os_pagesize os = 0).
  { revert Hp. unfold mmap_place.
    repeat case_match; intros; simplify_eq; try assumption;
      match goal with
      | H : negb (_ =? 0) = false |- _ =>
          apply negb_false_iff, Z.eqb_eq in H; exact H
      end. }
  destruct (Z.max_spec (os_hint os) (a + pages_for os len * os_pagesize os))
    as [[_ ->]|[_ ->]]; [|assumption].
  rewrite mod_add_pages. assumption.
Qed.

Lemma sys_munmap_after addr len os res os' :
  sys_munmap addr len os = (res, os') -> os_after os os'.
Proof. unfold sys_munmap. os_after_call. Qed.

Lemma sys_mprotect_after addr len prot os res os' :
  sys_mprotect addr len prot os = (res, os') -> os_after os os'.
Proof. unfold sys_mprotect. os_after_call. Qed.

Lemma sys_madvise_after addr len adv os res os' :
  sys_madvise addr len adv os = (res, os') -> os_after os os'.
Proof. unfold sys_madvise. os_after_call. Qed.

Lemma sys_msync_after addr len flags os res os' :
  sys_msync addr len flags os = (res, os') -> os_after os os'.
Proof. unfold sys_msync. os_after_call. Qed.

Lemma sys_fstat_after fd os res os' :
  sys_fstat fd os = (res, os') -> os_after os os'.
Proof. unfold sys_fstat. os_after_call. Qed.

Lemma sys_ftruncate_after fd len os res os' :
  sys_ftruncate fd len os = (res, os') -> os_after os os'.
Proof. unfold sys_ftruncate. os_after_call. Qed.

Lemma store_after os a b os' : store os a b = Some os' -> os_after os os'.
Proof. unfold store. os_after_call. Qed.

(** One step of a proof that a method keeps [os_after]: by the shape of
    the code. *)
Ltac after_step :=
  lazymatch goal with
  | |- forall _, _ => intro
  | |- keeps _ (ret _) => apply (keeps_ret os_after os_after_refl)
  | |- keeps _ (throw _) => apply (keeps_throw os_after os_after_refl)
  | |- keeps _ (bind _ _) => apply (keeps_bind os_after os_after_trans)
  | |- keeps _ (noexcept _) => apply keeps_noexcept
  | |- keeps _ (unwinding _ _) => apply (keeps_unwinding os_after os_after_trans)
  | |- keeps _ (syscall _ _) => apply keeps_syscall
  | |- keeps _ (syscall_ignored _) => apply keeps_syscall_ignored
  | |- keeps _ (if ?c then _ else _) => destruct c
  | |- keeps _ (match ?c with _ => _ end) => destruct c
  | |- keeps_on _ (ret _) => apply (keeps_on_ret os_after os_after_refl)
  | |- keeps_on _ (throw _) => apply (keeps_on_throw os_after os_after_refl)
  | |- keeps_on _ (bind _ _) => apply (keeps_on_bind os_after os_after_trans)
  | |- keeps_on _ get_this => apply (keeps_on_get_this os_after os_after_refl)
  | |- keeps_on _ (set_this _) => apply (keeps_on_set_this os_after os_after_refl)
  | |- keeps_on _ (on_os _) => apply keeps_on_os
  | |- keeps_on _ (if ?c then _ else _) => destruct c
  | |- keeps_on _ (match ?c with _ => _ end) => destruct c
  | |- os_after _ _ =>
      first [ eapply sys_mmap_after; eassumption
            | eapply sys_munmap_after; eassumption
            | eapply sys_mprotect_after; eassumption
            | eapply sys_madvise_after; eassumption
            | eapply sys_msync_after; eassumption
            | eapply sys_fstat_after; eassumption
            | eapply sys_ftruncate_after; eassumption ]
  end.
Ltac after := repeat first [ assumption | after_step ].

Lemma MemoryMap_sync_after m flags : keeps os_after (MemoryMap.sync m flags).
Proof. unfold MemoryMap.sync. after. Qed.

Lemma MemoryMap_unmap_after prot m : keeps os_after (MemoryMap.unmap prot m).
Proof. unfold MemoryMap.unmap, MemoryMap.sync. after. Qed.

Lemma MemoryMap_dtor_after prot m : keeps os_after (MemoryMap.dtor prot m).
Proof. apply keeps_noexcept, MemoryMap_unmap_after. Qed.

Lemma MemoryMap_ctor_after prot addr len flags fd off :
  keeps os_after (MemoryMap.ctor prot addr len flags fd off).
Proof. unfold MemoryMap.ctor. after. Qed.

Lemma MemoryMap_move_assign_after prot a b :
  keeps os_after (MemoryMap.move_assign prot a b).
Proof.
  pose proof (MemoryMap_unmap_after prot a).
  unfold MemoryMap.move_assign. after.
Qed.

Lemma FD_truncate_after f n : keeps os_after (FileDescriptor.truncate f n).
Proof. unfold FileDescriptor.truncate. after. Qed.

Lemma FD_size_after f : keeps os_after (FileDescriptor.size f).
Proof. unfold FileDescriptor.size, FileDescriptor.stat. after. Qed.

Lemma RMF_reset_after : keeps_on os_after RMF.reset_mapped.
Proof.
  unfold RMF.reset_mapped. after. apply MemoryMap_dtor_after.
Qed.

Lemma RMF_map_after size : keeps_on os_after (RMF.map size).
Proof.
  pose proof RMF_reset_after.
  unfold RMF.map. after. apply MemoryMap_ctor_after.
Qed.

Lemma RMF_resize_after n : keeps_on os_after (RMF.resize n).
Proof.
  pose proof RMF_reset_after. pose proof RMF_map_after.
  unfold RMF.resize, RMF.throwIfAbove. after;
    try apply FD_truncate_after; auto.
Qed.

Lemma RM_resize_after n : keeps_on os_after (RM.resize n).
Proof.
  unfold RM.resize. after.
  intros os res os' [= <- <-]. apply os_after_refl.
Qed.

(** The members a [resize] never touches. *)
Lemma RMF_map_members size r os res r' os' :
  RMF.map size (r, os) = (res, (r', os')) ->
  RMF.m_reserved r' = RMF.m_reserved r /\ RMF.m_file r' = RMF.m_file r.
Proof.
  unfold RMF.map. unfold bind at 1.
  destruct (RMF.reset_mapped (r, os)) as [x [r1 os1]] eqn:Hr.
  apply RMF_reset_mapped_spec in Hr as (_ & Hres & Hfile & _).
  destruct x as [[]| |]; [|intros [= <- <- <-]; auto..].
  msimpl. destruct (MemoryMap.ctor _ _ _ _ _ _ os1) as [[m| |] os2];
    intros [= <- <- <-]; auto.
Qed.

Lemma RMF_resize_members n r os res r' os' :
  RMF.resize n (r, os) = (res, (r', os')) ->
  RMF.m_reserved r' = RMF.m_reserved r /\ RMF.m_file r' = RMF.m_file r.
Proof.
  unfold RMF.resize, RMF.throwIfAbove.
  unfold bind at 1. unfold get_this at 1. cbn [fst snd].
  unfold bind at 1.
  destruct (_ <? n); [intros [= <- <- <-]; auto|].
  unfold ret at 1. unfold bind at 1.
  destruct (RMF.reset_mapped (r, os)) as [x [r1 os1]] eqn:Hr.
  apply RMF_reset_mapped_spec in Hr as (_ & Hres & Hfile & _).
  destruct x as [[]| |]; [|intros [= <- <- <-]; auto..].
  unfold bind at 1, on_os. cbn [fst snd].
  destruct (FileDescriptor.truncate _ _ os1) as [[[]| |] os2];
    [|intros [= <- <- <-]; auto..].
  destruct (n =? 0); [intros [= <- <- <-]; auto|].
  intros Hm. apply RMF_map_members in Hm as [-> ->]. auto.
Qed.

(** ** Reachable states of a resizable file *)

(** ** The resizable file: descriptor, path and length *)

Lemma FD_ctor_open path os :
  exists os',
    FileDescriptor.ctor path OPEN_FLAGS 438 os
      = (Ok (FileDescriptor.Build (os_next_fd os)), os')
    /\ os_fds os' = <[os_next_fd os := (path, OPEN_FLAGS)]> (os_fds os)
    /\ os_next_fd os' = os_next_fd os + 1
    /\ os_pagesize os' = os_pagesize os /\ os_pages os' = os_pages os
    /\ os_hint os' = os_hint os /\ os_mem os' = os_mem os
    /\ os_files os' = <[path := default [] (os_files os !! path)]> (os_files os).
Proof.
  unfold FileDescriptor.ctor, sys_open. msimpl.
  destruct (os_files os !! path) as [data|] eqn:Hf.
  - eexists. split; [reflexivity|]. cbn. split_and!; auto.
    symmetry. apply insert_id. assumption.
  - change (has_flag OPEN_FLAGS O_CREAT) with true. cbv iota.
    eexists. split; [reflexivity|]. cbn. split_and!; auto.
Qed.

Lemma RMF_ctor_state path cap os r os' :
  os_wf os -> files_off_t os ->
  RMF.ctor path cap os = (Ok r, os') ->
  RMF.m_file r = FileDescriptor.Build (os_next_fd os)
  /\ os_fds os' = <[os_next_fd os := (path, OPEN_FLAGS)]> (os_fds os)
  /\ os_next_fd os' = os_next_fd os + 1
  /\ os_pagesize os' = os_pagesize os
  /\ os_hint os' = os_hint os + pages_for os cap * os_pagesize os
  /\ 0 < cap /\ os_room os cap
  /\ Z.of_nat (length (default [] (os_files os !! path))) <= cap
  /\ (forall p, in_pages (os_hint os / os_pagesize os) (pages_for os cap) p = false ->
                os_pages os' p = os_pages os p).
Proof.
  intros Hwf Hoff. unfold RMF.ctor, MemoryMap.ctor. msimpl.
  fold RESERVE_FLAGS OPEN_FLAGS. rewrite reserve_run.
  destruct (Z.leb_spec cap 0) as [Hc|Hc]; [discriminate|].
  destruct (Z.ltb_spec SIZE_WIDTH (os_hint os + pages_for os cap * os_pagesize os))
    as [Hr|Hr]; [discriminate|].
  change (negb (Z.land RESERVE_FLAGS (Z.lor MAP_FIXED MAP_FIXED_NOREPLACE) =? 0))
    with false.
  set (os1 := mmap_install _ _ _ _ _).
  set (resv := MemoryMap.Build cap (os_hint os) false).
  destruct (FD_ctor_open path os1)
    as (os2 & -> & Hfds2 & Hnext2 & Hps2 & Hpg2 & Hh2 & _ & Hfiles2).
  set (file := FileDescriptor.Build (os_next_fd os1)) in *.
  cbn [os_files os_fds os_next_fd os1 mmap_install set_vm] in Hfiles2, Hfds2, Hnext2.
  set (data := default [] (os_files os !! path)) in *.
  assert (Hdata : Z.of_nat (length data) < 2 ^ 63).
  { unfold data. destruct (os_files os !! path) as [d|] eqn:Hd; cbn; [|lia].
    apply (Hoff path d Hd). }
  assert (Hfd : os_fds os2 !! FileDescriptor.m_fd file = Some (path, OPEN_FLAGS)).
  { rewrite Hfds2. apply lookup_insert_eq. }
  assert (Hf2 : os_files os2 !! path = Some data).
  { rewrite Hfiles2. apply lookup_insert_eq. }
  unfold RMF.construct, RMF.throwIfAbove. msimpl. cbn [RMF.m_file RMF.m_reserved].
  rewrite (FD_size_run file os2 path OPEN_FLAGS data Hfd Hf2).
  rewrite wrap64_small by (unfold SIZE_WIDTH; lia).
  unfold MemoryMap.size. cbn [MemoryMap.m_size resv].
  destruct Hwf as (Hps & Hh & Hal).
  assert (Hn : 0 < pages_for os cap) by (apply pages_for_pos; assumption).
  assert (Hh1 : os_hint os2 = os_hint os + pages_for os cap * os_pagesize os).
  { rewrite Hh2. cbn. nia. }
  assert (Hout : forall p,
             in_pages (os_hint os / os_pagesize os) (pages_for os cap) p = false ->
             os_pages os2 p = os_pages os p).
  { intros p Hp. rewrite Hpg2. cbn. rewrite Hp. reflexivity. }
  destruct (Z.ltb_spec cap (Z.of_nat (length data))) as [Hbig|Hfit].
  { destruct (RMF.dtor _ os2) as [[[]| |] ?]; discriminate. }
  destruct (Z.eqb_spec (Z.of_nat (length data)) 0) as [Hz|Hnz].
  - unfold ret. intros [= <- <-]. split_and!; try assumption; try reflexivity.
  - assert (Hinv0 : RMF_inv os2 (RMF.Build resv file None)).
    { constructor; unfold RMF_base, RMF.capacity, MemoryMap.size, pages_for;
        cbn [RMF.m_reserved RMF.m_file MemoryMap.m_address MemoryMap.m_size resv];
        rewrite ?Hps2, ?Hpg2; cbn [os_pagesize os_pages os1 mmap_install set_vm];
        try assumption.
      - intros p Hp. fold (pages_for os cap).
        destruct (in_pages_false (os_hint os / os_pagesize os) (pages_for os cap) p)
          as [Hf' _].
        destruct (in_pages _ _ p); [eauto|]. exfalso. apply Hf'; [reflexivity|exact Hp].
      - exists path, OPEN_FLAGS. split_and!; [assumption|reflexivity|eauto|exact I]. }
    destruct (RMF_map_run os2 resv file (Z.of_nat (length data)) path OPEN_FLAGS)
      as (os3 & Hrun & Hinv3 & Hf3); try assumption.
    { unfold RMF.capacity. cbn. lia. }
    { unfold file_length. rewrite Hf2. reflexivity. }
    rewrite Hrun. intros [= <- <-].
    (* the state after the fixed mapping of the file *)
    revert Hrun. unfold RMF.map, RMF.reset_mapped, MemoryMap.ctor. msimpl.
    cbn [RMF.m_mapped RMF.m_reserved RMF.m_file]. msimpl.
    unfold MemoryMap.address. cbn [MemoryMap.m_address resv]. fold MAP_FLAGS.
    assert (Hbk : mmap_backing PROT_RW MAP_FLAGS (FileDescriptor.m_fd file) 0 os2
                  = inr (FileShared path 0)).
    { unfold mmap_backing. change (has_flag MAP_FLAGS MAP_ANONYMOUS) with false.
      cbv iota. rewrite Hfd. reflexivity. }
    assert (Hle : pages_for os2 (Z.of_nat (length data)) <= pages_for os cap).
    { unfold pages_for. rewrite Hps2. cbn. apply Z.div_le_mono; lia. }
    rewrite (mmap_fixed_run os2 _ _ PROT_RW MAP_FLAGS _ 0 (FileShared path 0));
      [ | rewrite Hps2; assumption | rewrite Hps2; assumption | lia
        | | reflexivity | reflexivity | apply Zmod_0_l | exact Hbk ].
    2:{ rewrite Hps2. cbn [os_pagesize os1 mmap_install set_vm].
        pose proof (pages_for_pos os2 (Z.of_nat (length data))).
        rewrite Hps2 in H. cbn in H. nia. }
    intros [= <-].
    cbn [os_fds os_next_fd os_pagesize os_hint os_pages mmap_install set_vm].
    split_and!; try assumption; try reflexivity.
    + rewrite Hh1, Hps2. cbn [os_pagesize os1 mmap_install set_vm]. nia.
    + intros p Hp. rewrite <- (Hout p Hp). rewrite Hps2.
      cbn [os_pagesize os1 mmap_install set_vm].
      destruct (in_pages (os_hint os / os_pagesize os)
                  (pages_for os2 (Z.of_nat (length data))) p) eqn:Hin; [|reflexivity].
      apply in_pages_true in Hin. apply in_pages_false in Hp. lia.
Qed.

(** One step of a client on a resizable file leaves the descriptors and
    the members [m_reserved] and [m_file] alone. *)
Lemma RMF_step_after o r os r' os' :
  client_step o (r, os) = Some (r', os') ->
  os_after os os' /\ RMF.m_reserved r' = RMF.m_reserved r
  /\ RMF.m_file r' = RMF.m_file r.
Proof.
  destruct o as [n|k b]; cbn -[RMF.resize].
  - destruct (is_size_t n); [|discriminate].
    destruct (RMF.resize n (r, os)) as [res [r1 os1]] eqn:Hr.
    pose proof (RMF_resize_after n _ _ _ Hr) as Hafter.
    apply RMF_resize_members in Hr as [Hres Hfile].
    destruct res; intros H; try discriminate; injection H as <- <-; auto.
  - destruct ((0 <=? k) && (k <? RMF.size r)); [|discriminate].
    destruct (store os (RMF.data r + k) b) as [os2|] eqn:Hst; [|discriminate].
    cbn. intros [= <- <-]. apply store_after in Hst. auto.
Qed.

Lemma RMF_run_after ops : forall r os r' os',
  client_run ops (r, os) = Some (r', os') ->
  os_after os os' /\ RMF.m_reserved r' = RMF.m_reserved r
  /\ RMF.m_file r' = RMF.m_file r.
Proof.
  induction ops as [|o ops IH]; intros r os r' os'; cbn -[client_step].
  - intros [= <- <-]. split_and!; auto using os_after_refl.
  - destruct (client_step o (r, os)) as [[r1 os1]|] eqn:Hs; [|discriminate].
    intros Hrun. apply RMF_step_after in Hs as (Ha & Hres & Hfile).
    destruct (IH _ _ _ _ Hrun) as (Ha' & Hres' & Hfile').
    split_and!; [eapply os_after_trans; eassumption|congruence..].
Qed.

(** With a capacity that [off_t] can hold, [size()] stays the length of the
    file. *)
Lemma files_off_t_insert os path data :
  files_off_t os -> Z.of_nat (length data) < 2 ^ 63 ->
  files_off_t (set_files (<[path := data]> (os_files os)) os).
Proof.
  intros Hoff Hlen. unfold files_off_t. cbn.
  apply map_Forall_insert_2; assumption.
Qed.

Lemma store_off_t os a b os' :
  store os a b = Some os' -> files_off_t os -> files_off_t os'.
Proof.
  unfold store. intros H Hoff.
  destruct (os_pages os (a / os_pagesize os)) as [pg|]; [|discriminate].
  destruct (negb (has_flag (pg_prot pg) PROT_WRITE)); [discriminate|].
  destruct (pg_back pg) as [|p0 off|p0 off]; try (injection H as <-; exact Hoff).
  destruct (os_files os !! p0) as [data|] eqn:Hf; [|discriminate].
  destruct (Z.of_nat (length data) <=? off); [discriminate|].
  injection H as <-. apply files_off_t_insert; [assumption|].
  rewrite length_insert. apply (Hoff p0 data Hf).
Qed.

Lemma RMF_step_sized o r os r' os' path :
  RMF_inv os r -> RMF_path os r path -> RMF.capacity r < 2 ^ 63 ->
  RMF_sized os r path ->
  client_step o (r, os) = Some (r', os') ->
  RMF_sized os' r' path.
Proof.
  intros Hinv Hpath Hcap [Hlen Hoff]. destruct o as [n|k b]; cbn -[RMF.resize].
  - destruct (is_size_t n) eqn:Hn; [|discriminate]. apply is_size_t_spec in Hn.
    destruct (Z.lt_ge_cases (RMF.capacity r) n) as [Hgt|Hle].
    { rewrite RMF_resize_throw by assumption. intros [= <- <-]. split; assumption. }
    pose proof Hlen as Hlen'. unfold file_length in Hlen'.
    destruct (os_files os !! path) as [data|] eqn:Hdata; [|discriminate].
    destruct (RMF_resize_run os r n path OPEN_FLAGS data Hinv ltac:(lia) ltac:(lia)
                Hpath Hdata) as (os2 & -> & _ & Hfiles & _).
    intros [= <- <-]. split.
    + unfold file_length. rewrite Hfiles, lookup_insert_eq. cbn.
      rewrite length_resize. unfold RMF.size. cbn.
      destruct (Z.eqb_spec n 0); cbn; f_equal; lia.
    + unfold files_off_t. rewrite Hfiles. apply map_Forall_insert_2; [|assumption].
      rewrite length_resize. lia.
  - destruct ((0 <=? k) && (k <? RMF.size r)); [|discriminate].
    destruct (store os (RMF.data r + k) b) as [os2|] eqn:Hst; [|discriminate].
    cbn. intros [= <- <-]. split.
    + destruct (store_files _ _ _ _ Hst) as [_ ->]. assumption.
    + eapply store_off_t; eassumption.
Qed.

Lemma RMF_run_sized path ops : forall r os r' os',
  RMF_inv os r -> RMF_path os r path -> RMF.capacity r < 2 ^ 63 ->
  RMF_sized os r path ->
  client_run ops (r, os) = Some (r', os') ->
  RMF_sized os' r' path.
Proof.
  induction ops as [|o ops IH]; intros r os r' os' Hinv Hpath Hcap Hsized;
    cbn -[client_step].
  - intros [= <- <-]. assumption.
  - destruct (client_step o (r, os)) as [[r1 os1]|] eqn:Hs; [|discriminate].
    intros Hrun.
    destruct (RMF_step_inv _ _ _ _ _ Hinv Hs) as [Hinv1 Hres1].
    destruct (RMF_step_after _ _ _ _ _ Hs) as ([_ Hfds _ _] & _ & Hfile).
    pose proof (RMF_step_sized o r os r1 os1 path Hinv Hpath Hcap Hsized Hs).
    apply (IH r1 os1 r' os'); try assumption.
    + unfold RMF_path in *. rewrite Hfile, Hfds. assumption.
    + unfold RMF.capacity in *. rewrite Hres1. assumption.
Qed.

(** Everything known of a resizable file that its constructor built and a
    client then used. *)
Lemma RMF_reach path cap os0 r0 os1 ops r os :
  os_wf os0 -> files_off_t os0 ->
  RMF.ctor path cap os0 = (Ok r0, os1) ->
  client_run ops (r0, os1) = Some (r, os) ->
  RMF_inv os r
  /\ RMF.m_reserved r = MemoryMap.Build cap (os_hint os0) false
  /\ RMF.m_file r = FileDescriptor.Build (os_next_fd os0)
  /\ RMF_path os r path
  /\ below_hint os (os_hint os0) cap
  /\ os_after os1 os
  /\ (cap < 2 ^ 63 -> RMF_sized os r path).
Proof.
  intros Hwf Hoff Hc Hrun.
  destruct (RMF_ctor_ok _ _ _ _ _ Hwf Hoff Hc) as (Hinv0 & Hres0 & Hsz0 & _ & Hfiles0).
  destruct (RMF_ctor_state _ _ _ _ _ Hwf Hoff Hc)
    as (Hfile0 & Hfds1 & Hnext1 & Hps1 & Hh1 & Hcap & Hroom & Hfit & _).
  assert (Hpath0 : RMF_path os1 r0 path).
  { unfold RMF_path. rewrite Hfile0, Hfds1. apply lookup_insert_eq. }
  assert (Hsized0 : RMF_sized os1 r0 path).
  { split.
    - unfold file_length. rewrite Hfiles0. rewrite decide_True by reflexivity.
      cbn. rewrite Hsz0. reflexivity.
    - intros p d. rewrite Hfiles0. destruct (decide (p = path)) as [->|?].
      + intros [= <-]. cbn beta.
        destruct (os_files os0 !! path) as [d|] eqn:Hd; cbn; [|lia].
        apply (Hoff path d Hd).
      + apply Hoff. }
  pose proof (RMF_run_inv _ _ _ _ _ Hinv0 Hrun) as [Hinv Hres].
  pose proof (RMF_run_after _ _ _ _ _ Hrun) as (Hafter & _ & Hfile).
  pose proof Hafter as [Hps Hfds Hnext Hh].
  split_and!.
  - assumption.
  - congruence.
  - congruence.
  - unfold RMF_path in *. rewrite Hfile, Hfds. assumption.
  - unfold below_hint, pages_for. rewrite Hps, Hps1. fold (pages_for os0 cap). lia.
  - assumption.
  - intros H63.
    assert (Hlt : RMF.capacity r0 < 2 ^ 63).
    { unfold RMF.capacity, MemoryMap.size. rewrite Hres0. cbn. assumption. }
    exact (RMF_run_sized path ops r0 os1 r os Hinv0 Hpath0 Hlt Hsized0 Hrun).
Qed.

(** ** Loads and stores through a resizable file *)

(** ** Reading and writing the file through the mapping *)

Lemma file_byte_lookup os path data k :
  os_files os !! path = Some data -> 0 <= k ->
  file_byte os path k = default 0 (data !! Z.to_nat k).
Proof.
  intros Hf Hk. unfold file_byte. rewrite Hf.
  destruct (Z.ltb_spec k 0); [lia|reflexivity].
Qed.

Lemma RMF_inv_path os r path :
  RMF_inv os r -> RMF_path os r path ->
  is_Some (os_files os !! path) /\ RMF_mapped_ok os r path.
Proof.
  intros [_ _ _ _ _ (path' & fl & Hfd & _ & Hf & Hm)] Hpath.
  unfold RMF_path in Hpath. rewrite Hfd in Hpath. injection Hpath as -> ->.
  split; assumption.
Qed.

(** Inside the mapping the program reads the bytes of the file, and the
    file is exactly as long as the mapping. *)
Lemma RMF_read os r path data :
  RMF_inv os r -> RMF_path os r path -> os_files os !! path = Some data ->
  (RMF.size r <> 0 -> Z.of_nat (length data) = RMF.size r)
  /\ forall k, 0 <= k < RMF.size r -> load os (RMF.data r + k) = data !! Z.to_nat k.
Proof.
  intros Hinv Hpath Hdata.
  destruct (RMF_inv_path _ _ _ Hinv Hpath) as [_ Hm].
  assert (Hlen : RMF.size r <> 0 -> Z.of_nat (length data) = RMF.size r).
  { unfold RMF_mapped_ok, RMF.size in *. destruct (RMF.m_mapped r) as [m|]; [|tauto].
    destruct Hm as (_ & _ & Hl & _). unfold file_length in Hl. rewrite Hdata in Hl.
    cbn in Hl. intros _. unfold MemoryMap.size. congruence. }
  split; [exact Hlen|]. intros k Hk.
  destruct (RMF_load_file r os k Hinv Hk) as (path' & fl & Hfd & ->).
  unfold RMF_path in Hpath. rewrite Hfd in Hpath. injection Hpath as -> ->.
  rewrite (file_byte_lookup os path data k Hdata) by lia.
  destruct (data !! Z.to_nat k) as [x|] eqn:Hx; [reflexivity|].
  apply lookup_ge_None in Hx. lia.
Qed.

(** A store inside the mapping is a write to the file at the same offset. *)
Lemma RMF_store_file os r path data k b :
  RMF_inv os r -> RMF_path os r path -> os_files os !! path = Some data ->
  0 <= k < RMF.size r ->
  store os (RMF.data r + k) b
    = Some (set_files (<[path := <[Z.to_nat k := b mod 256]> data]> (os_files os)) os).
Proof.
  intros Hinv Hpath Hdata Hk.
  destruct (RMF_inv_path _ _ _ Hinv Hpath) as [_ Hm].
  destruct Hinv as [Hps Hal Hcap Hroom Hresv _].
  unfold RMF_mapped_ok, RMF.size, RMF.data in *.
  destruct (RMF.m_mapped r) as [m|]; [|lia].
  destruct Hm as (Hmeq & Hsz & Hlen & Hpg).
  unfold MemoryMap.address, MemoryMap.size in *. rewrite Hmeq.
  cbn [MemoryMap.m_address]. set (ps := os_pagesize os) in *.
  unfold store. fold ps. rewrite div_aligned_add by (try apply Hal; lia).
  rewrite Hpg; cycle 1.
  { unfold pages_for. fold ps. split; [pose proof (Z.div_pos k ps); lia|].
    apply Z.add_lt_mono_l. apply Z.div_lt_upper_bound; [lia|].
    pose proof (Z.mul_succ_div_gt (MemoryMap.m_size m + ps - 1) ps Hps). lia. }
  cbn [pg_prot pg_back]. change (has_flag PROT_RW PROT_WRITE) with true. cbn [negb].
  rewrite Hdata. unfold file_length in Hlen. rewrite Hdata in Hlen. cbn in Hlen.
  injection Hlen as Hlen.
  replace (RMF_base r / ps + k / ps - RMF_base r / ps) with (k / ps) by lia.
  pose proof (Z.mul_div_le k ps Hps).
  destruct (Z.leb_spec (Z.of_nat (length data)) (k / ps * ps)); [lia|].
  do 5 f_equal. rewrite Z.add_mod by lia. rewrite Hal, Z.add_0_l, Z.mod_mod by lia.
  pose proof (Z.div_mod k ps). lia.
Qed.

(** ** Destructors *)

(** ** Destructors *)

Lemma munmap_run os addr len :
  addr mod os_pagesize os = 0 -> 0 < len ->
  sys_munmap addr len os =
    (inr tt,
     set_vm (fun p => if in_pages (addr / os_pagesize os) (pages_for os len) p
                      then None else os_pages os p)
            (os_mem os) (os_hint os) os).
Proof.
  intros Hal Hlen. unfold sys_munmap. rewrite Hal.
  destruct (Z.leb_spec len 0); [lia|]. reflexivity.
Qed.

Lemma close_run os fd x :
  os_fds os !! fd = Some x ->
  sys_close fd os = (inr tt, set_fds (delete fd (os_fds os)) (os_next_fd os) os).
Proof. intros H. unfold sys_close. rewrite H. reflexivity. Qed.

(** A reservation never sits at [MAP_FAILED]. *)
Lemma base_not_failed ps base n :
  1 < ps -> 0 < n -> base + n * ps <= SIZE_WIDTH -> (base =? MAP_FAILED) = false.
Proof.
  intros Hps Hn Hroom. apply Z.eqb_neq. unfold MAP_FAILED. nia.
Qed.

(** The destructor of a well-formed [ResizableMappedFile]: the mapping
    goes, the descriptor is closed, the reservation is released. *)
Lemma RMF_dtor_run os r path :
  RMF_inv os r -> RMF_path os r path ->
  MemoryMap.m_fixed (RMF.m_reserved r) = false ->
  1 < os_pagesize os -> 0 <= FileDescriptor.m_fd (RMF.m_file r) ->
  below_hint os (RMF_base r) (RMF.capacity r) ->
  exists os',
    RMF.dtor r os = (Ok tt, os')
    /\ os_files os' = os_files os
    /\ os_fds os' = delete (FileDescriptor.m_fd (RMF.m_file r)) (os_fds os)
    /\ os_next_fd os' = os_next_fd os
    /\ os_pagesize os' = os_pagesize os
    /\ os_hint os' = os_hint os
    /\ released os os' (RMF_base r) (RMF.capacity r).
Proof.
  intros Hinv Hpath Hfx Hps2 Hfd0 Hbelow. unfold below_hint in Hbelow.
  destruct (RMF_inv_path _ _ _ Hinv Hpath) as [_ Hm].
  destruct Hinv as [Hps Hal Hcap Hroom Hresv _].
  assert (Hn : 0 < pages_for os (RMF.capacity r)) by (apply pages_for_pos; assumption).
  pose proof (base_not_failed _ _ _ Hps2 Hn Hroom) as Hnf.
  unfold RMF.dtor, FileDescriptor.dtor, MemoryMap.dtor, MemoryMap.unmap, MemoryMap.sync,
    noexcept.
  msimpl. unfold RMF_mapped_ok, RMF.size in *.
  destruct (Z.eqb_spec (FileDescriptor.m_fd (RMF.m_file r)) (-1)) as [?|_]; [lia|].
  fold (RMF_base r). rewrite Hnf, Hfx.
  change (MemoryMap.Writable PROT_NONE) with false.
  destruct (RMF.m_mapped r) as [m|] eqn:Hmm.
  - destruct Hm as (Hmeq & Hsz & Hlen & Hpg).
    rewrite Hmeq. cbn [MemoryMap.m_address MemoryMap.m_size MemoryMap.m_fixed].
    rewrite Hnf. change (MemoryMap.Writable PROT_RW) with true. cbv beta iota.
    assert (Hle : pages_for os (MemoryMap.m_size m) <= pages_for os (RMF.capacity r)).
    { apply pages_for_mono; [assumption|lia]. }
    rewrite msync_run; [|assumption|assumption|]; cycle 1.
    { intros p Hp. apply Hresv. lia. }
    cbv beta iota.
    rewrite (mmap_fixed_run os (RMF_base r) (MemoryMap.m_size m) PROT_NONE _ _ _ Anon);
      [ | assumption | assumption | lia | nia | reflexivity | reflexivity
        | apply Zmod_0_l | reflexivity ].
    cbv beta iota. unfold syscall_ignored.
    set (os1 := mmap_install _ _ _ _ os).
    rewrite (close_run os1 _ (path, OPEN_FLAGS)) by exact Hpath.
    cbn [snd]. set (os2 := set_fds _ _ os1).
    rewrite (munmap_run os2); [|exact Hal|exact Hcap].
    eexists. split; [reflexivity|]. cbn. split_and!; try reflexivity.
    { nia. }
    intros p. cbn. unfold RMF.capacity, MemoryMap.size.
    change (pages_for os2 (MemoryMap.m_size (RMF.m_reserved r)))
      with (pages_for os (MemoryMap.m_size (RMF.m_reserved r))).
    destruct (in_pages (RMF_base r / os_pagesize os)
                (pages_for os (MemoryMap.m_size (RMF.m_reserved r))) p) eqn:Hin;
      [reflexivity|].
    destruct (in_pages (RMF_base r / os_pagesize os)
                (pages_for os (MemoryMap.m_size m)) p) eqn:Hin2; [|reflexivity].
    apply in_pages_true in Hin2. apply in_pages_false in Hin.
    unfold RMF.capacity, MemoryMap.size in Hle. lia.
  - unfold syscall_ignored.
    rewrite (close_run os _ (path, OPEN_FLAGS)) by exact Hpath.
    cbn [snd]. set (os2 := set_fds _ _ os).
    rewrite (munmap_run os2); [|exact Hal|exact Hcap].
    eexists. split; [reflexivity|]. cbn. split_and!; try reflexivity.
    intros p. reflexivity.
Qed.

(** The destructor of a well-formed [ResizableMappedMemory]. *)
Lemma RM_dtor_run os r :
  RM_inv os r -> MemoryMap.m_fixed (RM.m_reserved r) = false ->
  1 < os_pagesize os ->
  RM.dtor r os =
    (Ok tt,
     set_vm (fun p => if in_pages (RM_base r / os_pagesize os)
                           (pages_for os (RM.capacity r)) p
                      then None else os_pages os p)
            (os_mem os) (os_hint os) os).
Proof.
  intros [Hps Hb Hal Hcap Hroom _ _ _] Hfx Hps2.
  assert (Hn : 0 < pages_for os (RM.capacity r)) by (apply pages_for_pos; assumption).
  pose proof (base_not_failed _ _ _ Hps2 Hn Hroom) as Hnf.
  unfold RM.dtor, MemoryMap.dtor, MemoryMap.unmap, noexcept. msimpl.
  fold (RM_base r). rewrite Hnf, Hfx.
  change (MemoryMap.Writable PROT_NONE) with false. cbv beta iota.
  rewrite (munmap_run os); [reflexivity|exact Hal|exact Hcap].
Qed.

(** Destroying a [MemoryMap] that was moved from does nothing. *)
Lemma MemoryMap_dtor_moved prot m os :
  MemoryMap.m_address m = MAP_FAILED -> MemoryMap.dtor prot m os = (Ok tt, os).
Proof.
  intros H. unfold MemoryMap.dtor, MemoryMap.unmap, noexcept. rewrite H.
  reflexivity.
Qed.

(** A resizable file that was constructed in a sane kernel state and then
    used: what its destructor and a later constructor rely on. *)
Lemma RMF_reach_sane path cap os0 r0 os1 ops r os :
  os_sane os0 ->
  RMF.ctor path cap os0 = (Ok r0, os1) ->
  client_run ops (r0, os1) = Some (r, os) ->
  RMF_inv os r
  /\ RMF.m_reserved r = MemoryMap.Build cap (os_hint os0) false
  /\ RMF.m_file r = FileDescriptor.Build (os_next_fd os0)
  /\ RMF_path os r path
  /\ below_hint os (os_hint os0) cap
  /\ os_wf os /\ 1 < os_pagesize os
  /\ os_pagesize os = os_pagesize os0
  /\ os_fds os = <[os_next_fd os0 := (path, OPEN_FLAGS)]> (os_fds os0)
  /\ os_next_fd os = os_next_fd os0 + 1
  /\ (cap < 2 ^ 63 -> RMF_sized os r path).
Proof.
  intros (Hwf & Hps2 & Hfd0 & Hoff) Hc Hrun.
  destruct (RMF_reach _ _ _ _ _ _ _ _ Hwf Hoff Hc Hrun)
    as (Hinv & Hres & Hfile & Hpath & Hbelow & [Hps Hfds Hnext Hh Hal] & Hsized).
  destruct (RMF_ctor_state _ _ _ _ _ Hwf Hoff Hc)
    as (_ & Hfds1 & Hnext1 & Hps1 & Hh1 & Hcap & _).
  destruct Hwf as (Hps0 & Hh0 & Hal0).
  split_and!; try assumption; try congruence.
  - split_and!.
    + rewrite Hps, Hps1. assumption.
    + pose proof (pages_for_pos os0 cap Hps0 Hcap). nia.
    + apply Hal. rewrite Hh1, Hps1. rewrite mod_add_pages. assumption.
Qed.

Lemma os_demo_sane : os_sane os_demo.
Proof.
  unfold os_sane, os_wf. split_and!.
  - reflexivity.
  - reflexivity.
  - reflexivity.
  - reflexivity.
  - discriminate.
  - unfold files_off_t. refine (bool_decide_unpack _ _). vm_compute. exact I.
Qed.

(** ** The constructor of a resizable file runs *)


(** ** Reachable states of a resizable memory *)

(** ** The bytes of a resizable memory *)

(** What [resize] does to the bytes: the pages it releases read as zero
    from then on, and no other byte changes. *)
Lemma RM_resize_mem os r n r' os' :
  RM_inv os r -> 0 <= n <= RM.capacity r ->
  RM.resize n (r, os) = (Ok tt, (r', os')) ->
  os_files os' = os_files os
  /\ (forall a,
       os_mem os' a =
         if in_pages (RM_base r / os_pagesize os + round_up (os_pagesize os) n / os_pagesize os)
              (RM.m_mappedSize r / os_pagesize os
               - round_up (os_pagesize os) n / os_pagesize os)
              (a / os_pagesize os)
         then 0 else os_mem os a)
  /\ (forall p,
       in_pages (RM_base r / os_pagesize os) (pages_for os (RM.capacity r)) p = false ->
       os_pages os' p = os_pages os p).
Proof.
  intros Hinv Hn.
  pose proof (RM_inv_ps_small _ _ Hinv) as Hsmall.
  pose proof (RM_inv_no_wrap _ _ n Hinv ltac:(lia)) as Hnowrap.
  destruct Hinv as [Hps Hb Hal Hcap Hroom Hsz Hmapped Hpages].
  set (ps := os_pagesize os) in *.
  set (mNew := round_up ps n) in *.
  set (mOld := RM.m_mappedSize r) in *.
  set (b := RM_base r / ps) in *.
  set (c := pages_for os (RM.capacity r)) in *.
  assert (HmNew : mNew = ps * (mNew / ps)).
  { apply Z_div_exact_full_2; [lia|]. apply round_up_mod; lia. }
  assert (HmOld : mOld = ps * (mOld / ps)).
  { apply Z_div_exact_full_2; [lia|]. rewrite Hmapped. apply round_up_mod; lia. }
  assert (Hq : 0 <= mNew / ps <= c).
  { unfold mNew. rewrite round_up_div by lia. unfold c, pages_for. fold ps. split.
    - apply Z.div_pos; lia.
    - apply Z.div_le_mono; lia. }
  assert (Ho : 0 <= mOld / ps <= c).
  { rewrite Hmapped. rewrite round_up_div by lia. unfold c, pages_for. fold ps. split.
    - apply Z.div_pos; lia.
    - apply Z.div_le_mono; lia. }
  set (q := mNew / ps) in *. set (o := mOld / ps) in *.
  assert (Hfirst : forall x, x mod ps = 0 -> (RM_base r + x) / ps = b + x / ps).
  { intros. apply div_aligned_add; [lia|assumption]. }
  assert (Halx : forall x, x mod ps = 0 -> (RM_base r + x) mod ps = 0).
  { intros. apply mod_aligned_add; [lia|assumption|assumption]. }
  assert (HmodNew : mNew mod ps = 0) by (apply round_up_mod; lia).
  assert (HmodOld : mOld mod ps = 0) by (rewrite Hmapped; apply round_up_mod; lia).
  unfold RM.resize, pageSize. msimpl.
  destruct (Z.ltb_spec (RM.capacity r) n) as [?|_]; [lia|].
  fold ps. rewrite (wrap64_small ps) by lia.
  rewrite alignUp_round_up by lia. fold mNew mOld.
  unfold MemoryMap.address_at. fold (RM_base r).
  destruct (Z.ltb_spec mOld mNew) as [Hgrow|Hle].
  - assert (Hoq : o < q) by nia.
    assert (Hlen : pages_for os (mNew - mOld) = q - o).
    { replace (mNew - mOld) with (os_pagesize os * (q - o)) by (fold ps; lia).
      apply pages_for_exact. assumption. }
    rewrite (mprotect_run os (RM_base r + mOld) (mNew - mOld) PROT_RW); fold ps;
      rewrite ?Hfirst, ?Hlen by assumption; fold o; auto.
    2:{ intros p Hp. rewrite Hpages by lia. eauto. }
    intros [= <- <-]. cbn. split; [reflexivity|]. split.
    + intros a.
      destruct (in_pages (b + q) (o - q) (a / ps)) eqn:Hin; [|reflexivity].
      apply in_pages_true in Hin. lia.
    + intros p Hp. apply in_pages_false in Hp.
      destruct (in_pages (b + o) (q - o) p) eqn:Hin; [|reflexivity].
      apply in_pages_true in Hin. fold c in Hp. lia.
  - destruct (Z.ltb_spec mNew mOld) as [Hshrink|Hge].
    + assert (Hqo : q < o) by nia.
      assert (Hlen : pages_for os (mOld - mNew) = o - q).
      { replace (mOld - mNew) with (os_pagesize os * (o - q)) by (fold ps; lia).
        apply pages_for_exact. assumption. }
      rewrite (mprotect_run os (RM_base r + mNew) (mOld - mNew) PROT_NONE); fold ps;
        rewrite ?Hfirst, ?Hlen by assumption; fold q; auto.
      2:{ intros p Hp. rewrite Hpages by lia. eauto. }
      match goal with
      | |- context [sys_madvise _ _ _ ?os1] => set (os1' := os1)
      end.
      assert (Hlen' : pages_for os1' (mOld - mNew) = o - q) by exact Hlen.
      rewrite (madvise_run os1'); cbn [os_pagesize os1' set_vm]; fold ps;
        rewrite ?Hfirst, ?Hlen' by assumption; fold q; auto.
      2:{ intros p Hp. cbn [os_pages os1' set_vm].
          destruct (in_pages (b + q) (o - q) p); rewrite Hpages by lia; cbn; eauto. }
      intros [= <- <-]. cbn [os_files os_mem os_pages os1' set_vm].
      split; [reflexivity|]. split.
      * intros a.
        destruct (in_pages (b + q) (o - q) (a / ps)) eqn:Hin; [|reflexivity].
        apply in_pages_true in Hin. rewrite Hpages by lia. reflexivity.
      * intros p Hp. apply in_pages_false in Hp.
        destruct (in_pages (b + q) (o - q) p) eqn:Hin; [|reflexivity].
        apply in_pages_true in Hin. fold c in Hp. lia.
    + intros [= <- <-]. split; [reflexivity|]. split.
      * intros a.
        destruct (in_pages (b + q) (o - q) (a / ps)) eqn:Hin; [|reflexivity].
        apply in_pages_true in Hin. assert (q = o) by (unfold q, o; f_equal; lia). lia.
      * reflexivity.
Qed.

(** A store inside a resizable memory changes that byte of the process. *)
Lemma RM_store os r k b :
  RM_inv os r -> 0 <= k < RM.size r ->
  store os (RM.data r + k) b
    = Some (set_vm (os_pages os)
              (fun x => if x =? RM_base r + k then b mod 256 else os_mem os x)
              (os_hint os) os).
Proof.
  intros [Hps Hb Hal Hcap Hroom Hsz Hmapped Hpages] Hk.
  unfold RM.size in Hk. unfold RM.data, MemoryMap.address.
  destruct (Z.eqb_spec (RM.m_size r) 0); [lia|]. fold (RM_base r).
  set (ps := os_pagesize os) in *.
  pose proof (round_up_bounds ps (RM.m_size r) Hps) as Hb1.
  pose proof (round_up_mono ps (RM.m_size r) (RM.capacity r) Hps ltac:(lia)) as Hb2.
  assert (Hkd : 0 <= k / ps < RM.m_mappedSize r / ps).
  { split; [apply Z.div_pos; lia|].
    apply Z.div_lt_upper_bound; [lia|].
    rewrite Hmapped. rewrite <- Z_div_exact_full_2; [lia|lia|].
    apply round_up_mod. lia. }
  assert (Hcd : RM.m_mappedSize r / ps <= pages_for os (RM.capacity r)).
  { rewrite Hmapped, round_up_div by lia. unfold pages_for. fold ps.
    apply Z.div_le_mono; lia. }
  unfold store. fold ps. rewrite div_aligned_add by (try apply Hal; lia).
  rewrite Hpages by lia.
  destruct (Z.ltb_spec (RM_base r / ps + k / ps) (RM_base r / ps + RM.m_mappedSize r / ps));
    [|lia].
  reflexivity.
Qed.

Lemma RM_step_tail o r os r' os' :
  RM_inv os r -> RM_tail_zero os r ->
  client_step o (r, os) = Some (r', os') ->
  RM_tail_zero os' r' /\ os_after os os' /\ os_files os' = os_files os.
Proof.
  intros Hinv Htail. destruct o as [n|k b]; cbn -[RM.resize].
  - destruct (is_size_t n) eqn:Hn; [|discriminate]. apply is_size_t_spec in Hn.
    destruct (Z.le_gt_cases n (RM.capacity r)) as [Hle|Hgt].
    + destruct (RM_resize_run os r n Hinv ltac:(lia)) as (os2 & Hrun & Hinv' & _).
      pose proof (RM_resize_after n _ _ _ Hrun) as Hafter.
      destruct (RM_resize_mem os r n _ _ Hinv ltac:(lia) Hrun) as (Hfiles & Hmem & _).
      rewrite Hrun. intros [= <- <-]. split_and!; [|exact Hafter|exact Hfiles].
      destruct Hinv as [Hps Hb Hal Hcap Hroom Hsz Hmapped Hpages].
      destruct Hafter as [Hps' _ _ _ _]. cbn [snd] in Hps'.
      intros j Hj. unfold RM_tail_zero in Htail.
      unfold RM_base, RM.capacity in *. cbn [RM.m_reserved RM.m_mappedSize] in *.
      fold (RM_base r) in *. rewrite Hps' in Hj.
      rewrite Hmem. set (ps := os_pagesize os) in *.
      rewrite div_aligned_add by (try apply Hal; lia).
      destruct (in_pages _ _ _) eqn:Hin; [reflexivity|].
      apply in_pages_false in Hin. apply Htail. split; [|lia].
      assert (Hmod : RM.m_mappedSize r mod ps = 0)
        by (rewrite Hmapped; apply round_up_mod; lia).
      apply Z_div_exact_full_2 in Hmod; [|lia].
      assert (Hmod' : round_up ps n mod ps = 0) by (apply round_up_mod; lia).
      apply Z_div_exact_full_2 in Hmod'; [|lia].
      assert (round_up ps n / ps <= j / ps) by (apply Z.div_le_mono; lia).
      assert (RM.m_mappedSize r / ps <= j / ps) by lia.
      pose proof (Z.mul_div_le j ps Hps). nia.
    + rewrite RM_resize_throw by lia. intros [= <- <-].
      split_and!; [assumption|apply os_after_refl|reflexivity].
  - destruct (Z.leb_spec 0 k); [|discriminate].
    destruct (Z.ltb_spec k (RM.size r)); [|discriminate]. cbn [andb].
    rewrite (RM_store os r k b Hinv) by lia. cbn.
    intros [= <- <-]. split_and!.
    + destruct Hinv as [Hps Hb Hal Hcap Hroom Hsz Hmapped Hpages].
      intros j Hj. cbn [os_mem set_vm os_pagesize] in *.
      pose proof (round_up_bounds (os_pagesize os) (RM.m_size r) Hps).
      unfold RM.size in *.
      destruct (Z.eqb_spec (RM_base r + j) (RM_base r + k)); [lia|].
      apply Htail. exact Hj.
    + constructor; cbn; auto; reflexivity || lia.
    + reflexivity.
Qed.

Lemma RM_run_tail ops : forall r os r' os',
  RM_inv os r -> RM_tail_zero os r ->
  client_run ops (r, os) = Some (r', os') ->
  RM_tail_zero os' r' /\ os_after os os' /\ os_files os' = os_files os.
Proof.
  induction ops as [|o ops IH]; intros r os r' os' Hinv Htail; cbn -[client_step].
  - intros [= <- <-]. split_and!; auto using os_after_refl.
  - destruct (client_step o (r, os)) as [[r1 os1]|] eqn:Hs; [|discriminate].
    intros Hrun.
    destruct (RM_step_inv _ _ _ _ _ Hinv Hs) as [Hinv1 _].
    destruct (RM_step_tail _ _ _ _ _ Hinv Htail Hs) as (Htail1 & Ha1 & Hf1).
    destruct (IH _ _ _ _ Hinv1 Htail1 Hrun) as (Htail' & Ha' & Hf').
    split_and!; [assumption|eapply os_after_trans; eassumption|congruence].
Qed.

(** The state the constructor of a resizable memory leaves. *)
Lemma RM_ctor_state init cap os r os' :
  os_wf os -> 0 <= init ->
  RM.ctor init cap os = (Ok r, os') ->
  os_files os' = os_files os /\ os_fds os' = os_fds os
  /\ os_next_fd os' = os_next_fd os /\ os_pagesize os' = os_pagesize os
  /\ below_hint os' (os_hint os) cap
  /\ os_hint os' mod os_pagesize os' = 0
  /\ RM_tail_zero os' r
  /\ (forall j, 0 <= j < round_up (os_pagesize os) cap -> os_mem os' (os_hint os + j) = 0)
  /\ (forall p, in_pages (os_hint os / os_pagesize os) (pages_for os cap) p = false ->
                os_pages os' p = os_pages os p).
Proof.
  intros Hwf Hinit. unfold RM.ctor, MemoryMap.ctor. msimpl.
  fold RESERVE_FLAGS. rewrite reserve_run.
  destruct (Z.leb_spec cap 0) as [Hc|Hc]; [discriminate|].
  destruct (Z.ltb_spec SIZE_WIDTH (os_hint os + pages_for os cap * os_pagesize os))
    as [Hr|Hr]; [discriminate|].
  change (negb (Z.land RESERVE_FLAGS (Z.lor MAP_FIXED MAP_FIXED_NOREPLACE) =? 0))
    with false.
  pose proof (RM_reserved_inv os cap Hwf Hc Hr) as Hinv.
  set (os1 := mmap_install _ _ _ _ _) in *.
  set (r0 := RM.Build _ 0 0) in *.
  destruct Hwf as (Hps & Hh & Hal).
  assert (Hzero : forall j, 0 <= j < round_up (os_pagesize os) cap ->
                    os_mem os1 (os_hint os + j) = 0).
  { intros j Hj. cbn. rewrite div_aligned_add by assumption.
    destruct (in_pages_false (os_hint os / os_pagesize os) (pages_for os cap)
                (os_hint os / os_pagesize os + j / os_pagesize os)) as [Hf _].
    destruct (in_pages _ _ _); [reflexivity|]. exfalso. apply Hf; [reflexivity|].
    split; [pose proof (Z.div_pos j (os_pagesize os)); lia|].
    apply Z.add_lt_mono_l. apply Z.div_lt_upper_bound; [lia|].
    rewrite Z.mul_comm, pages_for_round_up by assumption. lia. }
  destruct (Z.le_gt_cases init cap) as [Hle|Hgt].
  - destruct (RM_resize_run os1 r0 init Hinv) as (os2 & Hrun & Hinv' & Hfr).
    { unfold r0, RM.capacity; cbn. lia. }
    pose proof (RM_resize_after init _ _ _ Hrun) as [Hps2 Hfds2 Hnext2 Hh2 Hal2].
    destruct (RM_resize_mem os1 r0 init _ _ Hinv ltac:(unfold r0, RM.capacity; cbn; lia)
                Hrun) as (Hfiles2 & Hmem2 & Hout2).
    cbn [snd] in *.
    assert (Hmem : forall a, os_mem os2 a = os_mem os1 a).
    { intros a. rewrite Hmem2. cbn [RM.m_mappedSize r0].
      destruct (in_pages _ _ _) eqn:Hin; [|reflexivity].
      apply in_pages_true in Hin. rewrite Z.div_0_l in Hin by (cbn; lia).
      pose proof (round_up_nonneg (os_pagesize os) init Hps Hinit).
      assert (0 <= round_up (os_pagesize os1) init / os_pagesize os1).
      { apply Z.div_pos; cbn; lia. }
      lia. }
    rewrite Hrun. intros [= <- <-].
    split_and!; try assumption.
    + unfold below_hint. rewrite Hps2.
      change (os_hint os1)
        with (Z.max (os_hint os) (os_hint os + pages_for os cap * os_pagesize os)) in Hh2.
      change (pages_for os2 cap) with ((cap + os_pagesize os2 - 1) / os_pagesize os2).
      rewrite Hps2. change (os_pagesize os1) with (os_pagesize os).
      fold (pages_for os cap). lia.
    + apply Hal2. cbn. destruct (Z.max_spec (os_hint os)
        (os_hint os + pages_for os cap * os_pagesize os)) as [[_ ->]|[_ ->]];
        [rewrite mod_add_pages|]; assumption.
    + intros j Hj. unfold RM_base, RM.capacity in *. cbn in *.
      rewrite Hps2 in Hj. cbn in Hj. rewrite Hmem. apply Hzero.
      pose proof (round_up_nonneg (os_pagesize os) init Hps Hinit). lia.
    + intros j Hj. rewrite Hmem. apply Hzero. exact Hj.
    + intros p Hp. rewrite Hout2 by exact Hp. cbn. rewrite Hp. reflexivity.
  - rewrite RM_resize_throw by (unfold r0, RM.capacity; cbn; lia).
    destruct (RM.dtor r0 os1) as [[u| |] os2]; discriminate.
Qed.

(** Everything known of a resizable memory that its constructor built and
    a client then used. *)
Lemma RM_reach init cap os0 r0 os1 ops r os :
  os_wf os0 -> 0 <= init ->
  RM.ctor init cap os0 = (Ok r0, os1) ->
  client_run ops (r0, os1) = Some (r, os) ->
  RM_inv os r
  /\ RM.m_reserved r = MemoryMap.Build cap (os_hint os0) false
  /\ RM_tail_zero os r
  /\ below_hint os (os_hint os0) cap
  /\ os_files os = os_files os0 /\ os_fds os = os_fds os0
  /\ os_next_fd os = os_next_fd os0 /\ os_pagesize os = os_pagesize os0
  /\ os_hint os mod os_pagesize os = 0.
Proof.
  intros Hwf Hinit Hc Hrun.
  destruct (RM_ctor_ok _ _ _ _ _ Hwf Hinit Hc) as (Hinv0 & Hres0 & _).
  destruct (RM_ctor_state _ _ _ _ _ Hwf Hinit Hc)
    as (Hf1 & Hfds1 & Hn1 & Hps1 & Hbelow1 & Hal1 & Htail1 & _ & _).
  destruct (RM_run_inv _ _ _ _ _ Hinv0 Hrun) as [Hinv Hres].
  destruct (RM_run_tail _ _ _ _ _ Hinv0 Htail1 Hrun)
    as (Htail & [Hps Hfds Hnext Hh Hal] & Hfiles).
  split_and!; try congruence; auto.
  unfold below_hint, pages_for in *. rewrite Hps. lia.
Qed.

(** The invariant of a resizable memory depends on its own pages only. *)
Lemma RM_inv_frame os os' r :
  RM_inv os r -> os_pagesize os' = os_pagesize os ->
  (forall p, RM_base r / os_pagesize os <= p
               < RM_base r / os_pagesize os + pages_for os (RM.capacity r) ->
             os_pages os' p = os_pages os p) ->
  RM_inv os' r.
Proof.
  intros [Hps Hb Hal Hcap Hroom Hsz Hmapped Hpages] Hps' Hpg.
  assert (Hpf : forall x, pages_for os' x = pages_for os x).
  { intros x. unfold pages_for. rewrite Hps'. reflexivity. }
  constructor; rewrite ?Hpf, ?Hps'; try assumption.
  intros p Hp. rewrite Hpg by exact Hp. apply Hpages. exact Hp.
Qed.

(** ** Moves *)

(** ** Moves *)

Lemma FD_move_ctor_fst f : fst (FileDescriptor.move_ctor f) = f.
Proof. destruct f. reflexivity. Qed.

Lemma MemoryMap_move_ctor_fst m : fst (MemoryMap.move_ctor m) = m.
Proof. destruct m. reflexivity. Qed.

Lemma RMF_move_ctor_fst r : fst (RMF.move_ctor r) = r.
Proof. destruct r as [[] [] [[]|]]; reflexivity. Qed.

Lemma RM_move_ctor_fst r : fst (RM.move_ctor r) = r.
Proof. destruct r as [[] ? ?]; reflexivity. Qed.

Lemma MappedFile_move_ctor_fst f : fst (MappedFile.move_ctor f) = f.
Proof. destruct f as [[] []]; reflexivity. Qed.

Lemma FD_dtor_moved f os :
  FileDescriptor.dtor (snd (FileDescriptor.move_ctor f)) os = (Ok tt, os).
Proof. reflexivity. Qed.

Lemma RMF_dtor_moved r os : RMF.dtor (snd (RMF.move_ctor r)) os = (Ok tt, os).
Proof.
  unfold RMF.dtor, RMF.move_ctor, RMF.optional_move_ctor. cbn.
  destruct (RMF.m_mapped r); reflexivity.
Qed.

Lemma RM_dtor_moved r os : RM.dtor (snd (RM.move_ctor r)) os = (Ok tt, os).
Proof. reflexivity. Qed.

Lemma MappedFile_dtor_moved W f os :
  MappedFile.dtor W (snd (MappedFile.move_ctor f)) os = (Ok tt, os).
Proof. reflexivity. Qed.

(** A destructor returns or ends the process; it never throws. *)
Lemma MemoryMap_dtor_nothrow prot m os e os' :
  MemoryMap.dtor prot m os <> (Throw e, os').
Proof.
  unfold MemoryMap.dtor, noexcept.
  destruct (MemoryMap.unmap prot m os) as [[[]| |] ?]; discriminate.
Qed.

(** The move assignment of a resizable file releases what its destructor
    releases, in the same order, and then holds what [other] held. *)
Lemma RMF_move_assign_dtor this other os :
  RMF.move_assign this other os =
    match RMF.dtor this os with
    | (Ok _, os') => (Ok (RMF.move_ctor other), os')
    | (_, os') => (Terminated, os')
    end.
Proof.
  unfold RMF.move_assign, RMF.dtor, RMF.optional_move_assign, RMF.move_ctor,
    RMF.optional_move_ctor, MemoryMap.move_assign, FileDescriptor.move_assign,
    FileDescriptor.dtor, MemoryMap.dtor, FileDescriptor.move_ctor, MemoryMap.move_ctor.
  unfold noexcept, bind, ret, syscall_ignored.
  destruct (RMF.m_mapped this) as [a|], (RMF.m_mapped other) as [b|]; cbn [fst snd].
  all: try destruct (MemoryMap.unmap PROT_RW a os) as [[[]| |] os1]; try reflexivity.
  all: destruct (FileDescriptor.m_fd (RMF.m_file this) =? -1).
  all: try (destruct (MemoryMap.unmap PROT_NONE (RMF.m_reserved this) os1)
              as [[[]| |] os2]; reflexivity).
  all: try (destruct (MemoryMap.unmap PROT_NONE (RMF.m_reserved this)
                        (snd (sys_close (FileDescriptor.m_fd (RMF.m_file this)) os1)))
              as [[[]| |] os2]; reflexivity).
  all: try (destruct (MemoryMap.unmap PROT_NONE (RMF.m_reserved this) os)
              as [[[]| |] os2]; reflexivity).
  all: try (destruct (MemoryMap.unmap PROT_NONE (RMF.m_reserved this)
                        (snd (sys_close (FileDescriptor.m_fd (RMF.m_file this)) os)))
              as [[[]| |] os2]; reflexivity).
Qed.

Lemma RM_move_assign_dtor this other os :
  RM.move_assign this other os =
    match RM.dtor this os with
    | (Ok _, os') => (Ok (RM.move_ctor other), os')
    | (_, os') => (Terminated, os')
    end.
Proof.
  unfold RM.move_assign, RM.dtor, RM.move_ctor, MemoryMap.move_assign,
    MemoryMap.dtor, MemoryMap.move_ctor.
  unfold noexcept, bind, ret. cbn [fst snd].
  destruct (MemoryMap.unmap PROT_NONE (RM.m_reserved this) os) as [[[]| |] os1];
    reflexivity.
Qed.

(** The invariant of a resizable file depends on its own pages, its own
    descriptor and its own file only. *)
Lemma RMF_inv_frame os os' r path :
  RMF_inv os r -> RMF_path os r path ->
  os_pagesize os' = os_pagesize os ->
  (forall p, RMF_base r / os_pagesize os <= p
               < RMF_base r / os_pagesize os + pages_for os (RMF.capacity r) ->
             os_pages os' p = os_pages os p) ->
  os_fds os' !! FileDescriptor.m_fd (RMF.m_file r)
    = os_fds os !! FileDescriptor.m_fd (RMF.m_file r) ->
  os_files os' !! path = os_files os !! path ->
  RMF_inv os' r.
Proof.
  intros Hinv Hpath Hps' Hpg Hfd Hf.
  destruct (RMF_inv_path _ _ _ Hinv Hpath) as [Hsome Hm].
  destruct Hinv as [Hps Hal Hcap Hroom Hresv _].
  assert (Hpf : forall x, pages_for os' x = pages_for os x).
  { intros x. unfold pages_for. rewrite Hps'. reflexivity. }
  constructor.
  - rewrite Hps'. exact Hps.
  - rewrite Hps'. exact Hal.
  - exact Hcap.
  - rewrite Hpf, Hps'. exact Hroom.
  - intros p Hp. rewrite Hpf, Hps' in Hp. rewrite Hpg by exact Hp. apply Hresv. exact Hp.
  - exists path, OPEN_FLAGS. split_and!.
    + rewrite Hfd. exact Hpath.
    + reflexivity.
    + rewrite Hf. exact Hsome.
    + unfold RMF_mapped_ok, file_length in *.
      destruct (RMF.m_mapped r) as [m|]; [|exact I].
      destruct Hm as (Hmeq & Hsz & Hlen & Hpgm).
      split_and!.
      * exact Hmeq.
      * apply Hsz.
      * apply Hsz.
      * rewrite Hf. exact Hlen.
      * intros p Hp. rewrite Hpf, Hps' in Hp. rewrite Hps'.
        rewrite Hpg; [apply Hpgm; exact Hp|].
        pose proof (pages_for_mono os (MemoryMap.m_size m) (RMF.capacity r) Hps
                      ltac:(lia)).
        lia.
Qed.

(** Pages of a reservation that lies below the kernel's next address are
    not pages of a mapping made there. *)
Lemma below_hint_pages os base cap n p :
  0 < os_pagesize os -> base mod os_pagesize os = 0 ->
  os_hint os mod os_pagesize os = 0 ->
  below_hint os base cap ->
  base / os_pagesize os <= p < base / os_pagesize os + pages_for os cap ->
  in_pages (os_hint os / os_pagesize os) n p = false.
Proof.
  intros Hps Hal Hhal Hbelow Hp. apply in_pages_false. intros [Hlo _].
  unfold below_hint in Hbelow.
  apply Z_div_exact_full_2 in Hal; [|lia].
  apply Z_div_exact_full_2 in Hhal; [|lia].
  nia.
Qed.

(** ** Whole-file mappings *)

(** The constructor on an existing, non-empty file, with private or shared
    pages. *)
Lemma MappedFile_ctor_run W path flags os data :
  os_wf os -> os_files os !! path = Some data ->
  0 < Z.of_nat (length data) < 2 ^ 63 ->
  os_room os (Z.of_nat (length data)) ->
  flags = MAP_PRIVATE \/ flags = MAP_SHARED ->
  MappedFile.ctor W path flags os =
    (Ok (MappedFile.Build (FileDescriptor.Build (os_next_fd os))
           (MemoryMap.Build (Z.of_nat (length data)) (os_hint os) false)),
     MappedFile_state os path (if W then O_RDWR else O_RDONLY)
       (MappedFile.MapMemoryProtection W)
       (if flags =? MAP_PRIVATE then FilePrivate path 0 else FileShared path 0)
       (Z.of_nat (length data))).
Proof.
  intros (Hps & Hh & Hal) Hf Hlen Hroom Hflags.
  unfold MappedFile.ctor. unfold bind at 1.
  rewrite (FD_ctor_existing _ _ _ _ _ Hf).
  set (os1 := set_fds _ _ os). set (file := FileDescriptor.Build _).
  unfold unwinding, bind.
  rewrite (FD_size_run file os1 path (if W then O_RDWR else O_RDONLY) data);
    [|apply lookup_insert_eq|exact Hf].
  rewrite wrap64_small by (unfold SIZE_WIDTH; lia).
  unfold MemoryMap.ctor, bind, syscall, sys_mmap.
  destruct (Z.leb_spec (Z.of_nat (length data)) 0); [lia|].
  assert (Hty : map_type_ok flags = true) by (destruct Hflags as [->| ->]; reflexivity).
  rewrite Hty. rewrite Zmod_0_l. cbn [negb Z.eqb].
  assert (Hbk : mmap_backing (MappedFile.MapMemoryProtection W) flags
                  (FileDescriptor.m_fd file) 0 os1
                = inr (if flags =? MAP_PRIVATE then FilePrivate path 0
                       else FileShared path 0)).
  { unfold mmap_backing.
    assert (Hanon : has_flag flags MAP_ANONYMOUS = false)
      by (destruct Hflags as [->| ->]; reflexivity).
    rewrite Hanon. unfold os1, file. cbn [os_fds set_fds FileDescriptor.m_fd].
    rewrite lookup_insert_eq.
    destruct Hflags as [->| ->], W; reflexivity. }
  rewrite Hbk. unfold mmap_place.
  assert (Hfx : has_flag flags MAP_FIXED = false)
    by (destruct Hflags as [->| ->]; reflexivity).
  assert (Hfnr : has_flag flags MAP_FIXED_NOREPLACE = false)
    by (destruct Hflags as [->| ->]; reflexivity).
  rewrite Hfx, Hfnr. unfold os_room in Hroom.
  change (os_hint os1) with (os_hint os). change (os_pagesize os1) with (os_pagesize os).
  change (pages_for os1 (Z.of_nat (length data)))
    with (pages_for os (Z.of_nat (length data))).
  destruct (Z.ltb_spec SIZE_WIDTH
              (os_hint os + pages_for os (Z.of_nat (length data)) * os_pagesize os));
    [lia|].
  unfold ret.
  assert (Hfixed : negb (Z.land flags (Z.lor MAP_FIXED MAP_FIXED_NOREPLACE) =? 0) = false)
    by (destruct Hflags as [->| ->]; reflexivity).
  rewrite Hfixed. reflexivity.
Qed.

(** The pages of a whole-file mapping. *)
Lemma MappedFile_state_page os path oflags prot bk len i :
  os_wf os -> 0 <= i < pages_for os len * os_pagesize os ->
  let os1 := MappedFile_state os path oflags prot bk len in
  (os_hint os + i) / os_pagesize os1
    = os_hint os / os_pagesize os + i / os_pagesize os
  /\ os_pages os1 ((os_hint os + i) / os_pagesize os1)
     = Some (Page prot (page_backing bk (os_pagesize os) (i / os_pagesize os))).
Proof.
  intros (Hps & Hh & Hal) Hi os1.
  assert (Hdiv : (os_hint os + i) / os_pagesize os
                 = os_hint os / os_pagesize os + i / os_pagesize os)
    by (apply div_aligned_add; assumption).
  split; [exact Hdiv|].
  unfold os1, MappedFile_state. cbn [os_pages os_pagesize mmap_install set_vm set_fds].
  rewrite Hdiv.
  destruct (in_pages_false (os_hint os / os_pagesize os)
              (pages_for (set_fds (<[os_next_fd os:=(path, oflags)]> (os_fds os))
                            (os_next_fd os + 1) os) len)
              (os_hint os / os_pagesize os + i / os_pagesize os)) as [Hf _].
  destruct (in_pages _ _ _).
  - do 3 f_equal. lia.
  - exfalso. apply Hf; [reflexivity|].
    change (pages_for (set_fds _ _ os) len) with (pages_for os len).
    split; [pose proof (Z.div_pos i (os_pagesize os)); lia|].
    apply Z.add_lt_mono_l. apply Z.div_lt_upper_bound; lia.
Qed.

(** A store to a shared, writable page of [path] is a store to the file. *)
Lemma store_shared_run os base path n data k b :
  0 < os_pagesize os -> base mod os_pagesize os = 0 ->
  (forall j, 0 <= j < n ->
     os_pages os (base / os_pagesize os + j)
       = Some (Page PROT_RW (FileShared path (0 + j * os_pagesize os)))) ->
  os_files os !! path = Some data ->
  0 <= k < Z.of_nat (length data) -> Z.of_nat (length data) <= n * os_pagesize os ->
  store os (base + k) b
    = Some (set_files (<[path := <[Z.to_nat k := b mod 256]> data]> (os_files os)) os).
Proof.
  intros Hps Hal Hpg Hf Hk Hn. set (ps := os_pagesize os) in *.
  unfold store. fold ps. rewrite div_aligned_add by assumption.
  pose proof (Z.mul_div_le k ps Hps). pose proof (Z.div_pos k ps).
  rewrite Hpg; cycle 1.
  { split; [lia|]. apply Z.div_lt_upper_bound; lia. }
  cbn [pg_prot pg_back]. change (has_flag PROT_RW PROT_WRITE) with true. cbn [negb].
  rewrite Hf.
  destruct (Z.leb_spec (Z.of_nat (length data)) (0 + k / ps * ps)); [lia|].
  replace ((base + k) mod ps) with (k mod ps)
    by (rewrite Z.add_mod, Hal, Z.add_0_l, Z.mod_mod by lia; reflexivity).
  do 5 f_equal. pose proof (Z.div_mod k ps). lia.
Qed.

Lemma set_files_same os : set_files (os_files os) os = os.
Proof. destruct os. reflexivity. Qed.

Lemma set_files_twice f g os : set_files f (set_files g os) = set_files f os.
Proof. reflexivity. Qed.

(** Consecutive stores to shared pages overwrite the file in place. *)
Lemma store_bytes_shared base path n bs : forall os data k,
  0 < os_pagesize os -> base mod os_pagesize os = 0 ->
  (forall j, 0 <= j < n ->
     os_pages os (base / os_pagesize os + j)
       = Some (Page PROT_RW (FileShared path (0 + j * os_pagesize os)))) ->
  os_files os !! path = Some data ->
  (k + length bs <= length data)%nat ->
  Z.of_nat (length data) <= n * os_pagesize os ->
  store_bytes os (base + Z.of_nat k) bs
    = Some (set_files
              (<[path := list_inserts k ((fun b => b mod 256) <$> bs) data]> (os_files os))
              os).
Proof.
  induction bs as [|b bs IH]; intros os data k Hps Hal Hpg Hf Hk Hn.
  - cbn. rewrite insert_id by exact Hf. rewrite set_files_same. reflexivity.
  - cbn [store_bytes length] in *.
    rewrite (store_shared_run os base path n data (Z.of_nat k) b Hps Hal Hpg Hf)
      by lia.
    set (os1 := set_files _ os).
    replace (base + Z.of_nat k + 1) with (base + Z.of_nat (S k)) by lia.
    rewrite (IH os1 (<[Z.to_nat (Z.of_nat k) := b mod 256]> data) (S k));
      try assumption.
    + unfold os1. rewrite set_files_twice. cbn [os_files set_files].
      rewrite insert_insert_eq. rewrite Nat2Z.id. cbn [fmap list_fmap list_inserts].
      rewrite list_insert_inserts_lt by lia. reflexivity.
    + unfold os1. cbn [os_files set_files]. apply lookup_insert_eq.
    + rewrite length_insert. lia.
    + rewrite length_insert. exact Hn.
Qed.

(** The destructor of a whole-file mapping that is in place: the pages go
    and the descriptor is closed. *)
Lemma MappedFile_dtor_run W os fd base len x :
  0 < os_pagesize os -> base mod os_pagesize os = 0 -> 0 < len ->
  base <> MAP_FAILED -> fd <> -1 ->
  (forall p, base / os_pagesize os <= p < base / os_pagesize os + pages_for os len ->
             is_Some (os_pages os p)) ->
  os_fds os !! fd = Some x ->
  MappedFile.dtor W
    (MappedFile.Build (FileDescriptor.Build fd) (MemoryMap.Build len base false)) os
  = (Ok tt,
     set_fds (delete fd (os_fds os)) (os_next_fd os)
       (set_vm (fun p => if in_pages (base / os_pagesize os) (pages_for os len) p
                         then None else os_pages os p)
               (os_mem os) (os_hint os) os)).
Proof.
  intros Hps Hal Hlen Hnf Hfd Hpg Hx.
  unfold MappedFile.dtor, FileDescriptor.dtor, MemoryMap.dtor, MemoryMap.unmap,
    MemoryMap.sync, noexcept.
  msimpl. cbn [MappedFile.m_mapped MappedFile.m_file MemoryMap.m_address
               MemoryMap.m_size MemoryMap.m_fixed FileDescriptor.m_fd].
  destruct (Z.eqb_spec base MAP_FAILED) as [?|_]; [contradiction|].
  destruct (Z.eqb_spec fd (-1)) as [?|_]; [contradiction|].
  destruct W.
  - change (MemoryMap.Writable (MappedFile.MapMemoryProtection true)) with true.
    cbv beta iota. rewrite msync_run by assumption. cbv beta iota.
    rewrite (munmap_run os) by assumption. cbv beta iota.
    unfold syscall_ignored. erewrite close_run by exact Hx. reflexivity.
  - change (MemoryMap.Writable (MappedFile.MapMemoryProtection false)) with false.
    cbv beta iota. rewrite (munmap_run os) by assumption. cbv beta iota.
    unfold syscall_ignored. erewrite close_run by exact Hx. reflexivity.
Qed.

(** ** Properties of the resizable file *)

Lemma to_off_t_fits n : 0 <= n < SIZE_WIDTH -> 0 <= to_off_t n -> n < 2 ^ 63.
Proof.
  intros Hn. unfold to_off_t. rewrite wrap64_small by assumption.
  destruct (Z.ltb_spec n (2 ^ 63)); [lia|]. unfold SIZE_WIDTH in *. lia.
Qed.

(** X1.  What a successful [resize(n)] of a [ResizableMappedFile] does to
    the contents: the file is cut at [n] bytes or extended with zero bytes
    to [n]; before the call the program read the file's bytes through
    [data()], and after it it reads the bytes of the new file, so every
    byte below both sizes is kept and every new byte is zero. *)
Theorem resize_file_keeps_contents :
  forall os0 path cap r0 os1 ops r os n r' os',
    os_wf os0 -> files_off_t os0 ->
    RMF.ctor path cap os0 = (Ok r0, os1) ->
    client_run ops (r0, os1) = Some (r, os) ->
    is_size_t n = true ->
    RMF.resize n (r, os) = (Ok tt, (r', os')) ->
    exists data,
      os_files os !! path = Some data
      /\ os_files os' = <[path := resize (Z.to_nat n) 0 data]> (os_files os)
      /\ (RMF.size r <> 0 -> Z.of_nat (length data) = RMF.size r)
      /\ (forall k, 0 <= k < RMF.size r ->
            load os (RMF.data r + k) = data !! Z.to_nat k)
      /\ (forall k, 0 <= k < n ->
            load os' (RMF.data r' + k) = Some (default 0 (data !! Z.to_nat k))).
Proof.
  intros os0 path cap r0 os1 ops r os n r' os' Hwf Hoff Hc Hrun Hn%is_size_t_spec Hr.
  destruct (RMF_reach _ _ _ _ _ _ _ _ Hwf Hoff Hc Hrun)
    as (Hinv & Hres & Hfile & Hpath & _).
  destruct (RMF_inv_path _ _ _ Hinv Hpath) as [[data Hdata] _].
  exists data. split; [assumption|].
  pose proof (RMF_resize_ok _ _ _ _ _ Hr) as (Hle & _ & _ & _ & _ & _ & Hoff' & _).
  pose proof (to_off_t_fits n Hn Hoff') as H63.
  destruct (RMF_resize_run os r n path OPEN_FLAGS data Hinv ltac:(lia) H63 Hpath Hdata)
    as (os2 & Hrun2 & Hinv2 & Hfiles2 & Hfds2).
  rewrite Hrun2 in Hr. injection Hr as <- <-.
  destruct (RMF_read os r path data Hinv Hpath Hdata) as [Hlen Hread].
  split_and!; try assumption.
  intros k Hk.
  set (r2 := RMF.Build _ _ _) in *.
  assert (Hpath2 : RMF_path os2 r2 path).
  { unfold RMF_path in *. rewrite Hfds2. exact Hpath. }
  assert (Hdata2 : os_files os2 !! path = Some (resize (Z.to_nat n) 0 data)).
  { rewrite Hfiles2. apply lookup_insert_eq. }
  destruct (RMF_read os2 r2 path _ Hinv2 Hpath2 Hdata2) as [_ Hread2].
  assert (Hsz2 : RMF.size r2 = n).
  { unfold r2, RMF.size. cbn. destruct (Z.eqb_spec n 0); cbn; lia. }
  rewrite Hread2 by (rewrite Hsz2; exact Hk).
  destruct (data !! Z.to_nat k) as [x|] eqn:Hx.
  - rewrite lookup_resize; [rewrite Hx; reflexivity|lia|].
    apply lookup_lt_Some in Hx. exact Hx.
  - apply lookup_ge_None in Hx. rewrite lookup_resize_new by lia. reflexivity.
Qed.

Lemma resize_file_keeps_contents_witness :
  exists data,
    os_files (snd demo_file) !! "t2"%string = Some data
    /\ os_files (snd (snd demo_file_step))
       = <[ "t2"%string := resize (Z.to_nat 13) 0 data]> (os_files (snd demo_file))
    /\ (RMF.size (fst demo_file) <> 0
        -> Z.of_nat (length data) = RMF.size (fst demo_file))
    /\ (forall k, 0 <= k < RMF.size (fst demo_file) ->
          load (snd demo_file) (RMF.data (fst demo_file) + k) = data !! Z.to_nat k)
    /\ (forall k, 0 <= k < 13 ->
          load (snd (snd demo_file_step)) (RMF.data (fst (snd demo_file_step)) + k)
            = Some (default 0 (data !! Z.to_nat k))).
Proof.
  assert (Hwf : os_wf os_demo) by (vm_compute; repeat split).
  assert (Hoff : files_off_t os_demo).
  { unfold files_off_t. refine (bool_decide_unpack _ _). vm_compute. exact I. }
  assert (Hc : fst (RMF.ctor "t2" 1500 os_demo) = Ok demo_file_r0)
    by (vm_compute; reflexivity).
  assert (Hrun : is_some (client_run demo_file_ops (demo_file_r0, demo_file_os1)) = true)
    by (vm_compute; reflexivity).
  assert (Hr : fst demo_file_step = Ok tt) by (vm_compute; reflexivity).
  exact (resize_file_keeps_contents os_demo "t2" 1500 demo_file_r0 demo_file_os1
           demo_file_ops (fst demo_file) (snd demo_file) 13 _ _
           Hwf Hoff (run_result _ _ Hc)
           (run_option (demo_file_r0, demo_file_os1) _ Hrun)
           eq_refl (run_result_pair demo_file_step tt Hr)).
Defined.



(** X3.  A store through [data()] of a resizable file is a write to the
    file: the byte at the same offset of the file changes at once and
    nothing else of the file does, and the program reads back what it
    stored. *)
Theorem file_store_reaches_file :
  forall os0 path cap r0 os1 ops r os k b,
    os_wf os0 -> files_off_t os0 ->
    RMF.ctor path cap os0 = (Ok r0, os1) ->
    client_run ops (r0, os1) = Some (r, os) ->
    0 <= k < RMF.size r ->
    exists data os',
      os_files os !! path = Some data
      /\ store os (RMF.data r + k) b = Some os'
      /\ os_files os' = <[path := <[Z.to_nat k := b mod 256]> data]> (os_files os)
      /\ forall j, 0 <= j < RMF.size r ->
           load os' (RMF.data r + j)
             = if j =? k then Some (b mod 256) else load os (RMF.data r + j).
Proof.
  intros os0 path cap r0 os1 ops r os k b Hwf Hoff Hc Hrun Hk.
  destruct (RMF_reach _ _ _ _ _ _ _ _ Hwf Hoff Hc Hrun)
    as (Hinv & Hres & Hfile & Hpath & _).
  destruct (RMF_inv_path _ _ _ Hinv Hpath) as [[data Hdata] _].
  pose proof (RMF_store_file os r path data k b Hinv Hpath Hdata Hk) as Hst.
  eexists data, _. split_and!; [exact Hdata|exact Hst|reflexivity|].
  set (os' := set_files _ os) in *.
  pose proof (RMF_inv_store _ _ _ _ _ Hst Hinv) as Hinv'.
  assert (Hpath' : RMF_path os' r path) by exact Hpath.
  assert (Hdata' : os_files os' !! path = Some (<[Z.to_nat k := b mod 256]> data)).
  { unfold os'. cbn. apply lookup_insert_eq. }
  destruct (RMF_read os r path data Hinv Hpath Hdata) as [Hlen Hread].
  destruct (RMF_read os' r path _ Hinv' Hpath' Hdata') as [_ Hread'].
  intros j Hj. rewrite Hread' by exact Hj. rewrite Hread by exact Hj.
  destruct (Z.eqb_spec j k) as [->|Hne].
  - apply list_lookup_insert_eq. lia.
  - apply list_lookup_insert_ne. lia.
Qed.

Lemma file_store_reaches_file_witness :
  exists data os',
    os_files (snd demo_file) !! "t2"%string = Some data
    /\ store (snd demo_file) (RMF.data (fst demo_file) + 7) 300 = Some os'
    /\ os_files os'
       = <[ "t2"%string := <[Z.to_nat 7 := 300 mod 256]> data]> (os_files (snd demo_file))
    /\ forall j, 0 <= j < RMF.size (fst demo_file) ->
         load os' (RMF.data (fst demo_file) + j)
           = if j =? 7 then Some (300 mod 256)
             else load (snd demo_file) (RMF.data (fst demo_file) + j).
Proof.
  assert (Hwf : os_wf os_demo) by (vm_compute; repeat split).
  assert (Hoff : files_off_t os_demo).
  { unfold files_off_t. refine (bool_decide_unpack _ _). vm_compute. exact I. }
  assert (Hc : fst (RMF.ctor "t2" 1500 os_demo) = Ok demo_file_r0)
    by (vm_compute; reflexivity).
  assert (Hrun : is_some (client_run demo_file_ops (demo_file_r0, demo_file_os1)) = true)
    by (vm_compute; reflexivity).
  assert (Hk : 0 <= 7 < RMF.size (fst demo_file))
    by (vm_compute; split; [discriminate|reflexivity]).
  exact (file_store_reaches_file os_demo "t2" 1500 demo_file_r0 demo_file_os1
           demo_file_ops (fst demo_file) (snd demo_file) 7 300
           Hwf Hoff (run_result _ _ Hc)
           (run_option (demo_file_r0, demo_file_os1) _ Hrun) Hk).
Defined.

(** X4.  The destructor of a [ResizableMappedFile] returns, closes the
    descriptor the constructor opened and no other, unmaps every page of
    the reservation and no other, and leaves every file as the last
    [resize] and the stores made it. *)
Theorem file_dtor_releases :
  forall os0 path cap r0 os1 ops r os,
    os_sane os0 ->
    RMF.ctor path cap os0 = (Ok r0, os1) ->
    client_run ops (r0, os1) = Some (r, os) ->
    exists os2,
      RMF.dtor r os = (Ok tt, os2)
      /\ os_files os2 = os_files os
      /\ os_fds os2 = delete (os_next_fd os0) (os_fds os0)
      /\ released os os2 (os_hint os0) cap.
Proof.
  intros os0 path cap r0 os1 ops r os Hsane Hc Hrun.
  pose proof Hsane as (_ & _ & Hfd0 & _).
  destruct (RMF_reach_sane _ _ _ _ _ _ _ _ Hsane Hc Hrun)
    as (Hinv & Hres & Hfile & Hpath & Hbelow & Hwf & Hps2 & Hps & Hfds & Hnext & _).
  assert (Hbase : RMF_base r = os_hint os0) by (unfold RMF_base; rewrite Hres; reflexivity).
  assert (Hcap : RMF.capacity r = cap).
  { unfold RMF.capacity, MemoryMap.size. rewrite Hres. reflexivity. }
  destruct (RMF_dtor_run os r path Hinv Hpath) as (os2 & Hd & Hf2 & Hfds2 & _ & _ & _ & Hrel).
  - rewrite Hres. reflexivity.
  - assumption.
  - rewrite Hfile. exact Hfd0.
  - rewrite Hbase, Hcap. exact Hbelow.
  - exists os2. split_and!; try assumption.
    + rewrite Hfds2, Hfile, Hfds. cbn. apply delete_insert_eq.
    + rewrite <- Hbase, <- Hcap. exact Hrel.
Qed.


Lemma file_dtor_releases_witness :
  exists os2,
    RMF.dtor (fst demo_file) (snd demo_file) = (Ok tt, os2)
    /\ os_files os2 = os_files (snd demo_file)
    /\ os_fds os2 = delete (os_next_fd os_demo) (os_fds os_demo)
    /\ released (snd demo_file) os2 (os_hint os_demo) 1500.
Proof.
  assert (Hsane : os_sane os_demo).
  { unfold os_sane, os_wf. split_and!; try reflexivity; [discriminate|].
    unfold files_off_t. refine (bool_decide_unpack _ _). vm_compute. exact I. }
  assert (Hc : fst (RMF.ctor "t2" 1500 os_demo) = Ok demo_file_r0)
    by (vm_compute; reflexivity).
  assert (Hrun : is_some (client_run demo_file_ops (demo_file_r0, demo_file_os1)) = true)
    by (vm_compute; reflexivity).
  exact (file_dtor_releases os_demo "t2" 1500 demo_file_r0 demo_file_os1
           demo_file_ops (fst demo_file) (snd demo_file)
           Hsane (run_result _ _ Hc)
           (run_option (demo_file_r0, demo_file_os1) _ Hrun)).
Defined.



(** ** Properties of the resizable memory *)

(** X6.  Memory that a [ResizableMappedMemory] newly commits reads as
    zero.  After the constructor every byte of the object is zero; and
    after a successful [resize(n)] every byte at an offset from the
    previous committed length (the previous size rounded up to whole
    pages) up to [n] is zero, whatever was stored there while the object
    was larger. *)
Theorem memory_new_bytes_read_zero :
  (forall os0 init cap r0 os1 j,
      os_wf os0 -> is_size_t init = true ->
      RM.ctor init cap os0 = (Ok r0, os1) ->
      0 <= j < init ->
      load os1 (RM.data r0 + j) = Some 0)
  /\
  (forall os0 init cap r0 os1 ops r os n r' os' j,
      os_wf os0 -> is_size_t init = true ->
      RM.ctor init cap os0 = (Ok r0, os1) ->
      client_run ops (r0, os1) = Some (r, os) ->
      is_size_t n = true ->
      RM.resize n (r, os) = (Ok tt, (r', os')) ->
      round_up (os_pagesize os) (RM.size r) <= j < n ->
      load os' (RM.data r' + j) = Some 0).
Proof.
  assert (Hload : forall os r j,
             RM_inv os r -> RM_tail_zero os r -> 0 <= j < RM.size r ->
             load os (RM.data r + j) = Some (os_mem os (RM_base r + j))).
  { intros os r j Hinv _ Hj. pose proof Hinv as [Hps _ _ _ _ Hsz Hmapped _].
    unfold RM.size in Hj. unfold RM.data, MemoryMap.address.
    destruct (Z.eqb_spec (RM.m_size r) 0); [lia|]. fold (RM_base r).
    pose proof (round_up_bounds (os_pagesize os) (RM.m_size r) Hps).
    pose proof (round_up_mono (os_pagesize os) (RM.m_size r) (RM.capacity r) Hps
                  ltac:(lia)).
    rewrite (RM_load os r j Hinv) by lia.
    destruct (Z.ltb_spec j (RM.m_mappedSize r)); [reflexivity|lia]. }
  split.
  - intros os0 init cap r0 os1 j Hwf Hinit%is_size_t_spec Hc Hj.
    assert (H0 : 0 <= init) by lia.
    destruct (RM_ctor_ok _ _ _ _ _ Hwf H0 Hc) as (Hinv & Hres & Hsz & _ & _ & Hle).
    destruct (RM_ctor_state _ _ _ _ _ Hwf H0 Hc)
      as (_ & _ & _ & Hps & _ & _ & Htail & Hzero & _).
    rewrite Hload; [|assumption|assumption|unfold RM.size; lia].
    f_equal. unfold RM_base. rewrite Hres. cbn. apply Hzero.
    destruct Hwf as (Hps0 & _).
    pose proof (round_up_bounds (os_pagesize os0) cap Hps0). lia.
  - intros os0 init cap r0 os1 ops r os n r' os' j Hwf Hinit%is_size_t_spec
           Hc Hrun Hn%is_size_t_spec Hr Hj.
    assert (H0 : 0 <= init) by lia.
    destruct (RM_reach _ _ _ _ _ _ _ _ Hwf H0 Hc Hrun)
      as (Hinv & Hres & Htail & _).
    destruct (Z.lt_ge_cases (RM.capacity r) n) as [Hgt|Hle].
    { rewrite RM_resize_throw in Hr by assumption. discriminate. }
    destruct (RM_resize_run os r n Hinv ltac:(lia)) as (os2 & Hrun2 & Hinv' & _).
    assert (Hstep : client_step (Resize n) (r, os) = Some (r', os')).
    { cbn -[RM.resize]. destruct (is_size_t_spec n) as [_ ->]; [|assumption].
      rewrite Hr. reflexivity. }
    destruct (RM_step_tail _ _ _ _ _ Hinv Htail Hstep) as (Htail' & [Hps' _ _ _ _] & _).
    rewrite Hrun2 in Hr. injection Hr as <- <-.
    pose proof Hinv as [Hps _ _ _ _ Hsz Hmapped _].
    pose proof (round_up_nonneg (os_pagesize os) (RM.m_size r) Hps ltac:(lia)).
    unfold RM.size in Hj.
    rewrite Hload; [|assumption|assumption|unfold RM.size; cbn; lia].
    f_equal.
    destruct (Z.lt_ge_cases j (round_up (os_pagesize os) n)) as [Hin|Hout].
    + (* below the new committed length: the byte did not change, and it was
         in the tail of the old object *)
      destruct (RM_resize_mem os r n _ _ Hinv ltac:(lia) Hrun2) as (_ & Hmem & _).
      unfold RM_base. cbn [RM.m_reserved]. fold (RM_base r).
      rewrite Hmem.
      destruct (in_pages _ _ _) eqn:Hp; [reflexivity|].
      apply Htail. rewrite Hmapped.
      pose proof (round_up_mono (os_pagesize os) n (RM.capacity r) Hps Hle). lia.
    + pose proof (round_up_bounds (os_pagesize os) n Hps). lia.
Qed.

Lemma memory_new_bytes_read_zero_witness :
  load demo_mem_os1 (RM.data demo_mem_r0 + 0) = Some 0
  /\ load (snd (snd (RM.resize 10000 (fst demo_mem, snd demo_mem))))
          (RM.data (fst (snd (RM.resize 10000 (fst demo_mem, snd demo_mem)))) + 9000)
     = Some 0.
Proof.
  assert (Hwf : os_wf os_demo) by (vm_compute; repeat split).
  assert (Hc : fst (RM.ctor 1 10000 os_demo) = Ok demo_mem_r0)
    by (vm_compute; reflexivity).
  assert (Hrun : is_some (client_run demo_ops (demo_mem_r0, demo_mem_os1)) = true)
    by (vm_compute; reflexivity).
  assert (Hr : fst (RM.resize 10000 (fst demo_mem, snd demo_mem)) = Ok tt)
    by (vm_compute; reflexivity).
  assert (Hj : round_up (os_pagesize (snd demo_mem)) (RM.size (fst demo_mem))
               <= 9000 < 10000)
    by (vm_compute; split; [discriminate|reflexivity]).
  exact (conj
           (proj1 memory_new_bytes_read_zero os_demo 1 10000 demo_mem_r0 demo_mem_os1 0
              Hwf eq_refl (run_result _ _ Hc) ltac:(lia))
           (proj2 memory_new_bytes_read_zero os_demo 1 10000 demo_mem_r0 demo_mem_os1
              demo_ops (fst demo_mem) (snd demo_mem) 10000 _ _ 9000
              Hwf eq_refl (run_result _ _ Hc)
              (run_option (demo_mem_r0, demo_mem_os1) _ Hrun)
              eq_refl (run_result_pair _ tt Hr) Hj)).
Defined.

(** X7.  Shrinking a [ResizableMappedMemory] does not clear the rest of
    the last page it keeps.  After a successful [resize(n)] and a second
    successful [resize(m)], every byte below the old size, below [m] and
    below [n] rounded up to whole pages reads what it read before the
    first call: also the bytes from [n] on, which the object did not hold
    in between. *)
Theorem memory_shrink_keeps_page_tail :
  forall os0 init cap r0 os1 ops r os n r1 os2 m r2 os3 j,
    os_wf os0 -> is_size_t init = true ->
    RM.ctor init cap os0 = (Ok r0, os1) ->
    client_run ops (r0, os1) = Some (r, os) ->
    is_size_t n = true -> is_size_t m = true ->
    RM.resize n (r, os) = (Ok tt, (r1, os2)) ->
    RM.resize m (r1, os2) = (Ok tt, (r2, os3)) ->
    0 <= j < RM.size r -> j < round_up (os_pagesize os) n -> j < m ->
    exists b,
      load os (RM.data r + j) = Some b /\ load os3 (RM.data r2 + j) = Some b.
Proof.
  intros os0 init cap r0 os1 ops r os n r1 os2 m r2 os3 j Hwf Hinit%is_size_t_spec
         Hc Hrun Hn%is_size_t_spec Hm%is_size_t_spec Hr1 Hr2 Hj Hjn Hjm.
  assert (H0 : 0 <= init) by lia.
  destruct (RM_reach _ _ _ _ _ _ _ _ Hwf H0 Hc Hrun) as (Hinv & _).
  destruct (Z.lt_ge_cases (RM.capacity r) n) as [Hgt|Hle].
  { rewrite RM_resize_throw in Hr1 by assumption. discriminate. }
  destruct (RM_resize_run os r n Hinv ltac:(lia)) as (os2' & Hrun1 & Hinv1 & _).
  destruct (RM_resize_mem os r n _ _ Hinv ltac:(lia) Hrun1) as (_ & Hmem1 & _).
  pose proof (RM_resize_after n _ _ _ Hrun1) as [Hps1 _ _ _ _]. cbn [snd] in Hps1.
  rewrite Hrun1 in Hr1. injection Hr1 as <- <-.
  set (r1 := RM.Build (RM.m_reserved r) n (round_up (os_pagesize os) n)) in *.
  destruct (Z.lt_ge_cases (RM.capacity r1) m) as [Hgt|Hle2].
  { rewrite RM_resize_throw in Hr2 by assumption. discriminate. }
  destruct (RM_resize_run os2' r1 m Hinv1 ltac:(lia)) as (os3' & Hrun2 & Hinv2 & _).
  destruct (RM_resize_mem os2' r1 m _ _ Hinv1 ltac:(lia) Hrun2) as (_ & Hmem2 & _).
  pose proof (RM_resize_after m _ _ _ Hrun2) as [Hps2 _ _ _ _]. cbn [snd] in Hps2.
  rewrite Hrun2 in Hr2. injection Hr2 as <- <-.
  pose proof Hinv as [Hps Hb Hal Hcap Hroom Hsz Hmapped Hpages].
  set (ps := os_pagesize os) in *.
  unfold RM.size in Hj.
  pose proof (round_up_bounds ps (RM.m_size r) Hps) as B0.
  pose proof (round_up_bounds ps n Hps) as B1.
  pose proof (round_up_bounds ps m Hps) as B2.
  pose proof (round_up_mono ps (RM.m_size r) (RM.capacity r) Hps ltac:(lia)) as M0.
  pose proof (round_up_mono ps m (RM.capacity r) Hps Hle2) as M2.
  exists (os_mem os (RM_base r + j)). split.
  - unfold RM.data, MemoryMap.address.
    destruct (Z.eqb_spec (RM.m_size r) 0); [lia|]. fold (RM_base r).
    rewrite (RM_load os r j Hinv) by (fold ps; lia).
    destruct (Z.ltb_spec j (RM.m_mappedSize r)); [reflexivity|lia].
  - unfold RM.data, MemoryMap.address. cbn [RM.m_size RM.m_reserved].
    destruct (Z.eqb_spec m 0); [lia|]. fold (RM_base r).
    pose proof (RM_load os3' _ j Hinv2) as Hl.
    unfold RM_base, RM.capacity in Hl. cbn [RM.m_reserved RM.m_mappedSize r1] in Hl.
    fold (RM_base r) (RM.capacity r) in Hl. rewrite Hps2, Hps1 in Hl. fold ps in Hl.
    rewrite Hl by lia.
    destruct (Z.ltb_spec j (round_up ps m)); [|lia]. f_equal.
    assert (Hdiv : forall x, x mod ps = 0 -> j < x -> j / ps < x / ps).
    { intros x Hx Hlt. apply Z.div_lt_upper_bound; [lia|].
      rewrite <- Z_div_exact_full_2; [lia|lia|assumption]. }
    pose proof (round_up_mod ps n Hps) as A1.
    pose proof (round_up_mod ps m Hps) as A2.
    assert (A0 : RM.m_mappedSize r mod ps = 0) by (rewrite Hmapped; apply round_up_mod; lia).
    rewrite Hmem2. unfold RM_base. cbn [RM.m_reserved RM.m_mappedSize r1].
    fold (RM_base r). rewrite Hps1. fold ps.
    rewrite div_aligned_add by (try apply Hal; lia).
    match goal with
    | |- context [in_pages ?a ?b ?c] => destruct (in_pages a b c) eqn:Hp2
    end.
    { apply in_pages_true in Hp2. pose proof (Hdiv _ A2 ltac:(lia)).
      pose proof (Hdiv _ A1 Hjn). lia. }
    rewrite Hmem1. fold ps. rewrite div_aligned_add by (try apply Hal; lia).
    match goal with
    | |- context [in_pages ?a ?b ?c] => destruct (in_pages a b c) eqn:Hp1
    end; [|reflexivity].
    apply in_pages_true in Hp1. pose proof (Hdiv _ A1 Hjn). lia.
Qed.

Lemma memory_shrink_keeps_page_tail_witness :
  let s1 := RM.resize 4097 (fst demo_mem, snd demo_mem) in
  let s2 := RM.resize 5000 (fst (snd s1), snd (snd s1)) in
  exists b,
    load (snd demo_mem) (RM.data (fst demo_mem) + 4999) = Some b
    /\ load (snd (snd s2)) (RM.data (fst (snd s2)) + 4999) = Some b.
Proof.
  intros s1 s2.
  assert (Hwf : os_wf os_demo) by (vm_compute; repeat split).
  assert (Hc : fst (RM.ctor 1 10000 os_demo) = Ok demo_mem_r0)
    by (vm_compute; reflexivity).
  assert (Hrun : is_some (client_run demo_ops (demo_mem_r0, demo_mem_os1)) = true)
    by (vm_compute; reflexivity).
  assert (Hr1 : fst s1 = Ok tt) by (vm_compute; reflexivity).
  assert (Hr2 : fst s2 = Ok tt) by (vm_compute; reflexivity).
  assert (Hj : 0 <= 4999 < RM.size (fst demo_mem))
    by (vm_compute; split; [discriminate|reflexivity]).
  assert (Hjn : 4999 < round_up (os_pagesize (snd demo_mem)) 4097)
    by (vm_compute; reflexivity).
  exact (memory_shrink_keeps_page_tail os_demo 1 10000 demo_mem_r0 demo_mem_os1
           demo_ops (fst demo_mem) (snd demo_mem) 4097
           (fst (snd s1)) (snd (snd s1)) 5000 (fst (snd s2)) (snd (snd s2)) 4999
           Hwf eq_refl (run_result _ _ Hc)
           (run_option (demo_mem_r0, demo_mem_os1) _ Hrun)
           eq_refl eq_refl
           (run_result_pair s1 tt Hr1) (run_result_pair s2 tt Hr2)
           Hj Hjn ltac:(lia)).
Defined.

(** X8.  The destructor of a [ResizableMappedMemory] returns and unmaps
    every page of the reservation and no other; files and descriptors are
    as they were before the object was constructed. *)
Theorem memory_dtor_releases :
  forall os0 init cap r0 os1 ops r os,
    os_wf os0 -> 1 < os_pagesize os0 -> is_size_t init = true ->
    RM.ctor init cap os0 = (Ok r0, os1) ->
    client_run ops (r0, os1) = Some (r, os) ->
    exists os2,
      RM.dtor r os = (Ok tt, os2)
      /\ os_files os2 = os_files os0 /\ os_fds os2 = os_fds os0
      /\ released os os2 (os_hint os0) cap.
Proof.
  intros os0 init cap r0 os1 ops r os Hwf Hps2 Hinit%is_size_t_spec Hc Hrun.
  assert (H0 : 0 <= init) by lia.
  destruct (RM_reach _ _ _ _ _ _ _ _ Hwf H0 Hc Hrun)
    as (Hinv & Hres & _ & _ & Hfiles & Hfds & _ & Hps & _).
  eexists. split.
  - apply RM_dtor_run; [assumption|rewrite Hres; reflexivity|lia].
  - cbn. split_and!; try assumption.
    intros p. cbn. unfold RM_base, RM.capacity, MemoryMap.size. rewrite Hres.
    reflexivity.
Qed.

Lemma memory_dtor_releases_witness :
  exists os2,
    RM.dtor (fst demo_mem) (snd demo_mem) = (Ok tt, os2)
    /\ os_files os2 = os_files os_demo /\ os_fds os2 = os_fds os_demo
    /\ released (snd demo_mem) os2 (os_hint os_demo) 10000.
Proof.
  assert (Hwf : os_wf os_demo) by (vm_compute; repeat split).
  assert (Hc : fst (RM.ctor 1 10000 os_demo) = Ok demo_mem_r0)
    by (vm_compute; reflexivity).
  assert (Hrun : is_some (client_run demo_ops (demo_mem_r0, demo_mem_os1)) = true)
    by (vm_compute; reflexivity).
  exact (memory_dtor_releases os_demo 1 10000 demo_mem_r0 demo_mem_os1
           demo_ops (fst demo_mem) (snd demo_mem)
           Hwf ltac:(reflexivity) eq_refl (run_result _ _ Hc)
           (run_option (demo_mem_r0, demo_mem_os1) _ Hrun)).
Defined.

(** X9.  A constructor that throws [std::bad_alloc] leaves nothing behind.
    [ResizableMappedMemory(initialSize, maxSize)] with [initialSize] above
    [maxSize], and [ResizableMappedFile(path, maxSize)] on a file longer
    than [maxSize], both throw after the reservation was made; the pages
    of the reservation are unmapped again and every other page is as
    before, and the descriptor the file constructor opened is closed. *)
Theorem failed_construction_releases :
  (forall os init cap,
      os_wf os -> 1 < os_pagesize os -> 0 < cap -> os_room os cap -> cap < init ->
      exists os',
        RM.ctor init cap os = (Throw bad_alloc, os')
        /\ os_files os' = os_files os /\ os_fds os' = os_fds os
        /\ released os os' (os_hint os) cap)
  /\
  (forall os path cap data,
      os_sane os -> 0 < cap -> os_room os cap ->
      os_files os !! path = Some data -> cap < Z.of_nat (length data) ->
      exists os',
        RMF.ctor path cap os = (Throw bad_alloc, os')
        /\ os_files os' = os_files os
        /\ os_fds os' = delete (os_next_fd os) (os_fds os)
        /\ released os os' (os_hint os) cap).
Proof.
  split.
  - intros os init cap Hwf Hps2 Hc Hr Hgt.
    unfold RM.ctor, MemoryMap.ctor. msimpl.
    fold RESERVE_FLAGS. rewrite reserve_run.
    destruct (Z.leb_spec cap 0); [lia|]. unfold os_room in Hr.
    destruct (Z.ltb_spec SIZE_WIDTH (os_hint os + pages_for os cap * os_pagesize os));
      [lia|].
    change (negb (Z.land RESERVE_FLAGS (Z.lor MAP_FIXED MAP_FIXED_NOREPLACE) =? 0))
      with false.
    pose proof (RM_reserved_inv os cap Hwf Hc Hr) as Hinv.
    set (os1 := mmap_install _ _ _ _ _) in *.
    set (r0 := RM.Build _ 0 0) in *.
    rewrite RM_resize_throw by (unfold r0, RM.capacity; cbn; lia).
    rewrite (RM_dtor_run os1 r0 Hinv eq_refl Hps2).
    eexists. split; [reflexivity|]. cbn. split_and!; try reflexivity.
    intros p. cbn. unfold RM_base, RM.capacity, MemoryMap.size. cbn.
    change (pages_for os1 cap) with (pages_for os cap).
    destruct (in_pages _ _ p); reflexivity.
  - intros os path cap data (Hwf & Hps2 & Hfd0 & Hoff) Hc Hr Hfile Hbig.
    unfold RMF.ctor, MemoryMap.ctor. msimpl.
    fold RESERVE_FLAGS OPEN_FLAGS. rewrite reserve_run.
    destruct (Z.leb_spec cap 0); [lia|]. unfold os_room in Hr.
    destruct (Z.ltb_spec SIZE_WIDTH (os_hint os + pages_for os cap * os_pagesize os));
      [lia|].
    change (negb (Z.land RESERVE_FLAGS (Z.lor MAP_FIXED MAP_FIXED_NOREPLACE) =? 0))
      with false.
    set (os1 := mmap_install _ _ _ _ _).
    set (resv := MemoryMap.Build cap (os_hint os) false).
    destruct (FD_ctor_open path os1)
      as (os2 & -> & Hfds2 & Hnext2 & Hps2' & Hpg2 & Hh2 & _ & Hfiles2).
    set (file := FileDescriptor.Build (os_next_fd os1)) in *.
    cbn [os_files os_fds os_next_fd os1 mmap_install set_vm] in Hfiles2, Hfds2, Hnext2.
    rewrite Hfile in Hfiles2. cbn in Hfiles2.
    assert (Hfiles2' : os_files os2 = os_files os).
    { rewrite Hfiles2. apply insert_id. assumption. }
    assert (Hdata : Z.of_nat (length data) < 2 ^ 63) by apply (Hoff path data Hfile).
    assert (Hfd : os_fds os2 !! FileDescriptor.m_fd file = Some (path, OPEN_FLAGS)).
    { rewrite Hfds2. apply lookup_insert_eq. }
    assert (Hf2 : os_files os2 !! path = Some data).
    { rewrite Hfiles2'. assumption. }
    unfold RMF.construct, RMF.throwIfAbove. msimpl. cbn [RMF.m_file RMF.m_reserved].
    rewrite (FD_size_run file os2 path OPEN_FLAGS data Hfd Hf2).
    rewrite wrap64_small by (unfold SIZE_WIDTH; lia).
    unfold MemoryMap.size. cbn [MemoryMap.m_size resv].
    destruct (Z.ltb_spec cap (Z.of_nat (length data))); [|lia].
    destruct Hwf as (Hps & Hh & Hal).
    assert (Hinv0 : RMF_inv os2 (RMF.Build resv file None)).
    { constructor; unfold RMF_base, RMF.capacity, MemoryMap.size, pages_for;
        cbn [RMF.m_reserved RMF.m_file MemoryMap.m_address MemoryMap.m_size resv];
        rewrite ?Hps2', ?Hpg2; cbn [os_pagesize os_pages os1 mmap_install set_vm];
        try assumption.
      - intros p Hp. fold (pages_for os cap).
        destruct (in_pages_false (os_hint os / os_pagesize os) (pages_for os cap) p)
          as [Hf' _].
        destruct (in_pages _ _ p); [eauto|]. exfalso. apply Hf'; [reflexivity|exact Hp].
      - exists path, OPEN_FLAGS. split_and!; [assumption|reflexivity|eauto|exact I]. }
    destruct (RMF_dtor_run os2 (RMF.Build resv file None) path Hinv0 Hfd eq_refl)
      as (os3 & Hd & Hf3 & Hfds3 & _ & _ & _ & Hrel).
    { rewrite Hps2'. exact Hps2. }
    { exact Hfd0. }
    { unfold below_hint, RMF_base, RMF.capacity, MemoryMap.size, pages_for. cbn.
      rewrite Hh2, Hps2'. cbn. fold (pages_for os cap).
      pose proof (pages_for_pos os cap Hps Hc). nia. }
    rewrite Hd. exists os3. split; [reflexivity|]. split_and!.
    + congruence.
    + rewrite Hfds3, Hfds2. cbn. apply delete_insert_eq.
    + intros p. rewrite (Hrel p).
      unfold RMF_base, RMF.capacity, MemoryMap.size, pages_for. cbn.
      rewrite Hps2', Hpg2. cbn. fold (pages_for os cap).
      destruct (in_pages _ _ p); reflexivity.
Qed.

Lemma failed_construction_releases_witness :
  (exists os',
      RM.ctor 10001 10000 os_demo = (Throw bad_alloc, os')
      /\ os_files os' = os_files os_demo /\ os_fds os' = os_fds os_demo
      /\ released os_demo os' (os_hint os_demo) 10000)
  /\ (exists os',
        RMF.ctor "test.dat" 3 os_demo = (Throw bad_alloc, os')
        /\ os_files os' = os_files os_demo
        /\ os_fds os' = delete (os_next_fd os_demo) (os_fds os_demo)
        /\ released os_demo os' (os_hint os_demo) 3).
Proof.
  assert (Hsane : os_sane os_demo).
  { unfold os_sane, os_wf. split_and!; try reflexivity; [discriminate|].
    unfold files_off_t. refine (bool_decide_unpack _ _). vm_compute. exact I. }
  assert (Hf : os_files os_demo !! "test.dat"%string = Some (le32 42))
    by (vm_compute; reflexivity).
  exact (conj
           (proj1 failed_construction_releases os_demo 10001 10000
              (proj1 Hsane) ltac:(reflexivity) ltac:(reflexivity)
              ltac:(vm_compute; discriminate) ltac:(reflexivity))
           (proj2 failed_construction_releases os_demo "test.dat" 3 (le32 42)
              Hsane ltac:(reflexivity) ltac:(vm_compute; discriminate) Hf
              ltac:(vm_compute; reflexivity))).
Defined.

(** ** Properties of the moves *)

(** X10.  A moved-from object is inert.  For each of the five classes the
    move constructor builds an object equal to the source, and destroying
    the source afterwards returns without a system call: the kernel state
    is untouched, so nothing is closed or unmapped twice. *)
Theorem moved_from_is_inert :
  (forall f os,
      fst (FileDescriptor.move_ctor f) = f
      /\ FileDescriptor.dtor (snd (FileDescriptor.move_ctor f)) os = (Ok tt, os))
  /\ (forall prot m os,
      fst (MemoryMap.move_ctor m) = m
      /\ MemoryMap.dtor prot (snd (MemoryMap.move_ctor m)) os = (Ok tt, os))
  /\ (forall W f os,
      fst (MappedFile.move_ctor f) = f
      /\ MappedFile.dtor W (snd (MappedFile.move_ctor f)) os = (Ok tt, os))
  /\ (forall r os,
      fst (RMF.move_ctor r) = r
      /\ RMF.dtor (snd (RMF.move_ctor r)) os = (Ok tt, os))
  /\ (forall r os,
      fst (RM.move_ctor r) = r
      /\ RM.dtor (snd (RM.move_ctor r)) os = (Ok tt, os)).
Proof.
  split_and!; intros; split.
  - apply FD_move_ctor_fst.
  - apply FD_dtor_moved.
  - apply MemoryMap_move_ctor_fst.
  - apply MemoryMap_dtor_moved. reflexivity.
  - apply MappedFile_move_ctor_fst.
  - apply MappedFile_dtor_moved.
  - apply RMF_move_ctor_fst.
  - apply RMF_dtor_moved.
  - apply RM_move_ctor_fst.
  - apply RM_dtor_moved.
Qed.

(** X11.  Move assignment is destruction followed by move construction.
    [a = std::move(b)] on a [ResizableMappedFile] or a
    [ResizableMappedMemory] makes the system calls of [a]'s destructor, in
    the destructor's order (the mapping, the descriptor, the reservation
    last), and then [a] and [b] are what move construction from [b] gives;
    where the destructor would end the process, so does the assignment. *)
Theorem move_assign_destroys_then_moves :
  (forall this other os,
      RMF.move_assign this other os =
        match RMF.dtor this os with
        | (Ok _, os') => (Ok (RMF.move_ctor other), os')
        | (_, os') => (Terminated, os')
        end)
  /\ (forall this other os,
      RM.move_assign this other os =
        match RM.dtor this os with
        | (Ok _, os') => (Ok (RM.move_ctor other), os')
        | (_, os') => (Terminated, os')
        end).
Proof. split; [apply RMF_move_assign_dtor|apply RM_move_assign_dtor]. Qed.

(** X12.  Assigning a new resizable file to a live one, as the tests do
    ([file = resizable_file(path2, maxSize2);]).  The temporary is
    constructed while the old object still holds its reservation, so it
    lies elsewhere; the assignment returns, the object is then the
    temporary (well formed, with its size and data pointer), the old
    reservation is unmapped and the old descriptor closed, while the pages
    and the descriptor of the new object and all files stay; and when
    [path2] is the path of the old object, the program reads through the
    new [data()] what it read through the old one. *)
Theorem file_assign_from_temporary :
  forall os0 path cap r0 os1 ops r os path2 cap2 tmp os2,
    os_sane os0 -> cap < 2 ^ 63 ->
    RMF.ctor path cap os0 = (Ok r0, os1) ->
    client_run ops (r0, os1) = Some (r, os) ->
    RMF.ctor path2 cap2 os = (Ok tmp, os2) ->
    exists os3,
      assign_file r path2 cap2 os = (Ok tmp, os3)
      /\ RMF_inv os3 tmp
      /\ MemoryMap.address (RMF.m_reserved tmp) <> MemoryMap.address (RMF.m_reserved r)
      /\ os_files os3 = os_files os2
      /\ os_fds os3 = delete (os_next_fd os0) (os_fds os2)
      /\ released os2 os3 (os_hint os0) cap
      /\ (path2 = path ->
          forall k, 0 <= k < RMF.size r ->
            load os3 (RMF.data tmp + k) = load os (RMF.data r + k)).
Proof.
  intros os0 path cap r0 os1 ops r os path2 cap2 tmp os2 Hsane H63 Hc Hrun Hc2.
  pose proof Hsane as (Hwf0 & _ & Hfd0 & _).
  destruct (RMF_reach_sane _ _ _ _ _ _ _ _ Hsane Hc Hrun)
    as (Hinv & Hres & Hfile & Hpath & Hbelow & Hwf & Hps2 & Hps & Hfds & Hnext & Hsized).
  destruct (Hsized H63) as [Hlen Hoff].
  pose proof Hwf as (Hpspos & Hhpos & Hhal).
  assert (Hbase : RMF_base r = os_hint os0) by (unfold RMF_base; rewrite Hres; reflexivity).
  assert (Hcap : RMF.capacity r = cap).
  { unfold RMF.capacity, MemoryMap.size. rewrite Hres. reflexivity. }
  (* the temporary *)
  destruct (RMF_ctor_ok _ _ _ _ _ Hwf Hoff Hc2) as (Hinvt & Hrest & Hszt & _ & Hfiles2).
  destruct (RMF_ctor_state _ _ _ _ _ Hwf Hoff Hc2)
    as (Hfilet & Hfds2 & Hnext2 & Hpsz2 & Hh2 & Hcap2 & _ & _ & Hout2).
  assert (Hbaset : RMF_base tmp = os_hint os)
    by (unfold RMF_base; rewrite Hrest; reflexivity).
  assert (Hcapt : RMF.capacity tmp = cap2).
  { unfold RMF.capacity, MemoryMap.size. rewrite Hrest. reflexivity. }
  assert (Hpatht : RMF_path os2 tmp path2).
  { unfold RMF_path. rewrite Hfilet, Hfds2. apply lookup_insert_eq. }
  assert (Hal0 : os_hint os0 mod os_pagesize os = 0).
  { rewrite Hps. apply Hwf0. }
  assert (Hfpath : os_files os2 !! path = os_files os !! path).
  { rewrite Hfiles2. destruct (decide (path = path2)) as [<-|]; [|reflexivity].
    destruct (RMF_inv_path _ _ _ Hinv Hpath) as [[data ->] _]. reflexivity. }
  assert (Hfdne : os_next_fd os <> FileDescriptor.m_fd (RMF.m_file r)).
  { rewrite Hfile, Hnext. cbn. lia. }
  (* the old object while the temporary lives *)
  assert (Hinv2 : RMF_inv os2 r).
  { apply (RMF_inv_frame os os2 r path Hinv Hpath Hpsz2).
    - intros p Hp. apply Hout2. rewrite Hbase, Hcap in Hp.
      exact (below_hint_pages os _ cap _ p Hpspos Hal0 Hhal Hbelow Hp).
    - rewrite Hfds2. apply lookup_insert_ne. exact Hfdne.
    - exact Hfpath. }
  assert (Hpath2 : RMF_path os2 r path).
  { unfold RMF_path in *. rewrite Hfds2, lookup_insert_ne by exact Hfdne. exact Hpath. }
  destruct (RMF_dtor_run os2 r path Hinv2 Hpath2)
    as (os3 & Hd & Hf3 & Hfds3 & Hnext3 & Hps3 & Hh3 & Hrel).
  { rewrite Hres. reflexivity. }
  { rewrite Hpsz2. assumption. }
  { rewrite Hfile. exact Hfd0. }
  { unfold below_hint, pages_for in *. rewrite Hbase, Hcap, Hpsz2, Hh2.
    pose proof (pages_for_pos os cap2 Hpspos Hcap2). unfold pages_for in *. nia. }
  exists os3.
  assert (Hrel' : released os2 os3 (os_hint os0) cap).
  { rewrite <- Hbase, <- Hcap. exact Hrel. }
  assert (Hinv3 : RMF_inv os3 tmp).
  { apply (RMF_inv_frame os2 os3 tmp path2 Hinvt Hpatht Hps3).
    - intros p Hp. rewrite (Hrel' p).
      destruct (in_pages _ _ p) eqn:Hin; [|reflexivity].
      apply in_pages_true in Hin. rewrite Hbaset, Hpsz2 in Hp.
      unfold pages_for in Hin. rewrite Hpsz2 in Hin. fold (pages_for os cap) in Hin.
      pose proof (below_hint_pages os _ cap (pages_for os2 (RMF.capacity tmp)) p
                    Hpspos Hal0 Hhal Hbelow Hin) as Hno.
      apply in_pages_false in Hno. lia.
    - rewrite Hfds3. apply lookup_delete_ne. rewrite Hfilet. cbn. congruence.
    - rewrite Hf3. reflexivity. }
  split_and!; try assumption.
  - unfold assign_file. unfold bind at 1. rewrite Hc2.
    unfold bind at 1. rewrite RMF_move_assign_dtor, Hd.
    unfold bind. rewrite RMF_dtor_moved. unfold ret.
    rewrite RMF_move_ctor_fst. reflexivity.
  - unfold MemoryMap.address. fold (RMF_base tmp) (RMF_base r).
    rewrite Hbaset, Hbase. unfold below_hint in Hbelow.
    pose proof (pages_for_pos os cap Hpspos ltac:(destruct Hinv; lia)). nia.
  - rewrite Hfds3, Hfile. reflexivity.
  - intros -> k Hk.
    destruct (RMF_inv_path _ _ _ Hinv Hpath) as [[data Hdata] _].
    assert (Hdata3 : os_files os3 !! path = Some data) by congruence.
    assert (Hpath3 : RMF_path os3 tmp path).
    { unfold RMF_path in *. rewrite Hfds3, lookup_delete_ne; [exact Hpatht|].
      rewrite Hfilet. cbn. congruence. }
    destruct (RMF_read os r path data Hinv Hpath Hdata) as [Hl Hread].
    destruct (RMF_read os3 tmp path data Hinv3 Hpath3 Hdata3) as [_ Hread3].
    rewrite Hread by exact Hk. apply Hread3.
    rewrite Hszt, Hdata. cbn. rewrite Hl by lia. exact Hk.
Qed.

Lemma file_assign_from_temporary_witness :
  exists os3,
    assign_file (fst demo_file) "t2" 1500 (snd demo_file) = (Ok demo_file_tmp, os3)
    /\ RMF_inv os3 demo_file_tmp
    /\ MemoryMap.address (RMF.m_reserved demo_file_tmp)
       <> MemoryMap.address (RMF.m_reserved (fst demo_file))
    /\ os_files os3 = os_files demo_file_os2
    /\ os_fds os3 = delete (os_next_fd os_demo) (os_fds demo_file_os2)
    /\ released demo_file_os2 os3 (os_hint os_demo) 1500
    /\ ("t2"%string = "t2"%string ->
        forall k, 0 <= k < RMF.size (fst demo_file) ->
          load os3 (RMF.data demo_file_tmp + k)
            = load (snd demo_file) (RMF.data (fst demo_file) + k)).
Proof.
  assert (Hsane : os_sane os_demo).
  { unfold os_sane, os_wf. split_and!; try reflexivity; [discriminate|].
    unfold files_off_t. refine (bool_decide_unpack _ _). vm_compute. exact I. }
  assert (Hc : fst (RMF.ctor "t2" 1500 os_demo) = Ok demo_file_r0)
    by (vm_compute; reflexivity).
  assert (Hrun : is_some (client_run demo_file_ops (demo_file_r0, demo_file_os1)) = true)
    by (vm_compute; reflexivity).
  assert (Hc2 : fst (RMF.ctor "t2" 1500 (snd demo_file)) = Ok demo_file_tmp)
    by (vm_compute; reflexivity).
  exact (file_assign_from_temporary os_demo "t2" 1500 demo_file_r0 demo_file_os1
           demo_file_ops (fst demo_file) (snd demo_file) "t2" 1500
           demo_file_tmp demo_file_os2
           Hsane ltac:(reflexivity) (run_result _ _ Hc)
           (run_option (demo_file_r0, demo_file_os1) _ Hrun)
           (run_result _ _ Hc2)).
Defined.

(** X13.  Assigning a new resizable memory to a live one
    ([memory = resizable_memory(initialSize2, maxSize2);]): the assignment
    returns, the object is then the temporary, which lies elsewhere, is
    well formed and reads as zero; the old reservation is unmapped, and
    files and descriptors are untouched. *)
Theorem memory_assign_from_temporary :
  forall os0 init cap r0 os1 ops r os init2 cap2 tmp os2,
    os_wf os0 -> 1 < os_pagesize os0 ->
    is_size_t init = true -> is_size_t init2 = true ->
    RM.ctor init cap os0 = (Ok r0, os1) ->
    client_run ops (r0, os1) = Some (r, os) ->
    RM.ctor init2 cap2 os = (Ok tmp, os2) ->
    exists os3,
      assign_memory r init2 cap2 os = (Ok tmp, os3)
      /\ RM_inv os3 tmp
      /\ MemoryMap.address (RM.m_reserved tmp) <> MemoryMap.address (RM.m_reserved r)
      /\ released os2 os3 (os_hint os0) cap
      /\ os_files os3 = os_files os0 /\ os_fds os3 = os_fds os0
      /\ forall j, 0 <= j < init2 -> load os3 (RM.data tmp + j) = Some 0.
Proof.
  intros os0 init cap r0 os1 ops r os init2 cap2 tmp os2 Hwf0 Hps20
         Hinit%is_size_t_spec Hinit2%is_size_t_spec Hc Hrun Hc2.
  assert (H0 : 0 <= init) by lia. assert (H02 : 0 <= init2) by lia.
  destruct (RM_reach _ _ _ _ _ _ _ _ Hwf0 H0 Hc Hrun)
    as (Hinv & Hres & _ & Hbelow & Hfiles & Hfds & _ & Hps & Hhal).
  pose proof Hinv as [Hpspos Hbpos Hal Hcappos _ _ _ _].
  assert (Hbase : RM_base r = os_hint os0) by (unfold RM_base; rewrite Hres; reflexivity).
  assert (Hcap : RM.capacity r = cap).
  { unfold RM.capacity, MemoryMap.size. rewrite Hres. reflexivity. }
  assert (Hwf : os_wf os).
  { split_and!; [assumption| |assumption].
    unfold below_hint in Hbelow. destruct Hwf0 as (_ & ? & _).
    pose proof (pages_for_pos os cap Hpspos ltac:(lia)). nia. }
  destruct (RM_ctor_ok _ _ _ _ _ Hwf H02 Hc2) as (Hinvt & Hrest & Hszt & Hcap2 & _ & Hle2).
  destruct (RM_ctor_state _ _ _ _ _ Hwf H02 Hc2)
    as (Hf2 & Hfds2 & _ & Hpsz2 & Hbelow2 & _ & _ & Hzero2 & Hout2).
  assert (Hbaset : RM_base tmp = os_hint os)
    by (unfold RM_base; rewrite Hrest; reflexivity).
  assert (Hal0 : os_hint os0 mod os_pagesize os = 0) by (rewrite <- Hbase; exact Hal).
  assert (Hinv2 : RM_inv os2 r).
  { apply (RM_inv_frame os os2 r Hinv Hpsz2). intros p Hp. apply Hout2.
    rewrite Hbase, Hcap in Hp.
    exact (below_hint_pages os _ cap _ p Hpspos Hal0 Hhal Hbelow Hp). }
  pose proof (RM_dtor_run os2 r Hinv2 ltac:(rewrite Hres; reflexivity)
                ltac:(rewrite Hpsz2; lia)) as Hd.
  set (os3 := set_vm _ _ _ os2) in Hd.
  assert (Hrel : released os2 os3 (os_hint os0) cap).
  { intros p. unfold os3. cbn. rewrite Hbase, Hcap. reflexivity. }
  assert (Hinv3 : RM_inv os3 tmp).
  { apply (RM_inv_frame os2 os3 tmp Hinvt eq_refl).
    intros p Hp. rewrite (Hrel p).
    destruct (in_pages _ _ p) eqn:Hin; [|reflexivity].
    apply in_pages_true in Hin. rewrite Hbaset, Hpsz2 in Hp.
    unfold pages_for in Hin. rewrite Hpsz2 in Hin. fold (pages_for os cap) in Hin.
    pose proof (below_hint_pages os _ cap (pages_for os2 (RM.capacity tmp)) p
                  Hpspos Hal0 Hhal Hbelow Hin) as Hno.
    apply in_pages_false in Hno. lia. }
  exists os3. split_and!; try assumption.
  - unfold assign_memory. unfold bind at 1. rewrite Hc2.
    unfold bind at 1. rewrite RM_move_assign_dtor, Hd.
    unfold bind. rewrite RM_dtor_moved. unfold ret.
    rewrite RM_move_ctor_fst. reflexivity.
  - unfold MemoryMap.address. fold (RM_base tmp) (RM_base r).
    rewrite Hbaset, Hbase. unfold below_hint in Hbelow.
    pose proof (pages_for_pos os cap Hpspos ltac:(lia)). nia.
  - unfold os3. cbn. congruence.
  - unfold os3. cbn. congruence.
  - intros j Hj.
    pose proof Hinv3 as [_ _ _ _ _ Hsz3 Hmapped3 _].
    pose proof (round_up_bounds (os_pagesize os3) (RM.m_size tmp) ltac:(apply Hinv3)).
    pose proof (round_up_mono (os_pagesize os3) (RM.m_size tmp) (RM.capacity tmp)
                  ltac:(apply Hinv3) ltac:(lia)).
    unfold RM.data, MemoryMap.address.
    destruct (Z.eqb_spec (RM.m_size tmp) 0); [lia|]. fold (RM_base tmp).
    rewrite (RM_load os3 tmp j Hinv3) by lia.
    destruct (Z.ltb_spec j (RM.m_mappedSize tmp)); [|lia].
    f_equal. unfold os3. cbn. rewrite Hbaset. apply Hzero2.
    assert (RM.capacity tmp = cap2).
    { unfold RM.capacity, MemoryMap.size. rewrite Hrest. reflexivity. }
    pose proof (round_up_bounds (os_pagesize os) cap2 Hpspos). lia.
Qed.

Lemma memory_assign_from_temporary_witness :
  exists os3,
    assign_memory (fst demo_mem) 7 1500 (snd demo_mem) = (Ok demo_mem_tmp, os3)
    /\ RM_inv os3 demo_mem_tmp
    /\ MemoryMap.address (RM.m_reserved demo_mem_tmp)
       <> MemoryMap.address (RM.m_reserved (fst demo_mem))
    /\ released demo_mem_os2 os3 (os_hint os_demo) 10000
    /\ os_files os3 = os_files os_demo /\ os_fds os3 = os_fds os_demo
    /\ forall j, 0 <= j < 7 -> load os3 (RM.data demo_mem_tmp + j) = Some 0.
Proof.
  assert (Hwf : os_wf os_demo) by (vm_compute; repeat split).
  assert (Hc : fst (RM.ctor 1 10000 os_demo) = Ok demo_mem_r0)
    by (vm_compute; reflexivity).
  assert (Hrun : is_some (client_run demo_ops (demo_mem_r0, demo_mem_os1)) = true)
    by (vm_compute; reflexivity).
  assert (Hc2 : fst (RM.ctor 7 1500 (snd demo_mem)) = Ok demo_mem_tmp)
    by (vm_compute; reflexivity).
  exact (memory_assign_from_temporary os_demo 1 10000 demo_mem_r0 demo_mem_os1
           demo_ops (fst demo_mem) (snd demo_mem) 7 1500
           demo_mem_tmp demo_mem_os2
           Hwf ltac:(reflexivity) eq_refl eq_refl (run_result _ _ Hc)
           (run_option (demo_mem_r0, demo_mem_os1) _ Hrun)
           (run_result _ _ Hc2)).
Defined.

(** ** Properties of the whole-file mapping *)

(** X14.  A whole-file mapping shows the file.  On an existing file that
    is not empty, with private (the default) or shared pages, read-only or
    writable, the constructor returns when the address space has room;
    [size()] is the length of the file, [data()] is the address the kernel
    chose and is not null, no file has changed, and the program reads at
    [data() + i] byte [i] of the file. *)
Theorem mapped_file_reads_file :
  forall W path flags os data,
    os_wf os -> os_files os !! path = Some data ->
    0 < Z.of_nat (length data) < 2 ^ 63 ->
    os_room os (Z.of_nat (length data)) ->
    flags = MAP_PRIVATE \/ flags = MAP_SHARED ->
    exists f os1,
      MappedFile.ctor W path flags os = (Ok f, os1)
      /\ MappedFile.size f = Z.of_nat (length data)
      /\ MappedFile.data f = os_hint os /\ MappedFile.data f <> nullptr
      /\ os_files os1 = os_files os
      /\ forall i, 0 <= i < MappedFile.size f ->
           load os1 (MappedFile.data f + i) = data !! Z.to_nat i.
Proof.
  intros W path flags os data Hwf Hf Hlen Hroom Hflags.
  eexists _, _. split; [apply MappedFile_ctor_run; eassumption|].
  pose proof Hwf as (Hps & Hh & Hal).
  unfold MappedFile.size, MappedFile.data, MemoryMap.size, MemoryMap.address. cbn.
  split_and!; try reflexivity; [unfold nullptr; lia|].
  intros i Hi.
  set (len := Z.of_nat (length data)) in *.
  pose proof (round_up_bounds (os_pagesize os) len Hps) as Hru.
  rewrite <- pages_for_round_up in Hru by assumption.
  set (os1 := MappedFile_state _ _ _ _ _ _).
  destruct (MappedFile_state_page os path (if W then O_RDWR else O_RDONLY)
              (MappedFile.MapMemoryProtection W)
              (if flags =? MAP_PRIVATE then FilePrivate path 0 else FileShared path 0)
              len i Hwf ltac:(lia)) as [Hdiv Hpage].
  fold os1 in Hdiv, Hpage. unfold load. rewrite Hpage. cbn [pg_prot pg_back].
  assert (Hrd : has_flag (MappedFile.MapMemoryProtection W) PROT_READ = true)
    by (destruct W; reflexivity).
  rewrite Hrd. cbn [negb].
  assert (Hx : data !! Z.to_nat i = Some (default 0 (data !! Z.to_nat i))).
  { destruct (data !! Z.to_nat i) eqn:E; [reflexivity|].
    apply lookup_ge_None in E. lia. }
  rewrite Hx. pose proof (Z.mul_div_le i (os_pagesize os) Hps).
  destruct Hflags as [-> | ->];
    [change (MAP_PRIVATE =? MAP_PRIVATE) with true in *
    |change (MAP_SHARED =? MAP_PRIVATE) with false in *];
    cbn iota in *; cbn [page_backing].
  - (* private pages: a copy of the file *)
    f_equal. unfold os1, MappedFile_state. cbn [os_mem mmap_install set_vm os_pagesize set_fds].
    change (os_pagesize os1) with (os_pagesize os) in Hdiv. rewrite Hdiv.
    destruct (in_pages_false (os_hint os / os_pagesize os)
                (pages_for (set_fds (<[os_next_fd os:=(path, if W then O_RDWR else O_RDONLY)]>
                                       (os_fds os)) (os_next_fd os + 1) os) len)
                (os_hint os / os_pagesize os + i / os_pagesize os)) as [Hfalse _].
    destruct (in_pages _ _ _).
    + match goal with
      | |- file_byte _ _ ?x = _ => replace x with i by lia
      end.
      apply file_byte_lookup; [exact Hf|lia].
    + exfalso. apply Hfalse; [reflexivity|].
      change (pages_for (set_fds _ _ os) len) with (pages_for os len).
      split; [pose proof (Z.div_pos i (os_pagesize os)); lia|].
      apply Z.add_lt_mono_l. apply Z.div_lt_upper_bound; lia.
  - (* shared pages: the file itself *)
    change (file_length os1 path) with (file_length os path).
    unfold file_length. rewrite Hf. cbn [fmap option_fmap option_map]. fold len.
    destruct (Z.leb_spec len (0 + i / os_pagesize os * os_pagesize os)); [lia|].
    f_equal. change (os_pagesize os1) with (os_pagesize os).
    replace ((os_hint os + i) mod os_pagesize os) with (i mod os_pagesize os)
      by (rewrite Z.add_mod, Hal, Z.add_0_l, Z.mod_mod by lia; reflexivity).
    rewrite (file_byte_lookup os1 path data); [|exact Hf|].
    + do 3 f_equal. pose proof (Z.div_mod i (os_pagesize os)). lia.
    + pose proof (Z.mod_pos_bound i (os_pagesize os) Hps).
      pose proof (Z.div_pos i (os_pagesize os)). nia.
Qed.

Lemma mapped_file_reads_file_witness :
  exists f os1,
    MappedFile.ctor false "test.dat" MAP_PRIVATE os_demo = (Ok f, os1)
    /\ MappedFile.size f = Z.of_nat (length (le32 42))
    /\ MappedFile.data f = os_hint os_demo /\ MappedFile.data f <> nullptr
    /\ os_files os1 = os_files os_demo
    /\ forall i, 0 <= i < MappedFile.size f ->
         load os1 (MappedFile.data f + i) = le32 42 !! Z.to_nat i.
Proof.
  assert (Hwf : os_wf os_demo) by (vm_compute; repeat split).
  assert (Hf : os_files os_demo !! "test.dat"%string = Some (le32 42))
    by (vm_compute; reflexivity).
  exact (mapped_file_reads_file false "test.dat" MAP_PRIVATE os_demo (le32 42)
           Hwf Hf ltac:(vm_compute; split; reflexivity)
           ltac:(vm_compute; discriminate) (or_introl eq_refl)).
Defined.

(** X15.  A read-only whole-file mapping cannot be written.  With private
    or with shared pages, every store to an address of its pages, the part
    of the last page past the end of the file included, faults. *)
Theorem read_only_mapping_faults_on_store :
  forall path flags os data i b,
    os_wf os -> os_files os !! path = Some data ->
    0 < Z.of_nat (length data) < 2 ^ 63 ->
    os_room os (Z.of_nat (length data)) ->
    flags = MAP_PRIVATE \/ flags = MAP_SHARED ->
    0 <= i < pages_for os (Z.of_nat (length data)) * os_pagesize os ->
    exists f os1,
      MappedFile.ctor false path flags os = (Ok f, os1)
      /\ store os1 (MappedFile.data f + i) b = None.
Proof.
  intros path flags os data i b Hwf Hf Hlen Hroom Hflags Hi.
  eexists _, _. split; [apply MappedFile_ctor_run; eassumption|].
  unfold MappedFile.data, MemoryMap.address. cbn.
  destruct (MappedFile_state_page os path O_RDONLY (MappedFile.MapMemoryProtection false)
              (if flags =? MAP_PRIVATE then FilePrivate path 0 else FileShared path 0)
              (Z.of_nat (length data)) i Hwf Hi) as [_ Hpage].
  change (MappedFile.MapMemoryProtection false) with PROT_READ in Hpage.
  unfold store. rewrite Hpage. reflexivity.
Qed.

Lemma read_only_mapping_faults_on_store_witness :
  exists f os1,
    MappedFile.ctor false "test.dat" MAP_PRIVATE os_demo = (Ok f, os1)
    /\ store os1 (MappedFile.data f + 1) 7 = None.
Proof.
  assert (Hwf : os_wf os_demo) by (vm_compute; repeat split).
  assert (Hf : os_files os_demo !! "test.dat"%string = Some (le32 42))
    by (vm_compute; reflexivity).
  exact (read_only_mapping_faults_on_store "test.dat" MAP_PRIVATE os_demo (le32 42) 1 7
           Hwf Hf ltac:(vm_compute; split; reflexivity)
           ltac:(vm_compute; discriminate) (or_introl eq_refl)
           ltac:(vm_compute; split; [discriminate|reflexivity])).
Defined.

(** X16.  Constructing a whole-file mapping on a path that names no file
    throws the file error of the failed [open], with [ENOENT]; nothing is
    created and the kernel state is as it was. *)
Theorem mapped_file_missing_path_throws :
  forall W path flags os,
    os_files os !! path = None ->
    MappedFile.ctor W path flags os = (Throw (mapped_file_error path ENOENT), os).
Proof.
  intros W path flags os Hf.
  unfold MappedFile.ctor, FileDescriptor.ctor, sys_open. msimpl. rewrite Hf.
  destruct W; reflexivity.
Qed.

Lemma mapped_file_missing_path_throws_witness :
  MappedFile.ctor true "nothing.dat" MAP_PRIVATE os_demo
    = (Throw (mapped_file_error "nothing.dat" ENOENT), os_demo).
Proof.
  apply (mapped_file_missing_path_throws true "nothing.dat" MAP_PRIVATE os_demo).
  vm_compute. reflexivity.
Defined.

(** X17.  With [MAP_SHARED], what is written through a writable whole-file
    mapping is in the file.  On an existing file that is not empty the
    constructor returns; storing the bytes [bs] at [data() + k], inside the
    file, succeeds; the destructor then returns, and the file holds [bs] at
    offset [k] (each byte modulo 256) and its old contents elsewhere, at its
    old length.  The descriptor the constructor opened is closed, and the
    pages of the mapping, and no other, are unmapped. *)
Theorem shared_mapping_writes_reach_file :
  forall path os data k bs,
    os_wf os -> 1 < os_pagesize os -> 0 <= os_next_fd os ->
    os_files os !! path = Some data ->
    0 < Z.of_nat (length data) < 2 ^ 63 ->
    os_room os (Z.of_nat (length data)) ->
    (k + length bs <= length data)%nat ->
    exists f os1 os2 os3,
      MappedFile.ctor true path MAP_SHARED os = (Ok f, os1)
      /\ store_bytes os1 (MappedFile.data f + Z.of_nat k) bs = Some os2
      /\ MappedFile.dtor true f os2 = (Ok tt, os3)
      /\ os_files os3
         = <[path := list_inserts k ((fun b => b mod 256) <$> bs) data]> (os_files os)
      /\ os_fds os3 = delete (os_next_fd os) (os_fds os)
      /\ released os os3 (os_hint os) (Z.of_nat (length data)).
Proof.
  intros path os data k bs Hwf Hps2 Hfd0 Hf Hlen Hroom Hk.
  pose proof Hwf as (Hps & Hh & Hal).
  set (len := Z.of_nat (length data)) in *.
  set (n := pages_for os len).
  pose proof (round_up_bounds (os_pagesize os) len Hps) as Hru.
  rewrite <- pages_for_round_up in Hru by assumption. fold n in Hru.
  assert (Hn : 0 < n) by (apply pages_for_pos; [assumption|lia]).
  do 4 eexists.
  split; [apply MappedFile_ctor_run; try eassumption; right; reflexivity|].
  change (MAP_SHARED =? MAP_PRIVATE) with false. cbv iota.
  unfold MappedFile.data, MemoryMap.address.
  cbn [MappedFile.m_mapped MemoryMap.m_address].
  set (os1 := MappedFile_state _ _ _ _ _ _).
  assert (Hpg : forall j, 0 <= j < n ->
            os_pages os1 (os_hint os / os_pagesize os1 + j)
              = Some (Page PROT_RW (FileShared path (0 + j * os_pagesize os1)))).
  { intros j Hj. unfold os1, MappedFile_state.
    cbn [os_pages os_pagesize mmap_install set_vm set_fds].
    change (pages_for (set_fds _ _ os) len) with n.
    destruct (in_pages_false (os_hint os / os_pagesize os) n
                (os_hint os / os_pagesize os + j)) as [Hfalse _].
    destruct (in_pages _ _ _).
    - cbn [page_backing]. do 4 f_equal. lia.
    - exfalso. apply Hfalse; [reflexivity|lia]. }
  assert (Hf1 : os_files os1 !! path = Some data) by exact Hf.
  split.
  { apply (store_bytes_shared (os_hint os) path n bs os1 data k);
      try assumption.
    change (os_pagesize os1) with (os_pagesize os). fold len. lia. }
  fold os1. set (os2 := set_files _ os1).
  split.
  { apply (MappedFile_dtor_run true os2 (os_next_fd os) (os_hint os) len (path, O_RDWR));
      try assumption.
    - lia.
    - apply Z.eqb_neq. apply (base_not_failed (os_pagesize os) _ n); assumption.
    - lia.
    - intros p Hp. change (os_pages os2 p) with (os_pages os1 p).
      change (pages_for os2 len) with n in Hp.
      change (os_pagesize os2) with (os_pagesize os1) in Hp.
      replace p with (os_hint os / os_pagesize os1 + (p - os_hint os / os_pagesize os1))
        by lia.
      rewrite Hpg by lia. eexists. reflexivity.
    - unfold os2, os1, MappedFile_state. cbn. apply lookup_insert_eq. }
  split_and!.
  - reflexivity.
  - unfold os2, os1, MappedFile_state. cbn. apply delete_insert_eq.
  - intros p. unfold os2, os1, MappedFile_state. cbn.
    change (pages_for (set_files _ _) len) with n.
    change (pages_for (set_fds _ _ _) len) with n. fold n.
    destruct (in_pages _ _ _); reflexivity.
Qed.

Lemma shared_mapping_writes_reach_file_witness :
  exists f os1 os2 os3,
    MappedFile.ctor true "test.dat" MAP_SHARED os_demo = (Ok f, os1)
    /\ store_bytes os1 (MappedFile.data f + Z.of_nat 1) [300; 7] = Some os2
    /\ MappedFile.dtor true f os2 = (Ok tt, os3)
    /\ os_files os3
       = <[("test.dat"%string) := list_inserts 1 ((fun b => b mod 256) <$> [300; 7]) (le32 42)]>
           (os_files os_demo)
    /\ os_fds os3 = delete (os_next_fd os_demo) (os_fds os_demo)
    /\ released os_demo os3 (os_hint os_demo) (Z.of_nat (length (le32 42))).
Proof.
  assert (Hwf : os_wf os_demo) by (vm_compute; repeat split).
  assert (Hf : os_files os_demo !! "test.dat"%string = Some (le32 42))
    by (vm_compute; reflexivity).
  exact (shared_mapping_writes_reach_file "test.dat" os_demo (le32 42) 1%nat [300; 7]
           Hwf ltac:(reflexivity) ltac:(discriminate) Hf
           ltac:(vm_compute; split; reflexivity)
           ltac:(vm_compute; discriminate) ltac:(vm_compute; lia)).
Defined.

(** ** The constructor of the resizable file *)


